(** * Power-strap generation of hammer-vlsi (hammer/vlsi/hammer_vlsi_impl.py)

    A shallow embedding of the by-tracks power strap generator of
    [HammerPlaceAndRouteTool]:

    - [specify_power_straps_by_tracks]       (the track-to-geometry converter),
    - [specify_all_power_straps_by_tracks]   (the strap builder),
    - [_get_power_straps_for_hardmacros]     (the hard-macro recorder),
    - [_dump_power_straps_for_hardmacros]    (the abutment aggregator),
    - [_get_by_tracks_track_pitch]           (the derived group pitch),
    - [generate_power_straps_tcl]            (the generator, which calls the builder),
    - [_power_straps_check_index]            (the index check of the emitters),

    and, of the other classes of the file, the enumerations
    [HierarchicalMode] and [FlowLevel], the sign-off counts of
    [HammerDRCTool] and [HammerLVSTool], and
    [HammerSRAMGeneratorTool.generate_all_srams_and_corners].

    Python exceptions are values of [exn]; a method of the tool is a function
    from the mutable part of the object to a result and the new mutable part.
    [Decimal] values are rationals ([Q], compared with [==]); the quotient
    and the remainder raise on a zero divisor.  The density of line 745, a
    quotient that seldom ends, is computed in the arithmetic context of
    [decimal] (28 significant digits, ties to even); the sums, products,
    halvings and the quotients by the grid unit of the other lines are
    taken exact, as they are on operands of fewer digits than the context
    keeps.  Python [float] is the binary64 of [PrimFloat]. *)

From Stdlib Require Import ZArith QArith Qabs Qpower List String Ascii Bool Lia Lqa
  Floats Permutation.
Import ListNotations.

Open Scope string_scope.
Open Scope Z_scope.

(** ** Exceptions and results *)

Inductive exn : Type :=
| AssertionError (msg : string)
| ValueError (msg : string)
| IndexError
| KeyError
| TypeError
| OverflowError
| ZeroDivisionError
| DecimalException
| StatisticsError
(* not a Python exception: the bound of a modelled [while] loop was reached;
   [variants_loop_fuel] shows that the aggregator never reaches it *)
| OutOfFuel.

Inductive result (A : Type) : Type :=
| Ok (a : A)
| Err (e : exn).
Arguments Ok {A} a.
Arguments Err {A} e.

Definition is_ok {A} (r : result A) : bool :=
  match r with Ok _ => true | Err _ => false end.

Definition rbind {A B} (r : result A) (k : A -> result B) : result B :=
  match r with Ok a => k a | Err e => Err e end.

Definition py_assert (b : bool) (msg : string) : result unit :=
  if b then Ok tt else Err (AssertionError msg).

(** ** Decimal arithmetic *)

Definition Qgtb (a b : Q) : bool := negb (Qle_bool a b).
Definition Qltb (a b : Q) : bool := negb (Qle_bool b a).
Definition Qeqb (a b : Q) : bool := Qeq_bool a b.

(** [int(d)] truncates towards zero. *)
Definition decimal_to_int (d : Q) : Z := Z.quot (Qnum d) (Z.pos (Qden d)).

(** [a / b] on decimals: a zero divisor raises. *)
Definition decimal_div (a b : Q) : result Q :=
  if Qeqb b 0 then Err DecimalException else Ok (a / b)%Q.

(** [a % b] on decimals: the remainder has the sign of the dividend,
    [a - b * int(a / b)]; a zero divisor raises. *)
Definition decimal_rem (a b : Q) : result Q :=
  if Qeqb b 0 then Err DecimalException
  else Ok (a - b * inject_Z (decimal_to_int (a / b)))%Q.

(** The arithmetic context of [decimal] (the default one: 28 significant
    digits, [ROUND_HALF_EVEN]): the result of an operation is the exact
    result rounded to the precision of the context.  The exponent limits of
    the context (999999) are not part of the model. *)
Definition decimal_prec : Z := 28.

(** Number of decimal digits of a positive integer. *)
Fixpoint digits10_fuel (fuel : nat) (n : Z) : Z :=
  match fuel with
  | O => 1
  | S fuel' => if n <? 10 then 1 else 1 + digits10_fuel fuel' (n / 10)
  end.

Definition digits10 (n : Z) : Z := digits10_fuel (Z.to_nat (Z.log2 n)) n.

(** Nearest integer of [n / d] for [0 < d], ties to the even one. *)
Definition round_half_even_div (n d : Z) : Z :=
  let q := n / d in
  let r := n mod d in
  if 2 * r <? d then q
  else if d <? 2 * r then q + 1
  else if Z.even q then q else q + 1.

(** [floor(log10(p / d))] for positive [p] and [d]. *)
Definition ilog10 (p d : Z) : Z :=
  let t := digits10 p - digits10 d in
  if (if 0 <=? t then 10 ^ t * d <=? p else d <=? p * 10 ^ (- t)) then t else t - 1.

(** [p / d], for positive [p] and [d], rounded to the precision of the
    context: the coefficient is the nearest integer of [p / d * 10^k], where
    [k] brings the leading digit to the place [decimal_prec]. *)
Definition decimal_round_pos (p d : Z) : Q :=
  let k := decimal_prec - 1 - ilog10 p d in
  if 0 <=? k
  then Qmake (round_half_even_div (p * 10 ^ k) d) (Z.to_pos (10 ^ k))
  else inject_Z (round_half_even_div p (d * 10 ^ (- k)) * 10 ^ (- k)).

Definition decimal_round (x : Q) : Q :=
  let x := Qred x in
  match Qnum x with
  | 0 => 0
  | Z.pos p => decimal_round_pos (Z.pos p) (Z.pos (Qden x))
  | Z.neg p => - decimal_round_pos (Z.pos p) (Z.pos (Qden x))
  end.

(** [a * b] and [a / b] in the context. *)
Definition decimal_mul_ctx (a b : Q) : Q := decimal_round (a * b).

Definition decimal_div_ctx (a b : Q) : result Q :=
  if Qeqb b 0 then Err DecimalException else Ok (decimal_round (a / b)).

(** ** Binary64 helpers: [int / float] and [round(float)] *)

(** Conversion of an [int] operand to [float]: correctly rounded, and an
    [OverflowError] when the integer is out of range. *)
Definition float_of_int (n : Z) : result float :=
  match binary_normalize prec emax n 0 false with
  | S754_infinity _ => Err OverflowError
  | sf => Ok (SF2Prim sf)
  end.

(** [n / x] for an [int] n and a [float] x. *)
Definition int_truediv_float (n : Z) (x : float) : result float :=
  rbind (float_of_int n) (fun fn =>
  if PrimFloat.eqb x PrimFloat.zero then Err ZeroDivisionError
  else Ok (PrimFloat.div fn x)).

(** Nearest integer of [m / 2^k], ties to the even one. *)
Definition round_half_even_pow2 (m : Z) (k : Z) : Z :=
  let d := 2 ^ k in
  let q := m / d in
  let r := m mod d in
  if 2 * r <? d then q
  else if d <? 2 * r then q + 1
  else if Z.even q then q else q + 1.

(** [round(x)] for a [float] x, with no digits argument. *)
Definition py_round (x : float) : result Z :=
  match Prim2SF x with
  | S754_zero _ => Ok 0
  | S754_infinity _ => Err OverflowError
  | S754_nan => Err (ValueError "cannot convert float NaN to integer")
  | S754_finite s m e =>
      let a := if 0 <=? e then Z.pos m * 2 ^ e
               else round_half_even_pow2 (Z.pos m) (- e) in
      Ok (if s then - a else a)
  end.

(** ** Strings *)

Definition lower_ascii (c : ascii) : ascii :=
  let n := nat_of_ascii c in
  if (Nat.leb 65 n && Nat.leb n 90)%bool then ascii_of_nat (n + 32) else c.

Fixpoint lower (s : string) : string :=
  match s with
  | EmptyString => EmptyString
  | String c s' => String (lower_ascii c) (lower s')
  end.

(** [x in l] for a list of strings. *)
Definition str_in (x : string) (l : list string) : bool :=
  existsb (String.eqb x) l.

Definition get_or_else {A} (o : option A) (default : A) : A :=
  match o with Some a => a | None => default end.

(** ** The stackup (hammer.tech, outside this file: taken as data) *)

Inductive RoutingDirection : Type := Vertical | Horizontal | Redistribution.

Definition RoutingDirection_eqb (a b : RoutingDirection) : bool :=
  match a, b with
  | Vertical, Vertical | Horizontal, Horizontal
  | Redistribution, Redistribution => true
  | _, _ => false
  end.

(** A metal layer.  The three width/spacing solvers are methods of the layer
    that live in the technology library; they are fields here. *)
Module Metal.
Record t : Type := mk {
  name : string;
  index : Z;
  direction : RoutingDirection;
  min_width : Q;
  pitch : Q;
  offset : Q;
  grid_unit : Q;
  (* returns (spacing, width) *)
  min_spacing_and_max_width_from_pitch : Q -> Q * Q;
  (* return (width, spacing, start) *)
  get_width_spacing_start_twt : Z -> Q * Q * Q;
  get_width_spacing_start_twwt : Z -> bool -> Q * Q * Q
}.
End Metal.

Module Stackup.
Record t : Type := mk {
  metals : list Metal.t;
  grid_unit : Q
}.

(** Modelled from the spec: the Stackup Provider (hammer.tech.stackup) is not
    part of this file; its "layer lookup by name" finds the layer of that
    name and raises a [ValueError] when there is none. *)
Definition get_metal (st : t) (layer_name : string) : result Metal.t :=
  match find (fun m => String.eqb (Metal.name m) layer_name) (metals st) with
  | Some m => Ok m
  | None => Err (ValueError ("Metal named " ++ layer_name ++ " is not defined in this stackup"))
  end.
End Stackup.

(** ** Placement constraints (hammer.vlsi.constraints, taken as data) *)

Inductive PlacementConstraintType : Type :=
| Dummy | Placement | TopLevel | HardMacro | Hierarchical | Obstruction | Overlap.

Inductive ObstructionType : Type := Place | Route | Power.

Module PlacementConstraint.
Record t : Type := mk {
  path : string;
  type : PlacementConstraintType;
  x : Q;
  y : Q;
  width : option Q;
  height : option Q;
  master : option string;
  create_physical : option bool;
  orientation : option string;
  top_layer : option string;
  layers : option (list string);
  obs_types : option (list ObstructionType)
}.
End PlacementConstraint.

(** ** Settings read by the generator *)

(** The per-layer overridable keys of
    [par.generate_power_straps_options.by_tracks], after
    [_get_by_tracks_metal_setting] and the [int]/[float]/[Decimal]
    conversion at the call site. *)
Module ByTracks.
Record t : Type := mk {
  pattern : string;
  blockage_spacing : Q;     (* coerce_to_grid(float(...), grid_unit) *)
  track_width : Z;
  track_spacing : Z;
  track_start : Z;
  track_offset : Q;
  power_utilization : float;
  antenna_trim_shape : string
}.
End ByTracks.

(** The read-only part of the tool object: resolved settings, the stackup and
    the placement constraints. *)
Module Tool.
Record t : Type := mk {
  get_stackup : Stackup.t;
  get_placement_constraints : list PlacementConstraint.t;
  std_cell_rail_layer : string;                       (* technology.core.std_cell_rail_layer *)
  power_straps_abutment : bool;                       (* par.power_straps_abutment *)
  power_straps_abutment_macros : option (list string);(* par.power_straps_abutment_macros *)
  by_tracks : string -> ByTracks.t                    (* layer name -> settings *)
}.
End Tool.

(** ** Commands, records, log and the mutable state *)

(** The two tool-specific emitters [specify_power_straps] and
    [specify_std_cell_power_straps] are abstract; a call of either is kept
    with its arguments. *)
Inductive command : Type :=
| specify_power_straps
    (layer_name bottom_via_layer_name : string)
    (blockage_spacing pitch width spacing offset : Q)
    (bbox : option (list Q)) (nets : list string)
    (add_pins : bool) (antenna_trim_shape : string)
| specify_std_cell_power_straps
    (blockage_spacing : Q) (bbox : option (list Q)) (nets : list string).

(** One entry of the class-level list [_hardmacro_power_straps]. *)
Module StrapRecord.
Record t : Type := mk {
  master : string;
  top_layer : string;
  path : string;
  orientation : string;
  layer : string;
  direction : RoutingDirection;
  net_order : list string;
  width : Z;
  spacing : Z;
  group_pitch : Z;
  offset : Z
}.
End StrapRecord.

(** One group descriptor of [power_straps.json].  The descriptor of the layer
    above carries no [offset] key. *)
Module Desc.
Record t : Type := mk {
  layer : string;
  direction : RoutingDirection;
  net_order : list string;
  width : Z;
  spacing : Z;
  group_pitch : Z;
  offset : option Z;
  inst_paths : list string;
  inst_orientations : list string
}.
End Desc.

(** The report: a list of one-key objects [{master_module: [descriptors]}]. *)
Definition report : Type := list (string * list Desc.t).

(** Logger calls, kept by kind with the values formatted into the message. *)
Inductive log_event : Type :=
| DensityWarning (layer : string) (density : Q)
| NotInBBoxError (path layer : string)
| ObstructedError (path layer po_path : string)
| CannotAbutError (path layer : string)
| CannotViaDownError (path layer : string)
| ConflictingTopLayerError (master : string)
| SameAsTopLayerError (master layer : string)
| MisalignedError (misaligned_insts : list (string * list string)).

(** What a run mutates: the logger, the class attribute
    [_hardmacro_power_straps] and the file [power_straps.json]. *)
Record state : Type := mkState {
  logger : list log_event;
  _hardmacro_power_straps : list StrapRecord.t;
  power_straps_json : option report
}.

(** A method: the mutations made before an exception are kept. *)
Definition M (A : Type) : Type := state -> result A * state.

Definition ret {A} (a : A) : M A := fun s => (Ok a, s).
Definition raise {A} (e : exn) : M A := fun s => (Err e, s).
Definition bind {A B} (m : M A) (k : A -> M B) : M B :=
  fun s => match m s with
           | (Ok a, s') => k a s'
           | (Err e, s') => (Err e, s')
           end.
Definition lift {A} (r : result A) : M A := fun s => (r, s).

Notation "x <- m ;; k" := (bind m (fun x => k))
  (at level 61, m at next level, right associativity).
Notation "m ;;; k" := (bind m (fun _ => k))
  (at level 61, right associativity).

Definition log (e : log_event) : M unit :=
  fun s => (Ok tt, mkState (logger s ++ [e]) (_hardmacro_power_straps s) (power_straps_json s)).

Definition append_record (r : StrapRecord.t) : M unit :=
  fun s => (Ok tt, mkState (logger s) (_hardmacro_power_straps s ++ [r]) (power_straps_json s)).

Definition write_report (r : report) : M unit :=
  fun s => (Ok tt, mkState (logger s) (_hardmacro_power_straps s) (Some r)).

Definition read_records : M (list StrapRecord.t) :=
  fun s => (Ok (_hardmacro_power_straps s), s).

Definition when (b : bool) (m : M unit) : M unit := if b then m else ret tt.

(** [for x in xs: body(x)] *)
Fixpoint for_each {A} (xs : list A) (body : A -> M unit) : M unit :=
  match xs with
  | [] => ret tt
  | x :: xs' => body x ;;; for_each xs' body
  end.

(** ** The hard-macro recorder: [_get_power_straps_for_hardmacros] *)

Definition PlacementConstraintType_eqb (a b : PlacementConstraintType) : bool :=
  match a, b with
  | Dummy, Dummy | Placement, Placement | TopLevel, TopLevel
  | HardMacro, HardMacro | Hierarchical, Hierarchical
  | Obstruction, Obstruction | Overlap, Overlap => true
  | _, _ => false
  end.

Definition ObstructionType_eqb (a b : ObstructionType) : bool :=
  match a, b with
  | Place, Place | Route, Route | Power, Power => true
  | _, _ => false
  end.

(** [a or b]: the right operand is evaluated only when the left is false. *)
Definition py_or (a b : result bool) : result bool :=
  rbind a (fun va => if va then Ok true else b).

(** [bbox[i]] *)
Definition bbox_get (bbox : list Q) (i : nat) : result Q :=
  match nth_error bbox i with
  | Some v => Ok v
  | None => Err IndexError
  end.

Definition lt_bbox (a : Q) (bbox : list Q) (i : nat) : result bool :=
  rbind (bbox_get bbox i) (fun b => Ok (Qltb a b)).

Definition gt_bbox (a : Q) (bbox : list Q) (i : nat) : result bool :=
  rbind (bbox_get bbox i) (fun b => Ok (Qgtb a b)).

Definition rotated (orientation : string) : bool :=
  str_in orientation ["r90"; "r270"].

(** Lines 879-888: the value of [oob] tested on line 889.  The two
    assignments under [if macro.width is not None ...] are evaluated and
    then overwritten by the assignment of line 888. *)
Definition bounds_check (macro : PlacementConstraint.t) (orientation : string)
    (bbox : option (list Q)) : result bool :=
  let oob := false in
  match bbox with
  | None => Ok oob
  | Some bbox =>
      let mx := PlacementConstraint.x macro in
      let my := PlacementConstraint.y macro in
      rbind
        (match PlacementConstraint.width macro, PlacementConstraint.height macro with
         | Some mw, Some mh =>
             rbind
               (if rotated orientation
                then py_or (lt_bbox (mx + mh)%Q bbox 0) (lt_bbox (my + mh)%Q bbox 1)
                else Ok oob)
               (fun _ => py_or (lt_bbox (mx + mw)%Q bbox 0) (lt_bbox (my + mh)%Q bbox 1))
         | _, _ => Ok oob
         end)
        (fun _ => py_or (gt_bbox mx bbox 2) (gt_bbox my bbox 3))
  end.

(** Lines 897-913: one error per power obstruction of the layer that
    overlaps the macro. *)
Definition check_obstructions (layer : Metal.t) (macro : PlacementConstraint.t)
    (orientation : string) (mw mh : Q)
    (layer_pwr_obs : list PlacementConstraint.t) : M unit :=
  let m_ll_x := PlacementConstraint.x macro in
  let m_ll_y := PlacementConstraint.y macro in
  let '(m_ur_x, m_ur_y) :=
    if rotated (lower orientation)
    then (PlacementConstraint.x macro + mh, PlacementConstraint.y macro + mw)%Q
    else (PlacementConstraint.x macro + mw, PlacementConstraint.y macro + mh)%Q in
  for_each layer_pwr_obs (fun po =>
    match PlacementConstraint.width po, PlacementConstraint.height po with
    | Some pw, Some ph =>
        let o_ll_x := PlacementConstraint.x po in
        let o_ll_y := PlacementConstraint.y po in
        let o_ur_x := (PlacementConstraint.x po + pw)%Q in
        let o_ur_y := (PlacementConstraint.y po + ph)%Q in
        when (negb (Qle_bool m_ur_x o_ll_x || Qle_bool o_ur_x m_ll_x
                    || Qle_bool m_ur_y o_ll_y || Qle_bool o_ur_y m_ll_y))
             (log (ObstructedError (PlacementConstraint.path macro) (Metal.name layer)
                                   (PlacementConstraint.path po)))
    | _, _ => raise TypeError
    end).

(** Lines 923-929: does the last strap of the group end beyond the macro? *)
Definition group_does_not_fit (layer : Metal.t) (macro : PlacementConstraint.t)
    (orientation : string) (last_edge : Q) : bool :=
  let oob := false in
  match PlacementConstraint.width macro, PlacementConstraint.height macro with
  | Some mw, Some mh =>
      let oob :=
        if RoutingDirection_eqb (Metal.direction layer) Vertical
        then (rotated orientation && Qgtb last_edge mh) || Qgtb last_edge mw
        else oob in
      if RoutingDirection_eqb (Metal.direction layer) Horizontal
      then (rotated orientation && Qgtb last_edge mw) || Qgtb last_edge mh
      else oob
  | _, _ => oob
  end.

(** Lines 937-949: the record appended for the macro. *)
Definition make_record (master top_layer : string) (macro : PlacementConstraint.t)
    (orientation layer_name : string) (layer : Metal.t) (nets : list string)
    (width spacing pitch offset_trans dbu : Q) : result StrapRecord.t :=
  rbind (decimal_div width dbu) (fun w =>
  rbind (decimal_div spacing dbu) (fun sp =>
  rbind (decimal_div pitch dbu) (fun gp =>
  rbind (decimal_div offset_trans dbu) (fun off =>
  Ok (StrapRecord.mk master top_layer (PlacementConstraint.path macro) orientation
        layer_name (Metal.direction layer) nets
        (decimal_to_int w) (decimal_to_int sp) (decimal_to_int gp) (decimal_to_int off)))))).

(** The body of [for macro in hardmacros] (lines 861-949); [ret tt] where the
    source says [continue]. *)
Definition hardmacro_body (self : Tool.t) (layer_name : string) (layer : Metal.t)
    (dbu : Q) (check_abut : bool) (pwr_obs : list PlacementConstraint.t)
    (pitch width spacing offset : Q) (bbox : option (list Q)) (nets : list string)
    (macro : PlacementConstraint.t) : M unit :=
  match PlacementConstraint.master macro with
  | None => ret tt
  | Some master =>
  if match Tool.power_straps_abutment_macros self with
     | Some macros => negb (str_in master macros)
     | None => false
     end
  then ret tt else
  if get_or_else (PlacementConstraint.create_physical macro) false then ret tt else
  match PlacementConstraint.top_layer macro with
  | None => ret tt
  | Some top_layer =>
  top <- lift (Stackup.get_metal (Tool.get_stackup self) top_layer) ;;
  let top_idx := Metal.index top in
  if (Metal.index layer <? top_idx) || (top_idx + 1 <? Metal.index layer) then ret tt else
  let orientation := lower (get_or_else (PlacementConstraint.orientation macro) "r0") in
  oob <- lift (bounds_check macro orientation bbox) ;;
  if oob then log (NotInBBoxError (PlacementConstraint.path macro) (Metal.name layer)) else
  let check_layer_idx := top_idx + (if check_abut then 0 else 1) in
  let layer_pwr_obs :=
    filter (fun o => match PlacementConstraint.layers o with
                     | Some ls => str_in layer_name ls
                     | None => false
                     end) pwr_obs in
  (if (Metal.index layer =? check_layer_idx) && (0 <? Z.of_nat (List.length layer_pwr_obs))
   then match PlacementConstraint.width macro, PlacementConstraint.height macro with
        | Some mw, Some mh => check_obstructions layer macro orientation mw mh layer_pwr_obs
        | _, _ => ret tt
        end
   else ret tt) ;;;
  (* [(offset - macro.x) % pitch] on a vertical layer,
     [(offset - macro.y) % pitch] on a horizontal one, else [continue] *)
  match Metal.direction layer with
  | Redistribution => ret tt (* redistribution not supported *)
  | direction =>
  offset_trans <-
    lift (decimal_rem
            (offset - (if RoutingDirection_eqb direction Vertical
                       then PlacementConstraint.x macro
                       else PlacementConstraint.y macro))%Q pitch) ;;
  let last_edge :=
    (offset_trans + inject_Z (Z.of_nat (List.length nets) - 1) * (width + spacing) + width)%Q in
  let oob := group_does_not_fit layer macro orientation last_edge in
  when (oob && (Metal.index layer =? check_layer_idx))
       (if check_abut
        then log (CannotAbutError (PlacementConstraint.path macro) (Metal.name layer))
        else log (CannotViaDownError (PlacementConstraint.path macro) (Metal.name layer))) ;;;
  r <- lift (make_record master top_layer macro orientation layer_name layer nets
               width spacing pitch offset_trans dbu) ;;
  append_record r
  end end end.

Definition _get_power_straps_for_hardmacros (self : Tool.t) (layer_name : string)
    (pitch width spacing offset : Q) (bbox : option (list Q)) (nets : list string)
    : M unit :=
  let check_abut := Tool.power_straps_abutment self in
  let fp_consts := Tool.get_placement_constraints self in
  let hardmacros :=
    filter (fun c => PlacementConstraintType_eqb (PlacementConstraint.type c) HardMacro)
           fp_consts in
  let obs :=
    filter (fun c => PlacementConstraintType_eqb (PlacementConstraint.type c) Obstruction)
           fp_consts in
  let pwr_obs :=
    filter (fun c => match PlacementConstraint.obs_types c with
                     | Some ts => existsb (ObstructionType_eqb Power) ts
                     | None => false
                     end) obs in
  let stackup := Tool.get_stackup self in
  layer <- lift (Stackup.get_metal stackup layer_name) ;;
  let dbu := Stackup.grid_unit stackup in
  for_each hardmacros
    (hardmacro_body self layer_name layer dbu check_abut pwr_obs
                    pitch width spacing offset bbox nets).

(** ** The abutment aggregator: [_dump_power_straps_for_hardmacros] *)

(** [statistics.mode]: [Counter(iter(data)).most_common(1)], the first value
    met among those of the highest count; [StatisticsError] on no data. *)
Fixpoint counter_incr (x : Z) (c : list (Z * nat)) : list (Z * nat) :=
  match c with
  | [] => [(x, 1%nat)]
  | (y, n) :: c' => if x =? y then (y, S n) :: c' else (y, n) :: counter_incr x c'
  end.

Definition Counter (data : list Z) : list (Z * nat) :=
  fold_left (fun c x => counter_incr x c) data [].

Fixpoint first_max (best : Z * nat) (c : list (Z * nat)) : Z * nat :=
  match c with
  | [] => best
  | p :: c' => if (snd best <? snd p)%nat then first_max p c' else first_max best c'
  end.

Definition mode (data : list Z) : result Z :=
  match Counter data with
  | [] => Err StatisticsError
  | p :: c => Ok (fst (first_max p c))
  end.

(** The elements of a list without repetition, in the order they are first
    met.  The iteration order of the Python [set] of masters is not fixed by
    the language; the model takes this one. *)
Fixpoint distinct (l : list string) : list string :=
  match l with
  | [] => []
  | x :: l' => x :: filter (fun y => negb (String.eqb x y)) (distinct l')
  end.

(** [valid_orients[direction]]: the dictionary has the keys of the vertical
    and of the horizontal direction only. *)
Definition valid_orients (d : RoutingDirection) : result (list string) :=
  match d with
  | Vertical => Ok ["r0"; "mx"]
  | Horizontal => Ok ["r0"; "my"]
  | Redistribution => Err KeyError
  end.

(** [list(filter(p, l))] for a predicate that may raise. *)
Fixpoint filter_r {A} (p : A -> result bool) (l : list A) : result (list A) :=
  match l with
  | [] => Ok []
  | x :: l' =>
      rbind (p x) (fun b =>
      rbind (filter_r p l') (fun r => Ok (if b then x :: r else r)))
  end.

Definition on_top_layer (m : StrapRecord.t) : bool :=
  String.eqb (StrapRecord.top_layer m) (StrapRecord.layer m).

Definition is_abut_inst (m : StrapRecord.t) : result bool :=
  if on_top_layer m
  then rbind (valid_orients (StrapRecord.direction m))
             (fun v => Ok (str_in (StrapRecord.orientation m) v))
  else Ok false.

Definition is_bad_orient_inst (m : StrapRecord.t) : result bool :=
  if on_top_layer m
  then rbind (valid_orients (StrapRecord.direction m))
             (fun v => Ok (negb (str_in (StrapRecord.orientation m) v)))
  else Ok false.

(** [{k: m[k] for k in copy_fields}] with the instance lists of a group. *)
Definition describe (m : StrapRecord.t) (offset : option Z)
    (insts : list StrapRecord.t) : Desc.t :=
  Desc.mk (StrapRecord.layer m) (StrapRecord.direction m) (StrapRecord.net_order m)
          (StrapRecord.width m) (StrapRecord.spacing m) (StrapRecord.group_pitch m)
          offset (map StrapRecord.path insts) (map StrapRecord.orientation insts).

(** [misaligned_insts[master] = paths] or [.extend(paths)]. *)
Fixpoint misaligned_add (master : string) (paths : list string)
    (d : list (string * list string)) : list (string * list string) :=
  match d with
  | [] => [(master, paths)]
  | (k, v) :: d' =>
      if String.eqb k master then (k, (v ++ paths)%list) :: d'
      else (k, v) :: misaligned_add master paths d'
  end.

(** [str(variant_cnt)] *)
Fixpoint digits_of (fuel n : nat) (acc : string) : string :=
  match fuel with
  | O => acc
  | S fuel' =>
      let acc' := String (ascii_of_nat (48 + Nat.modulo n 10)) acc in
      if Nat.ltb n 10 then acc' else digits_of fuel' (Nat.div n 10) acc'
  end.

Definition str_of_nat (n : nat) : string := digits_of (S n) n "".

Definition same_offset (v : Z) (m : StrapRecord.t) : bool := StrapRecord.offset m =? v.
Definition other_offset (v : Z) (m : StrapRecord.t) : bool := negb (StrapRecord.offset m =? v).

(** The [while len(abut_insts) + len(bad_orient_insts) > 0] loop of lines
    1000-1032, for one master. *)
Fixpoint variants_loop (fuel : nat) (master : string) (above_insts : list StrapRecord.t)
    (abut_insts bad_orient_insts : list StrapRecord.t) (variant_cnt : nat)
    (output : report) (misaligned_insts : list (string * list string))
    : result (report * list (string * list string)) :=
  if (0 <? List.length abut_insts + List.length bad_orient_insts)%nat then
    match fuel with
    | O => Err OutOfFuel
    | S fuel' =>
        rbind
          (if (0 <? List.length abut_insts)%nat
           then rbind (mode (map StrapRecord.offset abut_insts)) (fun max_count_offset =>
                Ok (max_count_offset,
                    filter (same_offset max_count_offset) abut_insts,
                    filter (other_offset max_count_offset) abut_insts,
                    bad_orient_insts))
           else rbind (mode (map StrapRecord.offset bad_orient_insts)) (fun max_count_offset =>
                Ok (max_count_offset,
                    filter (same_offset max_count_offset) bad_orient_insts,
                    abut_insts,
                    filter (other_offset max_count_offset) bad_orient_insts)))
          (fun '(max_count_offset, insts, abut_insts, bad_orient_insts) =>
        let master_module := master in
        let misaligned_insts :=
          if (0 <? variant_cnt)%nat
          then misaligned_add master (map StrapRecord.path insts) misaligned_insts
          else misaligned_insts in
        let master_module :=
          if (0 <? variant_cnt)%nat
          then master_module ++ "_" ++ str_of_nat variant_cnt
          else master_module in
        match insts with
        | [] => Err IndexError
        | inst0 :: _ =>
            let abut_desc := describe inst0 (Some max_count_offset) insts in
            let output :=
              match above_insts with
              | above0 :: _ =>
                  (output ++ [(master_module, [abut_desc; describe above0 None insts])])%list
              | [] => (output ++ [(master_module, [abut_desc])])%list
              end in
            variants_loop fuel' master above_insts abut_insts bad_orient_insts
                          (S variant_cnt) output misaligned_insts
        end)
    end
  else Ok (output, misaligned_insts).

(** [for acc, x in xs: acc = body(acc, x)] *)
Fixpoint for_acc {A B} (xs : list A) (acc : B) (body : B -> A -> M B) : M B :=
  match xs with
  | [] => ret acc
  | x :: xs' => acc' <- body acc x ;; for_acc xs' acc' body
  end.

(** The body of [for master in masters] (lines 977-1032). *)
Definition master_body (check_abut : bool) (records : list StrapRecord.t)
    (acc : report * list (string * list string)) (master : string)
    : M (report * list (string * list string)) :=
  let '(output, misaligned_insts) := acc in
  let insts := filter (fun m => String.eqb (StrapRecord.master m) master) records in
  when (1 <? List.length (distinct (map StrapRecord.top_layer insts)))%nat
       (log (ConflictingTopLayerError master)) ;;;
  let above_insts := filter (fun m => negb (on_top_layer m)) insts in
  match above_insts, insts with
  | [], inst0 :: _ =>
      when (negb check_abut) (log (SameAsTopLayerError master (StrapRecord.layer inst0)))
  | _, _ => ret tt
  end ;;;
  abut_insts <- lift (filter_r is_abut_inst insts) ;;
  bad_orient_insts <- lift (filter_r is_bad_orient_inst insts) ;;
  lift (variants_loop (List.length abut_insts + List.length bad_orient_insts)
          master above_insts abut_insts bad_orient_insts 0 output misaligned_insts).

Definition _dump_power_straps_for_hardmacros (self : Tool.t) : M unit :=
  let check_abut := Tool.power_straps_abutment self in
  let output : report := [] in
  let misaligned_insts : list (string * list string) := [] in
  records <- read_records ;;
  let masters := distinct (map StrapRecord.master records) in
  r <- for_acc masters (output, misaligned_insts) (master_body check_abut records) ;;
  let '(output, misaligned_insts) := r in
  when (check_abut && (0 <? List.length misaligned_insts)%nat)
       (log (MisalignedError misaligned_insts)) ;;;
  write_report output.

(** ** The track-to-geometry converter: [specify_power_straps_by_tracks] *)

(** Lines 725-726: the spacing in tracks used for sizing. *)
Definition sizing_track_spacing (pattern : string) (track_spacing : Z) : Z :=
  if String.eqb pattern "mesh" then 1 else track_spacing.

(** Lines 725-740: the resolved [(width, spacing, strap_start)]. *)
Definition by_tracks_width_spacing_start (layer : Metal.t) (pitch : Q)
    (track_width track_spacing : Z) (layer_is_all_power : bool) (pattern : string)
    : Q * Q * Q :=
  let track_spacing := sizing_track_spacing pattern track_spacing in
  if track_spacing =? 0 then
    if layer_is_all_power then
      let one_strap_pitch := (inject_Z track_width * Metal.pitch layer)%Q in
      let '(spacing, width) := Metal.min_spacing_and_max_width_from_pitch layer one_strap_pitch in
      let strap_start := (spacing / 2 + Metal.offset layer)%Q in
      (width, spacing, strap_start)
    else
      Metal.get_width_spacing_start_twwt layer track_width true
  else
    let '(width, spacing, strap_start) := Metal.get_width_spacing_start_twt layer track_width in
    let spacing :=
      (2 * spacing + inject_Z (track_spacing - 1) * Metal.pitch layer + Metal.min_width layer)%Q in
    let spacing := if String.eqb pattern "mesh" then (pitch / 2 - width)%Q else spacing in
    (width, spacing, strap_start).

(** Line 745: [Decimal(len(nets)) * width / pitch * Decimal(100)], each of
    the three operations in the arithmetic context. *)
Definition strap_density (nets : list string) (width pitch : Q) : result Q :=
  rbind (decimal_div_ctx
           (decimal_mul_ctx (inject_Z (Z.of_nat (List.length nets))) width) pitch)
        (fun q => Ok (decimal_mul_ctx q 100)).

Definition specify_power_straps_by_tracks (self : Tool.t)
    (layer_name bottom_via_layer : string) (blockage_spacing : Q)
    (track_pitch track_width track_spacing track_start : Z) (track_offset : Q)
    (bbox : option (list Q)) (nets : list string) (add_pins layer_is_all_power : bool)
    (antenna_trim_shape pattern : string) : M (list command) :=
  layer <- lift (Stackup.get_metal (Tool.get_stackup self) layer_name) ;;
  let pitch := (inject_Z track_pitch * Metal.pitch layer)%Q in
  let '(width, spacing, strap_start) :=
    by_tracks_width_spacing_start layer pitch track_width track_spacing
                                  layer_is_all_power pattern in
  let offset := (track_offset + inject_Z track_start * Metal.pitch layer + strap_start)%Q in
  lift (py_assert (Qgtb width 0)
          ("Width must be greater than zero. You probably have a malformed tech plugin on layer "
           ++ layer_name ++ ".")) ;;;
  lift (py_assert (Qgtb spacing 0)
          ("Spacing must be greater than zero. You probably have a malformed tech plugin on layer "
           ++ layer_name ++ ".")) ;;;
  density <- lift (strap_density nets width pitch) ;;
  when (Qgtb density 85) (log (DensityWarning layer_name density)) ;;;
  _get_power_straps_for_hardmacros self layer_name pitch width spacing offset bbox nets ;;;
  ret [specify_power_straps layer_name bottom_via_layer blockage_spacing pitch width
         spacing offset bbox nets add_pins antenna_trim_shape].

(** ** The derived group pitch: [_get_by_tracks_track_pitch] *)

Definition _get_by_tracks_track_pitch (self : Tool.t) (layer_name : string) : result Z :=
  let track_width := ByTracks.track_width (Tool.by_tracks self layer_name) in
  let track_spacing := ByTracks.track_spacing (Tool.by_tracks self layer_name) in
  let power_utilization := ByTracks.power_utilization (Tool.by_tracks self layer_name) in
  let pattern := ByTracks.pattern (Tool.by_tracks self layer_name) in
  rbind (py_assert (PrimFloat.ltb 0%float power_utilization) "") (fun _ =>
  rbind (py_assert (PrimFloat.leb power_utilization 1%float) "") (fun _ =>
  let consumed_tracks :=
    if String.eqb pattern "mesh" then 2 * track_width
    else 2 * track_width + track_spacing in
  rbind (int_truediv_float consumed_tracks power_utilization) py_round)).

(** ** The strap builder: [specify_all_power_straps_by_tracks] *)

Definition same_direction_msg (a b : string) : string :=
  "Layers " ++ a ++ " and " ++ b
  ++ " run in the same direction, but have no power straps between them.".

(** [power_nets[i]] *)
Definition list_get {A} (l : list A) (i : nat) : result A :=
  match nth_error l i with
  | Some v => Ok v
  | None => Err IndexError
  end.

Definition sum (l : list Z) : Z := fold_left Z.add l 0.

(** [range(n)] *)
Definition range (n : Z) : list nat := seq 0 (Z.to_nat n).

(** The body of [for i in range(sum_weights)] (lines 814-818). *)
Definition group_body (self : Tool.t) (layer_name : string) (layer last : Metal.t)
    (blockage_spacing : Q) (track_pitch track_width track_spacing track_start : Z)
    (track_offset offset : Q) (sum_weights : Z) (ground_net : string)
    (power_nets : list string) (bbox : option (list Q)) (add_pins layer_is_all_power : bool)
    (antenna_trim_shape pattern : string)
    (output : list command) (i : nat) : M (list command) :=
  power_net <- lift (list_get power_nets i) ;;
  let nets := [ground_net; power_net] in
  let group_offset :=
    (offset + track_offset + inject_Z (track_pitch * Z.of_nat i) * Metal.pitch layer)%Q in
  let group_pitch := sum_weights * track_pitch in
  cmds <- specify_power_straps_by_tracks self layer_name (Metal.name last) blockage_spacing
            group_pitch track_width track_spacing track_start group_offset bbox nets
            add_pins layer_is_all_power antenna_trim_shape pattern ;;
  ret (output ++ cmds)%list.

(** The body of [for layer_name in layer_names] (lines 790-820); the
    accumulator is [(output, last)]. *)
Definition layer_body (self : Tool.t) (ground_net : string) (power_nets : list string)
    (power_weights : list Z) (bbox : option (list Q)) (pin_layers : list string)
    (acc : list command * Metal.t) (layer_name : string) : M (list command * Metal.t) :=
  let '(output, last) := acc in
  layer <- lift (Stackup.get_metal (Tool.get_stackup self) layer_name) ;;
  lift (py_assert (Metal.index last <? Metal.index layer) "Must build power straps bottom-up") ;;;
  if RoutingDirection_eqb (Metal.direction last) (Metal.direction layer)
  then raise (ValueError (same_direction_msg (Metal.name last) (Metal.name layer)))
  else
  let pattern := ByTracks.pattern (Tool.by_tracks self layer_name) in
  let blockage_spacing := ByTracks.blockage_spacing (Tool.by_tracks self layer_name) in
  let track_width := ByTracks.track_width (Tool.by_tracks self layer_name) in
  let track_spacing := ByTracks.track_spacing (Tool.by_tracks self layer_name) in
  let track_start := ByTracks.track_start (Tool.by_tracks self layer_name) in
  track_pitch <- lift (_get_by_tracks_track_pitch self layer_name) ;;
  let track_offset := ByTracks.track_offset (Tool.by_tracks self layer_name) in
  let antenna_trim_shape := ByTracks.antenna_trim_shape (Tool.by_tracks self layer_name) in
  let offset := Metal.offset layer in
  let add_pins := str_in layer_name pin_layers in
  let sum_weights := sum power_weights in
  let layer_is_all_power := (2 * track_width) =? track_pitch in
  output <- for_acc (range sum_weights) output
              (group_body self layer_name layer last blockage_spacing track_pitch
                 track_width track_spacing track_start track_offset offset sum_weights
                 ground_net power_nets bbox add_pins layer_is_all_power
                 antenna_trim_shape pattern) ;;
  let last := layer in
  ret (output, last).

Definition specify_all_power_straps_by_tracks (self : Tool.t) (layer_names : list string)
    (bottom_via_layer ground_net : string) (power_nets : list string)
    (power_weights : list Z) (bbox : option (list Q)) (pin_layers : list string)
    (generate_rail_layer : bool) : M (list command) :=
  lift (py_assert (List.length power_nets =? List.length power_weights)%nat "") ;;;
  for_each pin_layers (fun l =>
    lift (py_assert (str_in l layer_names)
            ("Pin layer " ++ l ++ " must be in power strap layers"))) ;;;
  let output : list command := [] in
  let rail_layer_name := Tool.std_cell_rail_layer self in
  rail_layer <- lift (Stackup.get_metal (Tool.get_stackup self) rail_layer_name) ;;
  let output :=
    if generate_rail_layer then
      let blockage_spacing := ByTracks.blockage_spacing (Tool.by_tracks self rail_layer_name) in
      (output ++ [specify_std_cell_power_straps blockage_spacing bbox (ground_net :: power_nets)])%list
    else output in
  last <- lift (Stackup.get_metal (Tool.get_stackup self) bottom_via_layer) ;;
  r <- for_acc layer_names (output, last)
         (layer_body self ground_net power_nets power_weights bbox pin_layers) ;;
  _dump_power_straps_for_hardmacros self ;;;
  ret (fst r).

(** ** A small technology and floorplan for the examples *)

Module Fixture.

(** Toy solvers: a strap of [n] tracks is [n] wide. *)
Definition from_pitch (p : Q) : Q * Q := (p * (1 # 4), p * (3 # 4))%Q.
Definition twt (track_width : Z) : Q * Q * Q := (inject_Z track_width, 1, 0)%Q.
Definition twwt (track_width : Z) (force_even : bool) : Q * Q * Q :=
  (inject_Z track_width, 1 # 2, 1 # 4)%Q.

Definition metal (name : string) (index : Z) (d : RoutingDirection) : Metal.t :=
  Metal.mk name index d (1 # 10) 1 0 (1 # 10) from_pitch twt twwt.

Definition M1 : Metal.t := metal "M1" 1 Horizontal.
Definition M2 : Metal.t := metal "M2" 2 Vertical.
Definition M3 : Metal.t := metal "M3" 3 Horizontal.
Definition M4 : Metal.t := metal "M4" 4 Horizontal.
Definition RDL : Metal.t := metal "RDL" 3 Redistribution.

Definition stackup : Stackup.t := Stackup.mk [M1; M2; M3; M4; RDL] (1 # 10).

Definition settings (pattern : string) (track_spacing : Z) (power_utilization : float)
    (layer_name : string) : ByTracks.t :=
  ByTracks.mk pattern 0 3 track_spacing 0 0 power_utilization "none".

Definition tool (constraints : list PlacementConstraint.t) (check_abut : bool) : Tool.t :=
  Tool.mk stackup constraints "M1" check_abut None (settings "default" 0 0.25%float).

(** A hard macro of the given master, 10 by 10, whose top layer is M2. *)
Definition macro (path master : string) (x y : Q) : PlacementConstraint.t :=
  PlacementConstraint.mk path HardMacro x y (Some 10%Q) (Some 10%Q) (Some master)
    None None (Some "M2") None None.

(** A power obstruction on M2, 10 by 10. *)
Definition power_obstruction (path : string) (x y : Q) : PlacementConstraint.t :=
  PlacementConstraint.mk path Obstruction x y (Some 10%Q) (Some 10%Q) None
    None None None (Some ["M2"]) (Some [Power]).

Definition s0 : state := mkState [] [] None.

(** A record as the recorder leaves it for an instance of [X] on its top
    layer M2, unrotated, at the given group offset. *)
Definition rec_at (path : string) (offset : Z) : StrapRecord.t :=
  StrapRecord.mk "X" "M2" path "r0" "M2" Vertical ["VSS"; "VDD"] 30 10 240 offset.

(** Eight instances of [X]: five at offset 10, three at offset 20. *)
Definition eight_records : list StrapRecord.t :=
  [rec_at "i0" 10; rec_at "i1" 20; rec_at "i2" 10; rec_at "i3" 20;
   rec_at "i4" 10; rec_at "i5" 10; rec_at "i6" 20; rec_at "i7" 10].

End Fixture.

(** ** The emitters' index check: [_power_straps_check_index] *)

(** Lines 1047-1050.  The instance attribute [_power_straps_last_index]
    (initially [-1], line 1045) is passed in, and its new value returned. *)
Definition _power_straps_check_index (self : Tool.t) (layer_name : string)
    (_power_straps_last_index : Z) : result Z :=
  rbind (Stackup.get_metal (Tool.get_stackup self) layer_name) (fun metal =>
  let next_index := Metal.index metal in
  rbind (py_assert (next_index >=? _power_straps_last_index)
           "Must construct power straps from bottom to top") (fun _ =>
  Ok next_index)).

(** The check made for one call of an emitter by its base implementation
    (lines 1108 and 1126-1127). *)
Definition emitter_check (self : Tool.t) (c : command) (last_index : Z) : result Z :=
  match c with
  | specify_power_straps layer_name _ _ _ _ _ _ _ _ _ _ =>
      _power_straps_check_index self layer_name last_index
  | specify_std_cell_power_straps _ _ _ =>
      let layer_name := Tool.std_cell_rail_layer self in
      _power_straps_check_index self layer_name last_index
  end.

(** The checks of a sequence of emitter calls, in the order of the calls. *)
Fixpoint emitter_checks (self : Tool.t) (calls : list command) (last_index : Z)
    : result Z :=
  match calls with
  | [] => Ok last_index
  | c :: calls' => rbind (emitter_check self c last_index) (emitter_checks self calls')
  end.

(** ** The generator: [generate_power_straps_tcl] *)

(** [hammer.vlsi.constraints.Supply]: the fields read by the generator. *)
Module Supply.
Record t : Type := mk {
  name : string;
  weight : option Z      (* Optional[int] *)
}.
End Supply.

(** The settings of [par.generate_power_straps_*] and the supplies. *)
Module Par.
Record t : Type := mk {
  generate_power_straps_method : string;
  strap_layers : list string;
  pin_layers : list string;
  generate_rail_layer : bool;
  power_nets : list string;
  bottom_via_layer : string;
  get_independent_ground_nets : list Supply.t;
  get_independent_power_nets : list Supply.t
}.
End Par.

(** [list(map(f, l))] for an [f] that can raise. *)
Fixpoint map_r {A B} (f : A -> result B) (l : list A) : result (list B) :=
  match l with
  | [] => Ok []
  | x :: l' =>
      rbind (f x) (fun y =>
      rbind (map_r f l') (fun ys => Ok (y :: ys)))
  end.

(** Lines 683-689. *)
Definition get_weight (par : Par.t) (supply_name : string) : result Z :=
  let supply :=
    filter (fun s => String.eqb (Supply.name s) supply_name)
           (Par.get_independent_power_nets par) in
  rbind (py_assert (List.length supply =? 1)%nat "") (fun _ =>
  rbind (list_get supply 0) (fun supply0 =>
  match Supply.weight supply0 with
  | Some weight => Ok weight
  | None => Err (AssertionError "")
  end)).

(** What a call of the generator ends in: the result of the builder's
    monad, or the [NotImplementedError] that only the generator raises. *)
Inductive outcome (A : Type) : Type :=
| Ran (r : result A)
| NotImplementedError (msg : string).
Arguments Ran {A} r.
Arguments NotImplementedError {A} msg.

(** Lines 665-692: the branch of the method [by_tracks]. *)
Definition generate_by_tracks (self : Tool.t) (par : Par.t) : M (list command) :=
  let bbox : option (list Q) := None in
  let layers := Par.strap_layers par in
  let pin_layers := Par.pin_layers par in
  let generate_rail_layer := Par.generate_rail_layer par in
  let ground_net_names := map Supply.name (Par.get_independent_ground_nets par) in
  let power_net_names := map Supply.name (Par.get_independent_power_nets par) in
  let specified_power_net_names := Par.power_nets par in
  power_net_names <-
    (if negb (List.length specified_power_net_names =? 0)%nat then
       lift (py_assert (forallb (fun n => str_in n power_net_names)
                                specified_power_net_names) "") ;;;
       ret specified_power_net_names
     else ret power_net_names) ;;
  let bottom_via_option := Par.bottom_via_layer par in
  let bottom_via_layer :=
    if String.eqb bottom_via_option "rail" then Tool.std_cell_rail_layer self
    else bottom_via_option in
  weights <- lift (map_r (get_weight par) power_net_names) ;;
  lift (py_assert (List.length ground_net_names =? 1)%nat
          "FIXME, I am assuming there's only 1 ground net") ;;;
  ground_net <- lift (list_get ground_net_names 0) ;;
  specify_all_power_straps_by_tracks self layers bottom_via_layer ground_net
    power_net_names weights bbox pin_layers generate_rail_layer.

Definition generate_power_straps_tcl (self : Tool.t) (par : Par.t)
    : state -> outcome (list command) * state :=
  fun s =>
    let method := Par.generate_power_straps_method par in
    if String.eqb method "by_tracks" then
      let '(r, s') := generate_by_tracks self par s in (Ran r, s')
    else
      (NotImplementedError
         ("Power strap generation method " ++ method ++ " is not implemented"), s).

(** ** Dictionaries *)

(** A [dict] is kept as the list of its items in insertion order; the keys
    of a dictionary are distinct. *)
Section Dict.
Context {K V : Type} (eqb : K -> K -> bool).

(** [d[k]] *)
Fixpoint dict_get (d : list (K * V)) (k : K) : result V :=
  match d with
  | [] => Err KeyError
  | (k', v) :: d' => if eqb k' k then Ok v else dict_get d' k
  end.

(** [d[k] = v]: a key that is present keeps its place. *)
Fixpoint dict_set (d : list (K * V)) (k : K) (v : V) : list (K * V) :=
  match d with
  | [] => [(k, v)]
  | (k', v') :: d' => if eqb k' k then (k', v) :: d' else (k', v') :: dict_set d' k v
  end.

(** [{k: f(k) for k in ks}], continued from the items [acc]. *)
Fixpoint dict_comprehension (ks : list K) (f : K -> result V) (acc : list (K * V))
    : result (list (K * V)) :=
  match ks with
  | [] => Ok acc
  | k :: ks' => rbind (f k) (fun v => dict_comprehension ks' f (dict_set acc k v))
  end.

End Dict.

(** [hammer.utils.reverse_dict]: [{value: key for key, value in x.items()}]. *)
Definition reverse_dict {K V} (eqb : V -> V -> bool) (x : list (K * V)) : list (V * K) :=
  fold_left (fun acc item => dict_set eqb acc (snd item) (fst item)) x [].

(** ** The enumerations [HierarchicalMode] and [FlowLevel] *)

Module HierarchicalMode.

Inductive t : Type := Flat | Leaf | Hierarchical | Top.

Definition value (self : t) : Z :=
  match self with Flat => 1 | Leaf => 2 | Hierarchical => 3 | Top => 4 end.

Definition eqb (a b : t) : bool := value a =? value b.

Definition __mapping : list (string * t) :=
  [("flat", Flat); ("leaf", Leaf); ("hierarchical", Hierarchical); ("top", Top)].

Definition from_str (x : string) : result t :=
  match dict_get String.eqb __mapping x with
  | Err KeyError => Err (ValueError ("Invalid string for HierarchicalMode: " ++ x))
  | r => r
  end.

Definition __str__ (self : t) : result string :=
  dict_get eqb (reverse_dict eqb __mapping) self.

Definition is_nonleaf_hierarchical (self : t) : bool :=
  eqb self Hierarchical || eqb self Top.

End HierarchicalMode.

Module FlowLevel.

Inductive t : Type := RTL | SYN | PAR.

Definition value (self : t) : Z :=
  match self with RTL => 1 | SYN => 2 | PAR => 3 end.

Definition eqb (a b : t) : bool := value a =? value b.

Definition __mapping : list (string * t) :=
  [("rtl", RTL); ("syn", SYN); ("par", PAR)].

Definition from_str (x : string) : result t :=
  match dict_get String.eqb __mapping x with
  | Err KeyError => Err (ValueError ("Invalid string for FlowLevel: " ++ x))
  | r => r
  end.

Definition __str__ (self : t) : result string :=
  dict_get eqb (reverse_dict eqb __mapping) self.

Definition is_gatelevel (self : t) : bool :=
  eqb self SYN || eqb self PAR.

End FlowLevel.

(** ** Sign-off results: [HammerDRCTool] and [HammerLVSTool] *)

(** The abstract methods [drc_results_pre_waived], [globally_waived_drc_rules]
    and their ERC and LVS counterparts are taken by their return values; the
    counts are [int], on which [int(...)] is the identity. *)
Module HammerDRCTool.

Definition drc_results (drc_results_pre_waived : list (string * Z))
    (globally_waived_drc_rules : list string) : result (list (string * Z)) :=
  let res := drc_results_pre_waived in
  dict_comprehension String.eqb (map fst res)
    (fun k => if str_in k globally_waived_drc_rules then Ok 0
              else dict_get String.eqb res k) [].

Definition signoff_results (drc_results_pre_waived : list (string * Z))
    (globally_waived_drc_rules : list string) : result Z :=
  rbind (drc_results drc_results_pre_waived globally_waived_drc_rules) (fun results =>
  Ok (sum (map snd results))).

End HammerDRCTool.

Module HammerLVSTool.

Definition erc_results (erc_results_pre_waived : list (string * Z))
    (globally_waived_erc_rules : list string) : result (list (string * Z)) :=
  let res := erc_results_pre_waived in
  dict_comprehension String.eqb (map fst res)
    (fun k => if str_in k globally_waived_erc_rules then Ok 0
              else dict_get String.eqb res k) [].

Definition signoff_results (erc_results_pre_waived : list (string * Z))
    (globally_waived_erc_rules : list string) (lvs_results : list string) : result Z :=
  rbind (erc_results erc_results_pre_waived globally_waived_erc_rules) (fun results =>
  Ok (sum (map snd results) + Z.of_nat (List.length lvs_results))).

End HammerLVSTool.

(** ** SRAM generation: [HammerSRAMGeneratorTool] *)

Module HammerSRAMGeneratorTool.

(** [functools.reduce(f, l)] without an initial value. *)
Definition reduce {A} (f : A -> A -> A) (l : list A) : result A :=
  match l with
  | [] => Err TypeError
  | x :: l' => Ok (fold_left f l' x)
  end.

Section Generator.
Variables SRAMParameters MMMCCorner ExtraLibrary : Type.

(** The abstract [generate_sram], which can raise. *)
Variable generate_sram : SRAMParameters -> MMMCCorner -> result ExtraLibrary.

(** The property [input_parameters] (lines 160-170) over the attribute
    [_input_parameters], which is [None] until it is set. *)
Definition input_parameters (_input_parameters : option (list SRAMParameters))
    : result (list SRAMParameters) :=
  match _input_parameters with
  | Some value => Ok value
  | None => Err (ValueError "Nothing set for the input sram parameters to be generated yet")
  end.

(** Lines 238-240. *)
Definition generate_all_srams (_input_parameters : option (list SRAMParameters))
    (corner : MMMCCorner) : result (list ExtraLibrary) :=
  rbind (input_parameters _input_parameters) (fun parameters =>
  map_r (fun p => generate_sram p corner) parameters).

(** Lines 230-236: the new value of [output_libraries] and the value
    returned. *)
Definition generate_all_srams_and_corners
    (_input_parameters : option (list SRAMParameters))
    (get_mmmc_corners : list MMMCCorner) : result (list ExtraLibrary * bool) :=
  rbind (map_r (generate_all_srams _input_parameters) get_mmmc_corners)
        (fun srams_corners =>
  rbind (if negb (List.length srams_corners =? 0)%nat
         then reduce (@app ExtraLibrary) srams_corners
         else Ok []) (fun output_libraries =>
  Ok (output_libraries, true))).

End Generator.

End HammerSRAMGeneratorTool.

(** ** Further examples *)

Module Examples.

(** The technology of [Fixture] with the standard cell rails on M3. *)
Definition high_rail_tool : Tool.t :=
  Tool.mk Fixture.stackup [] "M3" true None (Fixture.settings "default" 0 0.25%float).

(** Two power supplies and one ground. *)
Definition supplies : list Supply.t :=
  [Supply.mk "VDD" (Some 1); Supply.mk "VDDA" (Some 1)].

Definition par (method : string) (power_nets : list string)
    (power_supplies : list Supply.t) : Par.t :=
  Par.mk method ["M2"; "M3"] ["M3"] true power_nets "rail"
         [Supply.mk "VSS" None] power_supplies.

(** The binary64 values that Python reads for [0.4] and [0.3]. *)
Definition float_0_4 : float := 0x1.999999999999ap-2%float.
Definition float_0_3 : float := 0x1.3333333333333p-2%float.

(** The tool of [Fixture] with the given pattern, track spacing and power
    utilization on every layer (the track width is 3). *)
Definition tool_with (pattern : string) (track_spacing : Z) (power_utilization : float)
    : Tool.t :=
  Tool.mk Fixture.stackup [] "M1" true None
          (Fixture.settings pattern track_spacing power_utilization).

End Examples.

(** ** Notions used in the statements *)

(** The density warnings of a log, in order: layer and density. *)
Definition density_warnings (l : list log_event) : list (string * Q) :=
  flat_map (fun e => match e with
                     | DensityWarning layer density => [(layer, density)]
                     | _ => []
                     end) l.

(** A relation between the state before and after a method holds whatever
    the state and whether or not the method raises. *)
Definition preserves {A} (R : state -> state -> Prop) (m : M A) : Prop :=
  forall s, R s (snd (m s)).

Definition same_density_warnings (s s' : state) : Prop :=
  density_warnings (logger s') = density_warnings (logger s).

Definition same_records (s s' : state) : Prop :=
  _hardmacro_power_straps s' = _hardmacro_power_straps s.

(** No record is removed: the list only grows at its end. *)
Definition records_kept (s s' : state) : Prop :=
  exists added, _hardmacro_power_straps s' = (_hardmacro_power_straps s ++ added)%list.

(** The state after the given events are logged. *)
Definition logged (events : list log_event) (s : state) : state :=
  mkState (logger s ++ events)%list (_hardmacro_power_straps s) (power_straps_json s).

(** The layers named by [layer_names] exist, and each has a higher index
    than, and another direction than, the layer before it ([last] for the
    first one). *)
Fixpoint built_bottom_up (st : Stackup.t) (last : Metal.t) (layer_names : list string)
    : bool :=
  match layer_names with
  | [] => true
  | layer_name :: rest =>
      match Stackup.get_metal st layer_name with
      | Ok layer =>
          (Metal.index last <? Metal.index layer)
          && negb (RoutingDirection_eqb (Metal.direction last) (Metal.direction layer))
          && built_bottom_up st layer rest
      | Err _ => false
      end
  end.

(** The count kept for [x] in a counter. *)
Fixpoint counted (c : list (Z * nat)) (x : Z) : nat :=
  match c with
  | [] => O
  | (y, n) :: c' => if x =? y then n else counted c' x
  end.

(** Occurrences of [x] in [l]. *)
Definition occurrences (x : Z) (l : list Z) : nat :=
  List.length (filter (Z.eqb x) l).

(** An obstruction with both extents given. *)
Definition has_extent (po : PlacementConstraint.t) : Prop :=
  PlacementConstraint.width po <> None /\ PlacementConstraint.height po <> None.

(** What a record appended by one call of the recorder carries: the layer
    and nets of the call, a direction that is vertical or horizontal, and
    the geometry of the group in grid units. *)
Definition recorded_for (layer_name : string) (layer : Metal.t) (nets : list string)
    (pitch width spacing dbu : Q) (r : StrapRecord.t) : Prop :=
  StrapRecord.layer r = layer_name
  /\ StrapRecord.direction r = Metal.direction layer
  /\ StrapRecord.direction r <> Redistribution
  /\ StrapRecord.net_order r = nets
  /\ StrapRecord.width r = decimal_to_int (width / dbu)
  /\ StrapRecord.spacing r = decimal_to_int (spacing / dbu)
  /\ StrapRecord.group_pitch r = decimal_to_int (pitch / dbu).

(** The record is that of the given placement constraint. *)
Definition record_of_macro (macro : PlacementConstraint.t) (r : StrapRecord.t) : Prop :=
  PlacementConstraint.master macro = Some (StrapRecord.master r)
  /\ PlacementConstraint.top_layer macro = Some (StrapRecord.top_layer r)
  /\ StrapRecord.path r = PlacementConstraint.path macro.

(** The tests of lines 862-876, one of which sends the recorder to the next
    instance. *)
Definition skipped_as_ineligible (self : Tool.t) (layer : Metal.t)
    (macro : PlacementConstraint.t) : Prop :=
  PlacementConstraint.master macro = None
  \/ (exists master macros,
        PlacementConstraint.master macro = Some master
        /\ Tool.power_straps_abutment_macros self = Some macros
        /\ str_in master macros = false)
  \/ PlacementConstraint.create_physical macro = Some true
  \/ PlacementConstraint.top_layer macro = None
  \/ (exists top_layer top,
        PlacementConstraint.top_layer macro = Some top_layer
        /\ Stackup.get_metal (Tool.get_stackup self) top_layer = Ok top
        /\ (Metal.index layer < Metal.index top
            \/ Metal.index top + 1 < Metal.index layer)).

(** The instance paths of a report entry: those of its first descriptor,
    the one of the top layer. *)
Definition entry_paths (e : string * list Desc.t) : list string :=
  match snd e with
  | d :: _ => Desc.inst_paths d
  | [] => []
  end.

(** No record on its top layer has the redistribution direction. *)
Definition routable_records (records : list StrapRecord.t) : Prop :=
  Forall (fun m => StrapRecord.direction m <> Redistribution) records.

(** The predicate [p] holds, without raising. *)
Definition holds {A} (p : A -> result bool) (x : A) : bool :=
  match p x with
  | Ok true => true
  | _ => false
  end.

Definition same_report (s s' : state) : Prop :=
  power_straps_json s' = power_straps_json s.

(** A strap command as a generation over [layer_names] emits it: on one of
    the layers, with a positive width and spacing, for the ground net and
    one power net; the rail command is for the ground net and all power
    nets. *)
Definition emitted_for (layer_names : list string) (ground_net : string)
    (power_nets : list string) (bbox : option (list Q)) (c : command) : Prop :=
  match c with
  | specify_power_straps layer_name _ _ _ width spacing _ bbox' nets _ _ =>
      In layer_name layer_names
      /\ (0 < width)%Q /\ (0 < spacing)%Q
      /\ bbox' = bbox
      /\ exists power_net, In power_net power_nets /\ nets = [ground_net; power_net]
  | specify_std_cell_power_straps _ bbox' nets =>
      bbox' = bbox /\ nets = ground_net :: power_nets
  end.

(** Records were only appended, none of the redistribution direction. *)
Definition routable_appended (s s' : state) : Prop :=
  exists added,
    _hardmacro_power_straps s' = (_hardmacro_power_straps s ++ added)%list
    /\ routable_records added.

(** A call of the strap emitter for the given layer. *)
Definition strap_on (layer_name : string) (c : command) : Prop :=
  match c with
  | specify_power_straps layer_name' _ _ _ _ _ _ _ _ _ _ => layer_name' = layer_name
  | specify_std_cell_power_straps _ _ _ => False
  end.

(** The supply is one of those that the generator stripes: all independent
    power nets, or those named by the setting [power_nets] when it is not
    empty. *)
Definition striped (par : Par.t) (supply : Supply.t) : Prop :=
  In supply (Par.get_independent_power_nets par)
  /\ (Par.power_nets par = [] \/ In (Supply.name supply) (Par.power_nets par)).

(** The count that is left of a rule after the waivers. *)
Definition after_waivers (waived : list string) (rule : string * Z) (rule' : string * Z)
    : Prop :=
  fst rule' = fst rule
  /\ snd rule' = if str_in (fst rule) waived then 0 else snd rule.

(** Every rule that was violated is waived. *)
Definition violations_waived (res : list (string * Z)) (waived : list string) : Prop :=
  forall k v, In (k, v) res -> v <> 0 -> In k waived.

(** [y] is the value of at most 28 significant digits nearest to [x], the
    one with the even coefficient of the two when [x] lies halfway. *)
Definition nearest_in_context (x y : Q) : Prop :=
  (x == 0 /\ y == 0)%Q
  \/ exists c k,
       (y == inject_Z c * 10 ^ (- k))%Q
       /\ 10 ^ 27 <= Z.abs c <= 10 ^ 28
       /\ (Qabs (inject_Z c - x * 10 ^ k) <= 1 # 2)%Q
       /\ ((Qabs (inject_Z c - x * 10 ^ k) == 1 # 2)%Q -> Z.even c = true).

(** The value has at most [decimal_prec] significant digits: the context
    leaves it as it is. *)
Definition exact_in_context (x : Q) : Prop := (decimal_round x == x)%Q.

(** The rational value of a finite [float]. *)
Definition float_value (x : float) : option Q :=
  match Prim2SF x with
  | S754_zero _ => Some 0%Q
  | S754_finite s m e =>
      let a := if 0 <=? e then inject_Z (Z.pos m * 2 ^ e)
               else Qmake (Z.pos m) (Z.to_pos (2 ^ (- e))) in
      Some (if s then - a else a)%Q
  | _ => None
  end.

(** The strap call of position [i] of a period on a layer, as the group
    pitch in tracks [track_pitch] fixes it: the pitch of the group, whether
    the layer is all power, the width, spacing and start resolved at that
    pitch, and the offset of the position. *)
Definition strap_from_track_pitch (self : Tool.t) (layer_name : string)
    (layer last : Metal.t) (track_pitch : Z) (ground_net : string)
    (power_nets : list string) (power_weights : list Z) (bbox : option (list Q))
    (pin_layers : list string) (i : nat) (c : command) : Prop :=
  let bt := Tool.by_tracks self layer_name in
  let pitch := (inject_Z (sum power_weights * track_pitch) * Metal.pitch layer)%Q in
  let '(width, spacing, strap_start) :=
    by_tracks_width_spacing_start layer pitch (ByTracks.track_width bt)
      (ByTracks.track_spacing bt) (2 * ByTracks.track_width bt =? track_pitch)
      (ByTracks.pattern bt) in
  exists power_net,
    nth_error power_nets i = Some power_net
    /\ c = specify_power_straps layer_name (Metal.name last)
             (ByTracks.blockage_spacing bt) pitch width spacing
             (Metal.offset layer + ByTracks.track_offset bt
              + inject_Z (track_pitch * Z.of_nat i) * Metal.pitch layer
              + inject_Z (ByTracks.track_start bt) * Metal.pitch layer + strap_start)%Q
             bbox [ground_net; power_net] (str_in layer_name pin_layers)
             (ByTracks.antenna_trim_shape bt).

(** [l] is [l'] with some of its elements left out, the others in the order
    of [l']. *)
Inductive subseq {A : Type} : list A -> list A -> Prop :=
| subseq_nil : subseq [] []
| subseq_skip x l l' : subseq l l' -> subseq l (x :: l')
| subseq_take x l l' : subseq l l' -> subseq (x :: l) (x :: l').

(** ** The state monad *)

Open Scope list_scope.

Lemma bind_run {A B} (m : M A) (k : A -> M B) (s : state) :
  bind m k s = match m s with
               | (Ok a, s') => k a s'
               | (Err e, s') => (Err e, s')
               end.
Proof. reflexivity. Qed.

Lemma bind_ok_inv {A B} (m : M A) (k : A -> M B) s b s' :
  bind m k s = (Ok b, s') ->
  exists a s1, m s = (Ok a, s1) /\ k a s1 = (Ok b, s').
Proof.
  unfold bind. destruct (m s) as [[a|e] s1]; intros H.
  - exists a, s1. split; [reflexivity | exact H].
  - discriminate H.
Qed.

Lemma bind_err {A B} (m : M A) (k : A -> M B) s e s' :
  m s = (Err e, s') -> bind m k s = (Err e, s').
Proof. intros H. unfold bind. rewrite H. reflexivity. Qed.

Lemma bind_err_later {A B} (m : M A) (k : A -> M B) s :
  (forall a s1, exists e s2, k a s1 = (Err e, s2)) ->
  exists e s2, bind m k s = (Err e, s2).
Proof.
  intros Hk. unfold bind. destruct (m s) as [[a|e] s1].
  - apply Hk.
  - exists e, s1. reflexivity.
Qed.

Section Preservation.

Variable R : state -> state -> Prop.
Hypothesis R_refl : forall s, R s s.
Hypothesis R_trans : forall a b c, R a b -> R b c -> R a c.

Lemma preserves_ret {A} (a : A) : preserves R (ret a).
Proof. intros s. apply R_refl. Qed.

Lemma preserves_raise {A} (e : exn) : preserves R (@raise A e).
Proof. intros s. apply R_refl. Qed.

Lemma preserves_lift {A} (r : result A) : preserves R (lift r).
Proof. intros s. apply R_refl. Qed.

Lemma preserves_bind {A B} (m : M A) (k : A -> M B) :
  preserves R m -> (forall a, preserves R (k a)) -> preserves R (bind m k).
Proof.
  intros Hm Hk s. unfold bind. specialize (Hm s).
  destruct (m s) as [[a|e] s1]; simpl in *.
  - eapply R_trans; [exact Hm | apply Hk].
  - exact Hm.
Qed.

Lemma preserves_when (b : bool) (m : M unit) :
  preserves R m -> preserves R (when b m).
Proof. intros Hm. destruct b; [exact Hm | apply preserves_ret]. Qed.

Lemma preserves_for_each {A} (xs : list A) (body : A -> M unit) :
  (forall x, preserves R (body x)) -> preserves R (for_each xs body).
Proof.
  intros Hb. induction xs as [|x xs IH]; simpl.
  - apply preserves_ret.
  - apply preserves_bind; [apply Hb | intros _; exact IH].
Qed.

Lemma preserves_for_acc {A B} (xs : list A) (body : B -> A -> M B) :
  (forall acc x, preserves R (body acc x)) ->
  forall acc, preserves R (for_acc xs acc body).
Proof.
  intros Hb. induction xs as [|x xs IH]; intros acc; simpl.
  - apply preserves_ret.
  - apply preserves_bind; [apply Hb | intros acc'; apply IH].
Qed.

End Preservation.

Lemma same_density_warnings_refl s : same_density_warnings s s.
Proof. reflexivity. Qed.

Lemma same_density_warnings_trans a b c :
  same_density_warnings a b -> same_density_warnings b c -> same_density_warnings a c.
Proof. unfold same_density_warnings. intros H1 H2. rewrite H2. exact H1. Qed.

Lemma same_records_refl s : same_records s s.
Proof. reflexivity. Qed.

Lemma same_records_trans a b c :
  same_records a b -> same_records b c -> same_records a c.
Proof. unfold same_records. intros H1 H2. rewrite H2. exact H1. Qed.

Lemma density_warnings_app l1 l2 :
  density_warnings (l1 ++ l2) = density_warnings l1 ++ density_warnings l2.
Proof. unfold density_warnings. apply flat_map_app. Qed.

Lemma log_same_density e :
  density_warnings [e] = [] -> preserves same_density_warnings (log e).
Proof.
  intros He s. unfold same_density_warnings, log. simpl.
  rewrite density_warnings_app, He, app_nil_r. reflexivity.
Qed.

Lemma append_record_same_density r : preserves same_density_warnings (append_record r).
Proof. intros s. reflexivity. Qed.

(** Preservation goals are closed by following the structure of the method;
    [refl] and [trans] are the two facts about the relation, [prims] solves
    the primitive steps. *)
Ltac pres_with refl trans prims :=
  repeat first
    [ apply (preserves_ret _ refl)
    | apply (preserves_raise _ refl)
    | apply (preserves_lift _ refl)
    | prims
    | apply (preserves_when _ refl)
    | apply (preserves_for_each _ refl trans); intros ?
    | apply (preserves_for_acc _ refl trans); intros ? ?
    | apply (preserves_bind _ trans); [ | intros ? ] ].

Ltac pres_density :=
  pres_with same_density_warnings_refl same_density_warnings_trans
    ltac:(first [ apply append_record_same_density
                | apply log_same_density; reflexivity ]).

(** The recorder, step by step; [tac] closes the primitive steps. *)
Ltac obstructions_pres refl trans tac :=
  unfold check_obstructions;
  destruct (rotated (lower _));
  apply (preserves_for_each _ refl trans);
  intros po;
  destruct (PlacementConstraint.width po), (PlacementConstraint.height po);
  tac.

Ltac hardmacro_body_pres refl trans tac :=
  unfold hardmacro_body;
  match goal with |- preserves _ (match ?m with _ => _ end) => destruct m as [master|] end;
  [ | tac];
  match goal with |- preserves _ (if ?c then _ else _) => destruct c end; [tac | ];
  match goal with |- preserves _ (if ?c then _ else _) => destruct c end; [tac | ];
  match goal with |- preserves _ (match ?m with _ => _ end) => destruct m as [top_layer|] end;
  [ | tac];
  apply (preserves_bind _ trans); [tac | intros top];
  match goal with |- preserves _ (if ?c then _ else _) => destruct c end; [tac | ];
  apply (preserves_bind _ trans); [tac | intros [|]]; [tac | ];
  apply (preserves_bind _ trans);
  [ match goal with |- preserves _ (if ?c then _ else _) => destruct c end; [ | tac];
    match goal with
    | |- preserves _ (match ?w with _ => _ end) =>
        destruct w; [ | tac];
        match goal with
        | |- preserves _ (match ?h with _ => _ end) => destruct h; [ | tac]
        end
    end;
    obstructions_pres refl trans tac
  | intros _;
    match goal with |- preserves _ (match ?d with _ => _ end) => destruct d end;
    tac;
    match goal with |- preserves _ (if ?c then _ else _) => destruct c end; tac ].

Lemma hardmacro_body_same_density self layer_name layer dbu check_abut pwr_obs
    pitch width spacing offset bbox nets macro :
  preserves same_density_warnings
    (hardmacro_body self layer_name layer dbu check_abut pwr_obs
                    pitch width spacing offset bbox nets macro).
Proof.
  hardmacro_body_pres same_density_warnings_refl same_density_warnings_trans
    ltac:(pres_density).
Qed.

Lemma recorder_same_density self layer_name pitch width spacing offset bbox nets :
  preserves same_density_warnings
    (_get_power_straps_for_hardmacros self layer_name pitch width spacing offset bbox nets).
Proof.
  unfold _get_power_straps_for_hardmacros.
  apply (preserves_bind _ same_density_warnings_trans); [pres_density | intros layer].
  apply (preserves_for_each _ same_density_warnings_refl same_density_warnings_trans).
  intros macro. apply hardmacro_body_same_density.
Qed.

(** ** The converter *)

Lemma Qgtb_true_iff a b : Qgtb a b = true <-> (b < a)%Q.
Proof.
  unfold Qgtb. rewrite negb_true_iff. split; intros H.
  - apply Qnot_le_lt. intros Hle. apply Qle_bool_iff in Hle. congruence.
  - destruct (Qle_bool a b) eqn:E; [ | reflexivity].
    apply Qle_bool_iff in E. exfalso. exact (Qlt_not_le _ _ H E).
Qed.

Lemma Qgtb_false_iff a b : Qgtb a b = false <-> (a <= b)%Q.
Proof.
  unfold Qgtb. rewrite negb_false_iff. apply Qle_bool_iff.
Qed.

Lemma Qeqb_false_iff a b : Qeqb a b = false <-> ~ (a == b)%Q.
Proof.
  unfold Qeqb. split; intros H.
  - intros E. apply Qeq_bool_iff in E. congruence.
  - destruct (Qeq_bool a b) eqn:E; [ | reflexivity].
    apply Qeq_bool_iff in E. contradiction.
Qed.

(** What the converter hands to [specify_power_straps] when it returns. *)
Lemma converter_returns self layer_name bottom_via_layer blockage_spacing
    track_pitch track_width track_spacing track_start track_offset bbox nets
    add_pins layer_is_all_power antenna_trim_shape pattern layer width spacing
    strap_start s cmds s' :
  Stackup.get_metal (Tool.get_stackup self) layer_name = Ok layer ->
  by_tracks_width_spacing_start layer (inject_Z track_pitch * Metal.pitch layer)%Q
    track_width track_spacing layer_is_all_power pattern = (width, spacing, strap_start) ->
  specify_power_straps_by_tracks self layer_name bottom_via_layer blockage_spacing
    track_pitch track_width track_spacing track_start track_offset bbox nets
    add_pins layer_is_all_power antenna_trim_shape pattern s = (Ok cmds, s') ->
  cmds = [specify_power_straps layer_name bottom_via_layer blockage_spacing
            (inject_Z track_pitch * Metal.pitch layer)%Q width spacing
            (track_offset + inject_Z track_start * Metal.pitch layer + strap_start)%Q
            bbox nets add_pins antenna_trim_shape]
  /\ (0 < width)%Q /\ (0 < spacing)%Q.
Proof.
  intros Hlayer Hgeom Hrun.
  unfold specify_power_straps_by_tracks in Hrun.
  rewrite Hlayer in Hrun. rewrite bind_run in Hrun. unfold lift at 1 in Hrun.
  rewrite Hgeom in Hrun.
  apply bind_ok_inv in Hrun. destruct Hrun as ([] & s1 & Hw & Hrun).
  apply bind_ok_inv in Hrun. destruct Hrun as ([] & s2 & Hsp & Hrun).
  apply bind_ok_inv in Hrun. destruct Hrun as (density & s3 & _ & Hrun).
  apply bind_ok_inv in Hrun. destruct Hrun as ([] & s4 & _ & Hrun).
  apply bind_ok_inv in Hrun. destruct Hrun as ([] & s5 & _ & Hrun).
  unfold ret in Hrun. injection Hrun as <- _.
  unfold lift, py_assert in Hw, Hsp.
  destruct (Qgtb width 0) eqn:Ew; [ | discriminate Hw].
  destruct (Qgtb spacing 0) eqn:Es; [ | discriminate Hsp].
  apply Qgtb_true_iff in Ew. apply Qgtb_true_iff in Es.
  repeat split; assumption.
Qed.

(** C7: with a positive track spacing, or under the mesh pattern (which sets
    the track spacing to 1 for sizing), width, solver spacing and start come
    from the TWT solver, and the spacing handed on is
    [2*solver_spacing + (track_spacing - 1)*layer.pitch + layer.min_width],
    or [pitch/2 - width] under mesh, with [pitch = track_pitch * layer.pitch]. *)
Theorem twt_spacing_resolved self layer_name bottom_via_layer blockage_spacing
    track_pitch track_width track_spacing track_start track_offset bbox nets
    add_pins layer_is_all_power antenna_trim_shape pattern layer width
    solver_spacing strap_start s cmds s' :
  Stackup.get_metal (Tool.get_stackup self) layer_name = Ok layer ->
  0 < track_spacing \/ pattern = "mesh"%string ->
  Metal.get_width_spacing_start_twt layer track_width = (width, solver_spacing, strap_start) ->
  specify_power_straps_by_tracks self layer_name bottom_via_layer blockage_spacing
    track_pitch track_width track_spacing track_start track_offset bbox nets
    add_pins layer_is_all_power antenna_trim_shape pattern s = (Ok cmds, s') ->
  let pitch := (inject_Z track_pitch * Metal.pitch layer)%Q in
  let spacing :=
    if String.eqb pattern "mesh" then (pitch / 2 - width)%Q
    else (2 * solver_spacing + inject_Z (track_spacing - 1) * Metal.pitch layer
          + Metal.min_width layer)%Q in
  sizing_track_spacing pattern track_spacing > 0
  /\ cmds = [specify_power_straps layer_name bottom_via_layer blockage_spacing
               pitch width spacing
               (track_offset + inject_Z track_start * Metal.pitch layer + strap_start)%Q
               bbox nets add_pins antenna_trim_shape].
Proof.
  intros Hlayer Hts Htwt Hrun pitch spacing.
  assert (Hsz : sizing_track_spacing pattern track_spacing > 0).
  { unfold sizing_track_spacing. destruct (String.eqb pattern "mesh") eqn:E; [lia | ].
    destruct Hts as [H | H]; [lia | ]. subst pattern. discriminate E. }
  split; [exact Hsz | ].
  assert (Hgeom :
    by_tracks_width_spacing_start layer pitch track_width track_spacing
      layer_is_all_power pattern = (width, spacing, strap_start)).
  { unfold by_tracks_width_spacing_start.
    destruct (sizing_track_spacing pattern track_spacing =? 0) eqn:E0; [lia | ].
    rewrite Htwt. unfold spacing, sizing_track_spacing.
    destruct (String.eqb pattern "mesh"); reflexivity. }
  destruct (converter_returns _ _ _ _ _ _ _ _ _ _ _ _ _ _ _ _ _ _ _ _ _ _
              Hlayer Hgeom Hrun) as (Hcmds & _ & _).
  exact Hcmds.
Qed.

Lemma twt_spacing_resolved_witness :
  0 < 2 /\
  specify_power_straps_by_tracks (Fixture.tool [] true) "M2" "M1" 0 24 3 2 0 0 None
    ["VSS"; "VDD"]%string false false "none" "default" Fixture.s0
  = (Ok [specify_power_straps "M2" "M1" 0 (inject_Z 24 * 1)%Q (inject_Z 3)
           (2 * 1 + inject_Z (2 - 1) * 1 + (1 # 10))%Q (0 + inject_Z 0 * 1 + 0)%Q None
           ["VSS"; "VDD"]%string false "none"], Fixture.s0).
Proof.
  split; [lia | ].
  assert (Hrun :
    exists cmds, specify_power_straps_by_tracks (Fixture.tool [] true) "M2" "M1" 0 24 3 2 0 0
                   None ["VSS"; "VDD"]%string false false "none" "default" Fixture.s0
                 = (Ok cmds, Fixture.s0)).
  { eexists. vm_compute. reflexivity. }
  destruct Hrun as (cmds & Hrun). rewrite Hrun.
  destruct (twt_spacing_resolved (Fixture.tool [] true) "M2" "M1" 0 24 3 2 0 0 None
              ["VSS"; "VDD"]%string false false "none" "default" Fixture.M2
              (inject_Z 3) 1%Q 0%Q Fixture.s0 cmds Fixture.s0
              eq_refl (or_introl eq_refl) eq_refl Hrun) as (_ & Hcmds).
  rewrite Hcmds. reflexivity.
Defined.

(** C8: with a sizing track spacing of 0 on an all-power layer, and a
    max-width solver whose spacing and width add up to the pitch it is given,
    the width and spacing handed on add up to one strap pitch,
    [track_width * layer.pitch]. *)
Theorem all_power_fills_strap_pitch self layer_name bottom_via_layer blockage_spacing
    track_pitch track_width track_spacing track_start track_offset bbox nets
    add_pins antenna_trim_shape pattern layer s cmds s' :
  Stackup.get_metal (Tool.get_stackup self) layer_name = Ok layer ->
  sizing_track_spacing pattern track_spacing = 0 ->
  (let one_strap_pitch := (inject_Z track_width * Metal.pitch layer)%Q in
   fst (Metal.min_spacing_and_max_width_from_pitch layer one_strap_pitch)
   + snd (Metal.min_spacing_and_max_width_from_pitch layer one_strap_pitch)
   == one_strap_pitch)%Q ->
  specify_power_straps_by_tracks self layer_name bottom_via_layer blockage_spacing
    track_pitch track_width track_spacing track_start track_offset bbox nets
    add_pins true antenna_trim_shape pattern s = (Ok cmds, s') ->
  exists width spacing offset,
    cmds = [specify_power_straps layer_name bottom_via_layer blockage_spacing
              (inject_Z track_pitch * Metal.pitch layer)%Q width spacing offset
              bbox nets add_pins antenna_trim_shape]
    /\ (width + spacing == inject_Z track_width * Metal.pitch layer)%Q
    /\ (0 < width)%Q /\ (0 < spacing)%Q.
Proof.
  intros Hlayer Hts Hsolver Hrun. cbv zeta in Hsolver.
  destruct (Metal.min_spacing_and_max_width_from_pitch layer
              (inject_Z track_width * Metal.pitch layer)%Q) as [spacing width] eqn:Esolver.
  simpl in Hsolver.
  assert (Hgeom :
    by_tracks_width_spacing_start layer (inject_Z track_pitch * Metal.pitch layer)%Q
      track_width track_spacing true pattern
    = (width, spacing, (spacing / 2 + Metal.offset layer)%Q)).
  { unfold by_tracks_width_spacing_start. rewrite Hts. simpl.
    rewrite Esolver. reflexivity. }
  destruct (converter_returns _ _ _ _ _ _ _ _ _ _ _ _ _ _ _ _ _ _ _ _ _ _
              Hlayer Hgeom Hrun) as (Hcmds & Hw & Hs).
  exists width, spacing,
    (track_offset + inject_Z track_start * Metal.pitch layer
     + (spacing / 2 + Metal.offset layer))%Q.
  repeat split; try assumption.
  rewrite Qplus_comm. exact Hsolver.
Qed.

Lemma all_power_fills_strap_pitch_witness :
  exists width spacing offset,
    specify_power_straps_by_tracks (Fixture.tool [] true) "M2" "M1" 0 8 4 0 0 0 None
      ["VSS"; "VDD"]%string false true "none" "default" Fixture.s0
    = (Ok [specify_power_straps "M2" "M1" 0 (inject_Z 8 * 1)%Q width spacing offset None
             ["VSS"; "VDD"]%string false "none"], Fixture.s0)
    /\ (width + spacing == 4)%Q.
Proof.
  assert (Hrun :
    exists cmds, specify_power_straps_by_tracks (Fixture.tool [] true) "M2" "M1" 0 8 4 0 0 0
                   None ["VSS"; "VDD"]%string false true "none" "default" Fixture.s0
                 = (Ok cmds, Fixture.s0)).
  { eexists. vm_compute. reflexivity. }
  destruct Hrun as (cmds & Hrun).
  destruct (all_power_fills_strap_pitch (Fixture.tool [] true) "M2" "M1" 0 8 4 0 0 0 None
              ["VSS"; "VDD"]%string false "none" "default" Fixture.M2
              Fixture.s0 cmds Fixture.s0 eq_refl eq_refl eq_refl Hrun)
    as (width & spacing & offset & Hcmds & Hsum & _ & _).
  exists width, spacing, offset. split.
  - rewrite Hrun, Hcmds. reflexivity.
  - rewrite Hsum. reflexivity.
Defined.

(** *** The arithmetic context: rounding to 28 significant digits *)

Lemma digits10_fuel_spec fuel : forall n,
  1 <= n -> Z.log2 n <= Z.of_nat fuel ->
  1 <= digits10_fuel fuel n
  /\ 10 ^ (digits10_fuel fuel n - 1) <= n < 10 ^ digits10_fuel fuel n.
Proof.
  induction fuel as [|fuel IH]; intros n Hn Hlog; cbn [digits10_fuel].
  - assert (n = 1).
    { destruct (Z.eq_dec n 1) as [E | E]; [exact E | ].
      assert (1 <= Z.log2 n) by (change 1 with (Z.log2 2) at 1; apply Z.log2_le_mono; lia).
      lia. }
    subst n. cbn. lia.
  - destruct (n <? 10) eqn:E.
    + apply Z.ltb_lt in E. cbn. lia.
    + apply Z.ltb_ge in E.
      assert (Hq : 1 <= n / 10) by (apply Z.div_le_lower_bound; lia).
      assert (Hlog' : Z.log2 (n / 10) <= Z.of_nat fuel).
      { assert (Z.log2 (2 * (n / 10)) <= Z.log2 n).
        { apply Z.log2_le_mono. pose proof (Z.mul_div_le n 10 ltac:(lia)). lia. }
        rewrite Z.log2_double in H by lia. lia. }
      destruct (IH (n / 10) Hq Hlog') as (HD & Hlo & Hhi).
      set (D := digits10_fuel fuel (n / 10)) in *.
      split; [lia | ].
      replace (1 + D - 1) with (Z.succ (D - 1)) by lia.
      replace (1 + D) with (Z.succ D) by lia.
      rewrite !Z.pow_succ_r by lia.
      pose proof (Z.div_mod n 10 ltac:(lia)) as Hdm.
      pose proof (Z.mod_pos_bound n 10 ltac:(lia)) as Hr.
      lia.
Qed.

Lemma digits10_spec n :
  1 <= n -> 1 <= digits10 n /\ 10 ^ (digits10 n - 1) <= n < 10 ^ digits10 n.
Proof.
  intros Hn. unfold digits10. apply digits10_fuel_spec; [exact Hn | ].
  rewrite Z2Nat.id; [lia | apply Z.log2_nonneg].
Qed.

Open Scope Q_scope.

Lemma ten_neq_0 : ~ 10 == 0.
Proof. discriminate. Qed.

Lemma pow10_pos e : 0 < 10 ^ e.
Proof. apply Qpower_0_lt. reflexivity. Qed.

Lemma pow10_inject e : (0 <= e)%Z -> inject_Z (10 ^ e) == 10 ^ e.
Proof. intros H. apply (Zpower_Qpower 10 e H). Qed.

Lemma pow10_plus a b : 10 ^ (a + b) == 10 ^ a * 10 ^ b.
Proof. apply Qpower_plus. exact ten_neq_0. Qed.

Lemma pow10_opp a : 10 ^ (- a) == / 10 ^ a.
Proof. apply Qpower_opp. Qed.

Lemma pow10_le a b : (a <= b)%Z -> 10 ^ a <= 10 ^ b.
Proof. intros H. apply Qpower_le_compat_l; [exact H | discriminate]. Qed.

Lemma pow10_succ a : 10 ^ (a + 1) == 10 * 10 ^ a.
Proof. rewrite pow10_plus. change (10 ^ 1) with 10. ring. Qed.

Lemma digits10_Q n :
  (1 <= n)%Z -> 10 ^ (digits10 n - 1) <= inject_Z n /\ inject_Z n < 10 ^ digits10 n.
Proof.
  intros Hn. destruct (digits10_spec n Hn) as (HD & Hlo & Hhi).
  rewrite <- !pow10_inject by lia. rewrite <- Zle_Qle, <- Zlt_Qlt. split; assumption.
Qed.

Lemma round_half_even_div_spec n d :
  (0 < d)%Z ->
  (2 * Z.abs (round_half_even_div n d * d - n) <= d)%Z
  /\ ((2 * Z.abs (round_half_even_div n d * d - n) = d)%Z ->
      Z.even (round_half_even_div n d) = true).
Proof.
  intros Hd. unfold round_half_even_div.
  pose proof (Z.div_mod n d ltac:(lia)) as Hdm.
  pose proof (Z.mod_pos_bound n d Hd) as Hr.
  set (q := (n / d)%Z) in *. set (r := (n mod d)%Z) in *.
  destruct (2 * r <? d)%Z eqn:E1; [apply Z.ltb_lt in E1; split; nia | apply Z.ltb_ge in E1].
  destruct (d <? 2 * r)%Z eqn:E2; [apply Z.ltb_lt in E2; split; nia | apply Z.ltb_ge in E2].
  destruct (Z.even q) eqn:E; split; try nia.
  - intros _. exact E.
  - intros _. rewrite Z.even_add, E. reflexivity.
Qed.

Lemma ilog10_spec p d :
  (1 <= p)%Z -> (1 <= d)%Z ->
  10 ^ ilog10 p d * inject_Z d <= inject_Z p
  /\ inject_Z p < 10 ^ (ilog10 p d + 1) * inject_Z d.
Proof.
  intros Hp Hd.
  destruct (digits10_Q p Hp) as (Hplo & Hphi).
  destruct (digits10_Q d Hd) as (Hdlo & Hdhi).
  assert (Hdpos : 0 < inject_Z d) by (rewrite <- (Zlt_Qlt 0); lia).
  unfold ilog10. set (t := (digits10 p - digits10 d)%Z).
  assert (Hlow : 10 ^ (t - 1) * inject_Z d <= inject_Z p).
  { apply Qle_trans with (10 ^ (digits10 p - 1)); [ | exact Hplo].
    replace (digits10 p - 1)%Z with ((t - 1) + digits10 d)%Z by (unfold t; lia).
    rewrite pow10_plus. apply Qmult_le_l; [apply pow10_pos | ].
    apply Qlt_le_weak. exact Hdhi. }
  assert (Hhigh : inject_Z p < 10 ^ (t + 1) * inject_Z d).
  { apply Qlt_le_trans with (10 ^ digits10 p); [exact Hphi | ].
    replace (digits10 p) with ((t + 1) + (digits10 d - 1))%Z at 1 by (unfold t; lia).
    rewrite pow10_plus. apply Qmult_le_l; [apply pow10_pos | ]. exact Hdlo. }
  assert (Htest : (if (0 <=? t)%Z then (10 ^ t * d <=? p)%Z else (d <=? p * 10 ^ (- t))%Z)
                  = true <-> 10 ^ t * inject_Z d <= inject_Z p).
  { destruct (0 <=? t)%Z eqn:Et.
    - apply Z.leb_le in Et. rewrite Z.leb_le, Zle_Qle, inject_Z_mult, pow10_inject by lia.
      reflexivity.
    - apply Z.leb_gt in Et. rewrite Z.leb_le, Zle_Qle, inject_Z_mult, pow10_inject by lia.
      assert (E : 10 ^ t * 10 ^ (- t) == 1).
      { rewrite <- pow10_plus. replace (t + - t)%Z with 0%Z by lia. reflexivity. }
      pose proof (pow10_pos t) as H1. pose proof (pow10_pos (- t)) as H2.
      split; intros H.
      + apply (Qmult_le_l _ _ (10 ^ (- t))); [exact H2 | ].
        rewrite Qmult_assoc, (Qmult_comm (10 ^ (- t)) (10 ^ t)), E, Qmult_1_l.
        rewrite Qmult_comm. exact H.
      + apply (Qmult_le_l _ _ (10 ^ t)); [exact H1 | ].
        rewrite (Qmult_comm (inject_Z p)), Qmult_assoc, E, Qmult_1_l. exact H. }
  destruct (if (0 <=? t)%Z then (10 ^ t * d <=? p)%Z else (d <=? p * 10 ^ (- t))%Z) eqn:Eb.
  - split; [apply Htest; reflexivity | exact Hhigh].
  - split; [exact Hlow | ].
    replace (t - 1 + 1)%Z with t by lia.
    apply Qnot_le_lt. intros H. apply Htest in H. discriminate H.
Qed.

(** The coefficient: the integer nearest to [X = N / D], ties to even, when
    [X] has 28 digits before the point. *)
Lemma coefficient_spec N D X :
  (0 < D)%Z ->
  X == inject_Z N / inject_Z D ->
  10 ^ 27 <= X -> X < 10 ^ 28 ->
  let c := round_half_even_div N D in
  (10 ^ 27 <= c <= 10 ^ 28)%Z
  /\ Qabs (inject_Z c - X) <= 1 # 2
  /\ (Qabs (inject_Z c - X) == 1 # 2 -> Z.even c = true).
Proof.
  intros HD HX Hlo Hhi c.
  destruct (round_half_even_div_spec N D HD) as (Hnear & Htie). fold c in Hnear, Htie.
  assert (HDq : 0 < inject_Z D) by (rewrite <- (Zlt_Qlt 0); exact HD).
  assert (HDne : ~ inject_Z D == 0) by (intros E; rewrite E in HDq; discriminate HDq).
  assert (HN : X * inject_Z D == inject_Z N).
  { rewrite HX. field. exact HDne. }
  assert (HloZ : (10 ^ 27 * D <= N)%Z).
  { rewrite Zle_Qle, inject_Z_mult, pow10_inject by lia. rewrite <- HN.
    apply Qmult_le_r; [exact HDq | exact Hlo]. }
  assert (HhiZ : (N < 10 ^ 28 * D)%Z).
  { rewrite Zlt_Qlt, inject_Z_mult, pow10_inject by lia. rewrite <- HN.
    apply Qmult_lt_r; [exact HDq | exact Hhi]. }
  set (z := (c * D - N)%Z) in *.
  assert (Hdiff : inject_Z c - X == inject_Z z / inject_Z D).
  { unfold z. rewrite HX. unfold Zminus. rewrite inject_Z_plus, inject_Z_mult, inject_Z_opp.
    field. exact HDne. }
  split; [ | split].
  - split; nia.
  - rewrite Hdiff. apply Qabs_Qle_condition.
    assert (H1 : inject_Z (- D) <= inject_Z (2 * z)) by (rewrite <- Zle_Qle; lia).
    assert (H2 : inject_Z (2 * z) <= inject_Z D) by (rewrite <- Zle_Qle; lia).
    rewrite inject_Z_opp in H1. rewrite inject_Z_mult in H1, H2.
    change (inject_Z 2) with 2 in H1, H2.
    split.
    + apply Qle_shift_div_l; [exact HDq | ]. lra.
    + apply Qle_shift_div_r; [exact HDq | ]. lra.
  - rewrite Hdiff. intros E. apply Htie.
    assert (Hcases : inject_Z z / inject_Z D == 1 # 2 \/ inject_Z z / inject_Z D == - (1 # 2)).
    { destruct (Qlt_le_dec (inject_Z z / inject_Z D) 0) as [Hneg | Hpos].
      - right. rewrite Qabs_neg in E by (apply Qlt_le_weak; exact Hneg).
        rewrite <- E. ring.
      - left. rewrite Qabs_pos in E by exact Hpos. exact E. }
    assert (Hz : inject_Z z == inject_Z z / inject_Z D * inject_Z D) by (field; exact HDne).
    destruct Hcases as [Hc | Hc]; rewrite Hc in Hz.
    + assert (H2z : (2 * z = D)%Z).
      { apply inject_Z_injective. rewrite inject_Z_mult. rewrite Hz. ring. }
      lia.
    + assert (H2z : (2 * z = - D)%Z).
      { apply inject_Z_injective. rewrite inject_Z_mult, inject_Z_opp. rewrite Hz. ring. }
      lia.
Qed.

Lemma decimal_round_pos_spec p d :
  (1 <= p)%Z -> (1 <= d)%Z ->
  exists c k,
    decimal_round_pos p d == inject_Z c * 10 ^ (- k)
    /\ (10 ^ 27 <= c <= 10 ^ 28)%Z
    /\ Qabs (inject_Z c - inject_Z p / inject_Z d * 10 ^ k) <= 1 # 2
    /\ (Qabs (inject_Z c - inject_Z p / inject_Z d * 10 ^ k) == 1 # 2 -> Z.even c = true).
Proof.
  intros Hp Hd.
  destruct (ilog10_spec p d Hp Hd) as (Hlo & Hhi).
  assert (Hdq : 0 < inject_Z d) by (rewrite <- (Zlt_Qlt 0); lia).
  assert (Hdne : ~ inject_Z d == 0) by (intros E; rewrite E in Hdq; discriminate Hdq).
  unfold decimal_round_pos, decimal_prec.
  set (L := ilog10 p d) in *. set (k := (28 - 1 - L)%Z).
  set (X := inject_Z p / inject_Z d * 10 ^ k).
  assert (HXlo : 10 ^ 27 <= X).
  { unfold X. replace 27%Z with (L + k)%Z by (unfold k; lia). rewrite pow10_plus.
    apply Qmult_le_r; [apply pow10_pos | ].
    apply Qle_shift_div_l; [exact Hdq | exact Hlo]. }
  assert (HXhi : X < 10 ^ 28).
  { unfold X. replace 28%Z with ((L + 1) + k)%Z by (unfold k; lia). rewrite pow10_plus.
    apply Qmult_lt_r; [apply pow10_pos | ].
    apply Qlt_shift_div_r; [exact Hdq | exact Hhi]. }
  destruct (0 <=? k)%Z eqn:Ek.
  - apply Z.leb_le in Ek.
    assert (HX : X == inject_Z (p * 10 ^ k) / inject_Z d).
    { unfold X. rewrite inject_Z_mult, pow10_inject by exact Ek. field. exact Hdne. }
    destruct (coefficient_spec (p * 10 ^ k) d X ltac:(lia) HX HXlo HXhi)
      as (Hc & Hnear & Htie).
    exists (round_half_even_div (p * 10 ^ k) d), k.
    split; [ | repeat split; try assumption; apply Hc].
    assert (Hpk : (0 < 10 ^ k)%Z) by (apply Z.pow_pos_nonneg; lia).
    rewrite Qmake_Qdiv, Z2Pos.id by exact Hpk.
    rewrite pow10_opp, pow10_inject by exact Ek. reflexivity.
  - apply Z.leb_gt in Ek.
    assert (Hpk : (0 < 10 ^ (- k))%Z) by (apply Z.pow_pos_nonneg; lia).
    assert (HX : X == inject_Z p / inject_Z (d * 10 ^ (- k))).
    { unfold X. rewrite inject_Z_mult, pow10_inject by lia.
      replace k with (- - k)%Z at 1 by lia. rewrite (pow10_opp (- k)).
      field. split; [ | exact Hdne].
      pose proof (pow10_pos (- k)) as H. intros E. rewrite E in H. discriminate H. }
    destruct (coefficient_spec p (d * 10 ^ (- k)) X ltac:(nia) HX HXlo HXhi)
      as (Hc & Hnear & Htie).
    exists (round_half_even_div p (d * 10 ^ (- k))), k.
    split; [ | repeat split; try assumption; apply Hc].
    rewrite inject_Z_mult, pow10_inject by lia. reflexivity.
Qed.

Lemma decimal_round_nearest x : nearest_in_context x (decimal_round x).
Proof.
  unfold decimal_round. pose proof (Qred_correct x) as Hred.
  destruct (Qred x) as [num den] eqn:Ex. cbn [Qnum Qden].
  destruct num as [|p|p].
  - left. split; [rewrite <- Hred; reflexivity | reflexivity].
  - right.
    destruct (decimal_round_pos_spec (Z.pos p) (Z.pos den) ltac:(lia) ltac:(lia))
      as (c & k & Hval & Hc & Hnear & Htie).
    assert (Hx : x == inject_Z (Z.pos p) / inject_Z (Z.pos den)).
    { rewrite <- Hred. apply Qmake_Qdiv. }
    exists c, k. split; [exact Hval | ]. split; [lia | ].
    rewrite Hx. split; assumption.
  - right.
    destruct (decimal_round_pos_spec (Z.pos p) (Z.pos den) ltac:(lia) ltac:(lia))
      as (c & k & Hval & Hc & Hnear & Htie).
    assert (Hx : x == - (inject_Z (Z.pos p) / inject_Z (Z.pos den))).
    { rewrite <- Hred. rewrite <- Qmake_Qdiv. reflexivity. }
    assert (Hdiff : inject_Z (- c) - x * 10 ^ k
                    == - (inject_Z c - inject_Z (Z.pos p) / inject_Z (Z.pos den) * 10 ^ k)).
    { rewrite Hx, inject_Z_opp. ring. }
    exists (- c)%Z, k. split; [rewrite Hval, inject_Z_opp; ring | ].
    split; [lia | ].
    rewrite Hdiff, Qabs_opp, Z.even_opp. split; assumption.
Qed.

Close Scope Q_scope.

Lemma decimal_round_proper x y : (x == y)%Q -> decimal_round x = decimal_round y.
Proof. intros H. unfold decimal_round. rewrite (Qred_complete _ _ H). reflexivity. Qed.

(** The density of the code: three operations, each rounded to the nearest
    value of the context; it is the exact one when the three operations of
    line 745 are exact in the context. *)
Lemma strap_density_exact nets width pitch :
  ~ (pitch == 0)%Q ->
  exists density,
    strap_density nets width pitch = Ok density
    /\ (exists product quotient,
          nearest_in_context (inject_Z (Z.of_nat (List.length nets)) * width) product
          /\ nearest_in_context (product / pitch) quotient
          /\ nearest_in_context (quotient * 100) density)
    /\ (exact_in_context (inject_Z (Z.of_nat (List.length nets)) * width) ->
        exact_in_context (inject_Z (Z.of_nat (List.length nets)) * width / pitch) ->
        exact_in_context (inject_Z (Z.of_nat (List.length nets)) * width / pitch * 100) ->
        (density == inject_Z (Z.of_nat (List.length nets)) * width / pitch * 100)%Q).
Proof.
  intros Hp. unfold strap_density, decimal_div_ctx, decimal_mul_ctx.
  apply Qeqb_false_iff in Hp. rewrite Hp. cbn [rbind].
  eexists. split; [reflexivity | ]. split.
  { eexists. eexists. split; [apply decimal_round_nearest | ].
    split; apply decimal_round_nearest. }
  unfold exact_in_context. intros H1 H2 H3.
  set (n := inject_Z (Z.of_nat (List.length nets))) in *.
  assert (E2 : (decimal_round (decimal_round (n * width) / pitch) == n * width / pitch)%Q).
  { rewrite (decimal_round_proper (decimal_round (n * width) / pitch) (n * width / pitch)).
    - exact H2.
    - rewrite H1. reflexivity. }
  rewrite (decimal_round_proper
             (decimal_round (decimal_round (n * width) / pitch) * 100)
             (n * width / pitch * 100)).
  - exact H3.
  - rewrite E2. reflexivity.
Qed.

(** C6, as the code has it: the converter computes the density
    [len(nets) * width / pitch * 100] in decimal arithmetic: the product,
    the quotient and the percentage are each rounded to the nearest value of
    28 significant digits (ties to even), so that the density is
    [len(nets) * width / pitch * 100] whenever these three have no more
    digits than that; and it logs one density warning, with the computed
    density, exactly when the computed density is above 85. *)
Theorem density_warning_above_85 self layer_name bottom_via_layer blockage_spacing
    track_pitch track_width track_spacing track_start track_offset bbox nets
    add_pins layer_is_all_power antenna_trim_shape pattern layer width spacing
    strap_start s :
  Stackup.get_metal (Tool.get_stackup self) layer_name = Ok layer ->
  by_tracks_width_spacing_start layer (inject_Z track_pitch * Metal.pitch layer)%Q
    track_width track_spacing layer_is_all_power pattern = (width, spacing, strap_start) ->
  (0 < width)%Q -> (0 < spacing)%Q ->
  ~ (inject_Z track_pitch * Metal.pitch layer == 0)%Q ->
  let pitch := (inject_Z track_pitch * Metal.pitch layer)%Q in
  let n := inject_Z (Z.of_nat (List.length nets)) in
  let s' := snd (specify_power_straps_by_tracks self layer_name bottom_via_layer
                   blockage_spacing track_pitch track_width track_spacing track_start
                   track_offset bbox nets add_pins layer_is_all_power antenna_trim_shape
                   pattern s) in
  exists density,
    strap_density nets width pitch = Ok density
    /\ (exists product quotient,
          nearest_in_context (n * width) product
          /\ nearest_in_context (product / pitch) quotient
          /\ nearest_in_context (quotient * 100) density)
    /\ (exact_in_context (n * width) -> exact_in_context (n * width / pitch) ->
        exact_in_context (n * width / pitch * 100) ->
        (density == n * width / pitch * 100)%Q)
    /\ ((85 < density)%Q ->
        density_warnings (logger s') = density_warnings (logger s) ++ [(layer_name, density)])
    /\ ((density <= 85)%Q ->
        density_warnings (logger s') = density_warnings (logger s)).
Proof.
  intros Hlayer Hgeom Hw Hs Hp pitch n s'. subst pitch n.
  set (pitch := (inject_Z track_pitch * Metal.pitch layer)%Q) in *.
  destruct (strap_density_exact nets width pitch Hp) as (density & Hd & Hnear & Hexact).
  exists density. split; [exact Hd | ]. split; [exact Hnear | ]. split; [exact Hexact | ].
  assert (Hrun :
    s' = snd (bind (when (Qgtb density 85) (log (DensityWarning layer_name density)))
                (fun _ =>
                 bind (_get_power_straps_for_hardmacros self layer_name pitch width spacing
                         (track_offset + inject_Z track_start * Metal.pitch layer
                          + strap_start)%Q bbox nets)
                   (fun _ =>
                    ret [specify_power_straps layer_name bottom_via_layer blockage_spacing
                           pitch width spacing
                           (track_offset + inject_Z track_start * Metal.pitch layer
                            + strap_start)%Q bbox nets add_pins antenna_trim_shape])) s)).
  { unfold s', specify_power_straps_by_tracks.
    rewrite Hlayer. rewrite bind_run. unfold lift at 1. fold pitch. rewrite Hgeom.
    apply Qgtb_true_iff in Hw. apply Qgtb_true_iff in Hs.
    rewrite Hw, Hs, Hd. reflexivity. }
  assert (Hrec : forall s1,
    density_warnings
      (logger (snd (bind (_get_power_straps_for_hardmacros self layer_name pitch width spacing
                         (track_offset + inject_Z track_start * Metal.pitch layer
                          + strap_start)%Q bbox nets)
                   (fun _ =>
                    ret [specify_power_straps layer_name bottom_via_layer blockage_spacing
                           pitch width spacing
                           (track_offset + inject_Z track_start * Metal.pitch layer
                            + strap_start)%Q bbox nets add_pins antenna_trim_shape]) s1)))
    = density_warnings (logger s1)).
  { intros s1.
    apply (preserves_bind _ same_density_warnings_trans).
    - apply recorder_same_density.
    - intros a. apply (preserves_ret _ same_density_warnings_refl). }
  split; intros Hcmp.
  - apply Qgtb_true_iff in Hcmp. rewrite Hrun, bind_run, Hcmp. simpl when.
    unfold log at 1. rewrite Hrec. simpl logger.
    rewrite density_warnings_app. reflexivity.
  - apply Qgtb_false_iff in Hcmp. rewrite Hrun, bind_run, Hcmp. simpl when.
    unfold ret at 1. apply Hrec.
Qed.

Lemma density_warning_above_85_witness :
  (exists density,
     strap_density ["VSS"; "VDD"]%string (inject_Z 21) (inject_Z 100 * 1)%Q = Ok density
     /\ (density == 42)%Q
     /\ density_warnings
          (logger (snd (specify_power_straps_by_tracks (Fixture.tool [] true) "M2" "M1" 0
                          100 21 1 0 0 None ["VSS"; "VDD"]%string false false "none"
                          "default" Fixture.s0))) = [])
  /\
  (exists density,
     strap_density ["VSS"; "VDD"]%string (inject_Z 45) (inject_Z 100 * 1)%Q = Ok density
     /\ (density == 90)%Q
     /\ density_warnings
          (logger (snd (specify_power_straps_by_tracks (Fixture.tool [] true) "M2" "M1" 0
                          100 45 1 0 0 None ["VSS"; "VDD"]%string false false "none"
                          "default" Fixture.s0))) = [("M2"%string, density)])
  /\
  (exists density,
     strap_density ["VSS"; "VDD"]%string (inject_Z 1) (inject_Z 3 * 1)%Q = Ok density
     /\ (density == 6666666666666666666666666667 # 100000000000000000000000000)%Q
     /\ density_warnings
          (logger (snd (specify_power_straps_by_tracks (Fixture.tool [] true) "M2" "M1" 0
                          3 1 1 0 0 None ["VSS"; "VDD"]%string false false "none"
                          "default" Fixture.s0))) = []).
Proof.
  assert (Hp : ~ (inject_Z 100 * Metal.pitch Fixture.M2 == 0)%Q)
    by (intros H; discriminate H).
  split; [ | split].
  - destruct (density_warning_above_85 (Fixture.tool [] true) "M2" "M1" 0 100 21 1 0 0 None
                ["VSS"; "VDD"]%string false false "none" "default" Fixture.M2
                (inject_Z 21) (2 * 1 + inject_Z (1 - 1) * 1 + (1 # 10))%Q 0%Q Fixture.s0
                eq_refl eq_refl eq_refl eq_refl Hp)
      as (d & Hd & _ & Hexact & _ & Hle).
    assert (Heq : (d == 42)%Q).
    { rewrite Hexact; [reflexivity | | | ]; vm_compute; reflexivity. }
    exists d. split; [exact Hd | ]. split; [exact Heq | ].
    apply Hle. rewrite Heq. discriminate.
  - destruct (density_warning_above_85 (Fixture.tool [] true) "M2" "M1" 0 100 45 1 0 0 None
                ["VSS"; "VDD"]%string false false "none" "default" Fixture.M2
                (inject_Z 45) (2 * 1 + inject_Z (1 - 1) * 1 + (1 # 10))%Q 0%Q Fixture.s0
                eq_refl eq_refl eq_refl eq_refl Hp)
      as (d & Hd & _ & Hexact & Hgt & _).
    assert (Heq : (d == 90)%Q).
    { rewrite Hexact; [reflexivity | | | ]; vm_compute; reflexivity. }
    exists d. split; [exact Hd | ]. split; [exact Heq | ].
    apply Hgt. rewrite Heq. reflexivity.
  - destruct (density_warning_above_85 (Fixture.tool [] true) "M2" "M1" 0 3 1 1 0 0 None
                ["VSS"; "VDD"]%string false false "none" "default" Fixture.M2
                (inject_Z 1) (2 * 1 + inject_Z (1 - 1) * 1 + (1 # 10))%Q 0%Q Fixture.s0
                eq_refl eq_refl eq_refl eq_refl ltac:(intros H; discriminate H))
      as (d & Hd & _ & _ & _ & Hle).
    exists d. split; [exact Hd | ].
    assert (Heq : (d == 6666666666666666666666666667 # 100000000000000000000000000)%Q).
    { vm_compute in Hd. injection Hd as <-. reflexivity. }
    split; [exact Heq | ]. apply Hle. rewrite Heq. discriminate.
Defined.

(** C6 fails as stated: two straps of width 3 at a group pitch of 7 have the
    density 600/7, and the converter computes, and logs in its warning, the
    28 digits [85.71428571428571428571428571]. *)
Lemma density_is_rounded_counterexample :
  exists density,
    density_warnings
      (logger (snd (specify_power_straps_by_tracks (Fixture.tool [] true) "M2" "M1" 0
                      7 3 1 0 0 None ["VSS"; "VDD"]%string false false "none"
                      "default" Fixture.s0)))
    = [("M2"%string, density)]
    /\ (density == 8571428571428571428571428571 # 100000000000000000000000000)%Q
    /\ ~ (density == inject_Z 2 * inject_Z 3 / (inject_Z 7 * 1) * 100)%Q.
Proof.
  eexists. split; [vm_compute; reflexivity | ]. split.
  - vm_compute. reflexivity.
  - intros H. vm_compute in H. discriminate H.
Qed.

(** ** The derived group pitch *)

(** [round_half_even_pow2 m k] is an integer nearest to [m / 2^k]. *)
Lemma round_half_even_pow2_nearest m k :
  0 <= k -> 2 * Z.abs (round_half_even_pow2 m k * 2 ^ k - m) <= 2 ^ k.
Proof.
  intros Hk. unfold round_half_even_pow2.
  assert (Hd : 0 < 2 ^ k) by (apply Z.pow_pos_nonneg; lia).
  pose proof (Z.div_mod m (2 ^ k) ltac:(lia)) as Hdm.
  pose proof (Z.mod_pos_bound m (2 ^ k) Hd) as Hr.
  set (d := 2 ^ k) in *. set (q := m / d) in *. set (r := m mod d) in *.
  destruct (2 * r <? d) eqn:E1; [apply Z.ltb_lt in E1; nia | apply Z.ltb_ge in E1].
  destruct (d <? 2 * r) eqn:E2; [apply Z.ltb_lt in E2; nia | apply Z.ltb_ge in E2].
  destruct (Z.even q); nia.
Qed.

(** On a tie the even neighbour is taken. *)
Lemma round_half_even_pow2_tie m k :
  0 <= k -> 2 * (m mod 2 ^ k) = 2 ^ k -> Z.even (round_half_even_pow2 m k) = true.
Proof.
  intros Hk Htie. unfold round_half_even_pow2.
  rewrite Htie, Z.ltb_irrefl.
  destruct (Z.even (m / 2 ^ k)) eqn:E; [exact E | ].
  rewrite Z.even_add, E. reflexivity.
Qed.

(** On a tie the even neighbour is taken, the tie seen from the result. *)
Lemma round_half_even_pow2_tie_abs m k :
  0 <= k -> 2 * Z.abs (round_half_even_pow2 m k * 2 ^ k - m) = 2 ^ k ->
  Z.even (round_half_even_pow2 m k) = true.
Proof.
  intros Hk. unfold round_half_even_pow2.
  assert (Hd : 0 < 2 ^ k) by (apply Z.pow_pos_nonneg; lia).
  pose proof (Z.div_mod m (2 ^ k) ltac:(lia)) as Hdm.
  pose proof (Z.mod_pos_bound m (2 ^ k) Hd) as Hr.
  set (d := 2 ^ k) in *. set (q := m / d) in *. set (r := m mod d) in *.
  destruct (2 * r <? d) eqn:E1; [apply Z.ltb_lt in E1; nia | apply Z.ltb_ge in E1].
  destruct (d <? 2 * r) eqn:E2; [apply Z.ltb_lt in E2; nia | apply Z.ltb_ge in E2].
  intros _. destruct (Z.even q) eqn:E; [exact E | ].
  rewrite Z.even_add, E. reflexivity.
Qed.

(** [round(x)] is the integer nearest to the value of [x], the even one of
    the two when [x] lies halfway. *)
Lemma py_round_nearest x r :
  py_round x = Ok r ->
  exists value,
    float_value x = Some value
    /\ (Qabs (inject_Z r - value) <= 1 # 2)%Q
    /\ ((Qabs (inject_Z r - value) == 1 # 2)%Q -> Z.even r = true).
Proof.
  unfold py_round, float_value. destruct (Prim2SF x) as [s | s | | s m e]; intros H;
    try discriminate H.
  - injection H as <-. exists 0%Q. split; [reflexivity | ]. split.
    + discriminate.
    + intros E. discriminate E.
  - injection H as <-. destruct (0 <=? e) eqn:Ee.
    + exists (if s then - inject_Z (Z.pos m * 2 ^ e) else inject_Z (Z.pos m * 2 ^ e))%Q.
      split; [reflexivity | ].
      assert (Hz : (inject_Z (if s then - (Z.pos m * 2 ^ e) else Z.pos m * 2 ^ e)
                    - (if s then - inject_Z (Z.pos m * 2 ^ e)
                       else inject_Z (Z.pos m * 2 ^ e)) == 0)%Q).
      { destruct s; unfold Qeq, Qminus, Qplus, Qopp, inject_Z; cbn [Qnum Qden]; lia. }
      split.
      * rewrite Hz. discriminate.
      * intros E. rewrite Hz in E. discriminate E.
    + apply Z.leb_gt in Ee.
      assert (Hk : 0 <= - e) by lia.
      assert (Hd : 0 < 2 ^ (- e)) by (apply Z.pow_pos_nonneg; lia).
      pose proof (round_half_even_pow2_nearest (Z.pos m) (- e) Hk) as Hnear.
      pose proof (round_half_even_pow2_tie_abs (Z.pos m) (- e) Hk) as Htie.
      set (a := round_half_even_pow2 (Z.pos m) (- e)) in *.
      exists (if s then - (Z.pos m # Z.to_pos (2 ^ (- e)))
              else Z.pos m # Z.to_pos (2 ^ (- e)))%Q.
      split; [reflexivity | ].
      assert (Hpos : Z.pos (Z.to_pos (2 ^ (- e))) = 2 ^ (- e)) by (apply Z2Pos.id; exact Hd).
      destruct s; unfold Qabs, Qle, Qeq, Qminus, Qplus, Qopp, inject_Z;
        cbn [Qnum Qden]; rewrite ?Pos.mul_1_l, ?Hpos; split.
      * replace (- a * 2 ^ (- e) + - - Z.pos m * 1) with (- (a * 2 ^ (- e) - Z.pos m))
          by lia.
        rewrite Z.abs_opp. lia.
      * replace (- a * 2 ^ (- e) + - - Z.pos m * 1) with (- (a * 2 ^ (- e) - Z.pos m))
          by lia.
        rewrite Z.abs_opp, Z.even_opp. intros E. apply Htie. lia.
      * replace (a * 2 ^ (- e) + - Z.pos m * 1) with (a * 2 ^ (- e) - Z.pos m) by lia.
        lia.
      * replace (a * 2 ^ (- e) + - Z.pos m * 1) with (a * 2 ^ (- e) - Z.pos m) by lia.
        intros E. apply Htie. lia.
Qed.

(** The calls of the positions of a period are the ones the group pitch in
    tracks fixes. *)
Lemma groups_loop_geometry self layer_name layer last track_pitch ground_net power_nets
    power_weights bbox pin_layers positions :
  Stackup.get_metal (Tool.get_stackup self) layer_name = Ok layer ->
  forall output s output' s',
    for_acc positions output
      (group_body self layer_name layer last
         (ByTracks.blockage_spacing (Tool.by_tracks self layer_name)) track_pitch
         (ByTracks.track_width (Tool.by_tracks self layer_name))
         (ByTracks.track_spacing (Tool.by_tracks self layer_name))
         (ByTracks.track_start (Tool.by_tracks self layer_name))
         (ByTracks.track_offset (Tool.by_tracks self layer_name))
         (Metal.offset layer) (sum power_weights) ground_net power_nets bbox
         (str_in layer_name pin_layers)
         (2 * ByTracks.track_width (Tool.by_tracks self layer_name) =? track_pitch)
         (ByTracks.antenna_trim_shape (Tool.by_tracks self layer_name))
         (ByTracks.pattern (Tool.by_tracks self layer_name))) s
    = (Ok output', s') ->
    exists added,
      output' = output ++ added
      /\ Forall2 (strap_from_track_pitch self layer_name layer last track_pitch ground_net
                    power_nets power_weights bbox pin_layers) positions added.
Proof.
  intros Hlayer.
  induction positions as [|i positions IH]; intros output s output' s' Hrun;
    cbn [for_acc] in Hrun.
  - unfold ret in Hrun. injection Hrun as <- _.
    exists []. rewrite app_nil_r. split; [reflexivity | constructor].
  - apply bind_ok_inv in Hrun. destruct Hrun as (out1 & s1 & Hbody & Hrun).
    unfold group_body in Hbody.
    apply bind_ok_inv in Hbody. destruct Hbody as (power_net & s2 & Hget & Hbody).
    unfold lift, list_get in Hget.
    destruct (nth_error power_nets i) as [p|] eqn:Hnth; [ | discriminate Hget].
    injection Hget as <- <-.
    apply bind_ok_inv in Hbody. destruct Hbody as (cmds & s3 & Hconv & Hbody).
    unfold ret in Hbody. injection Hbody as <- <-.
    destruct (by_tracks_width_spacing_start layer
                (inject_Z (sum power_weights * track_pitch) * Metal.pitch layer)%Q
                (ByTracks.track_width (Tool.by_tracks self layer_name))
                (ByTracks.track_spacing (Tool.by_tracks self layer_name))
                (2 * ByTracks.track_width (Tool.by_tracks self layer_name) =? track_pitch)
                (ByTracks.pattern (Tool.by_tracks self layer_name)))
      as [[width spacing] strap_start] eqn:Hgeom.
    destruct (converter_returns _ _ _ _ _ _ _ _ _ _ _ _ _ _ _ _ _ _ _ _ _ _
                Hlayer Hgeom Hconv) as (Hcmds & _ & _).
    apply IH in Hrun. destruct Hrun as (added & -> & Hall).
    exists (cmds ++ added). rewrite <- app_assoc. split; [reflexivity | ].
    rewrite Hcmds. cbn [app]. constructor; [ | exact Hall].
    unfold strap_from_track_pitch. rewrite Hgeom.
    exists p. split; [exact Hnth | reflexivity].
Qed.

(** C10: the group pitch in tracks is derived.  When
    [_get_by_tracks_track_pitch] returns, [0 < power_utilization <= 1] holds
    and the result is the integer nearest to the quotient
    [(2*track_width + track_spacing) / power_utilization] (without
    [track_spacing] under the mesh pattern), the even one when the quotient
    lies halfway; when the utilization fails [0 < power_utilization <= 1]
    the function, and with it the processing of the layer, stops on the
    assertion; and the calls made for a layer are the ones that this pitch
    fixes: the pitch of the group, whether the layer is all power, the
    resolved width, spacing and start, and the offset of each position. *)
Theorem track_pitch_derived self layer_name :
  let bt := Tool.by_tracks self layer_name in
  let pu := ByTracks.power_utilization bt in
  let consumed_tracks :=
    2 * ByTracks.track_width bt
    + (if String.eqb (ByTracks.pattern bt) "mesh" then 0 else ByTracks.track_spacing bt) in
  (forall track_pitch,
     _get_by_tracks_track_pitch self layer_name = Ok track_pitch ->
     PrimFloat.ltb 0 pu = true /\ PrimFloat.leb pu 1 = true
     /\ exists quotient value,
          int_truediv_float consumed_tracks pu = Ok quotient
          /\ float_value quotient = Some value
          /\ (Qabs (inject_Z track_pitch - value) <= 1 # 2)%Q
          /\ ((Qabs (inject_Z track_pitch - value) == 1 # 2)%Q ->
              Z.even track_pitch = true))
  /\ (PrimFloat.ltb 0 pu && PrimFloat.leb pu 1 = false ->
      _get_by_tracks_track_pitch self layer_name = Err (AssertionError "")
      /\ forall ground_net power_nets power_weights bbox pin_layers output last layer s,
           Stackup.get_metal (Tool.get_stackup self) layer_name = Ok layer ->
           Metal.index last < Metal.index layer ->
           RoutingDirection_eqb (Metal.direction last) (Metal.direction layer) = false ->
           layer_body self ground_net power_nets power_weights bbox pin_layers
             (output, last) layer_name s = (Err (AssertionError ""), s))
  /\ (forall ground_net power_nets power_weights bbox pin_layers output last s
             output' layer s',
        layer_body self ground_net power_nets power_weights bbox pin_layers
          (output, last) layer_name s = (Ok (output', layer), s') ->
        exists track_pitch added,
          _get_by_tracks_track_pitch self layer_name = Ok track_pitch
          /\ output' = output ++ added
          /\ Forall2 (strap_from_track_pitch self layer_name layer last track_pitch
                        ground_net power_nets power_weights bbox pin_layers)
                     (range (sum power_weights)) added).
Proof.
  intros bt pu consumed_tracks.
  assert (Hpitch :
    _get_by_tracks_track_pitch self layer_name
    = (if PrimFloat.ltb 0 pu && PrimFloat.leb pu 1
       then rbind (int_truediv_float consumed_tracks pu) py_round
       else Err (AssertionError ""))).
  { unfold _get_by_tracks_track_pitch. fold bt. fold pu. unfold consumed_tracks.
    destruct (PrimFloat.ltb 0 pu); simpl; [ | reflexivity].
    destruct (PrimFloat.leb pu 1); simpl; [ | reflexivity].
    destruct (String.eqb (ByTracks.pattern bt) "mesh").
    - rewrite Z.add_0_r. reflexivity.
    - reflexivity. }
  split; [ | split].
  - intros track_pitch Hrun. rewrite Hpitch in Hrun.
    destruct (PrimFloat.ltb 0 pu); [ | discriminate Hrun].
    destruct (PrimFloat.leb pu 1); [ | discriminate Hrun].
    cbn [andb] in Hrun. split; [reflexivity | ]. split; [reflexivity | ].
    destruct (int_truediv_float consumed_tracks pu) as [quotient|e];
      [ | discriminate Hrun].
    cbn [rbind] in Hrun. apply py_round_nearest in Hrun.
    destruct Hrun as (value & Hvalue & Hnear & Htie).
    exists quotient, value. repeat split; assumption.
  - intros Hpu. rewrite Hpitch, Hpu. split; [reflexivity | ].
    intros ground_net power_nets power_weights bbox pin_layers output last layer s
           Hlayer Hidx Hdir.
    unfold layer_body. rewrite Hlayer. rewrite bind_run. unfold lift at 1.
    apply Z.ltb_lt in Hidx. rewrite Hidx, Hdir. simpl.
    rewrite bind_run. rewrite Hpitch, Hpu. reflexivity.
  - intros ground_net power_nets power_weights bbox pin_layers output last s
           output' layer s' Hbody.
    unfold layer_body in Hbody.
    apply bind_ok_inv in Hbody. destruct Hbody as (layer0 & s2 & Hlayer & Hbody).
    unfold lift in Hlayer. injection Hlayer as Hlayer <-.
    apply bind_ok_inv in Hbody. destruct Hbody as ([] & s3 & _ & Hbody).
    destruct (RoutingDirection_eqb (Metal.direction last) (Metal.direction layer0));
      [discriminate Hbody | ].
    apply bind_ok_inv in Hbody. destruct Hbody as (track_pitch & s4 & Htp & Hbody).
    unfold lift in Htp. injection Htp as Htp <-.
    apply bind_ok_inv in Hbody. destruct Hbody as (out & s5 & Hgroups & Hbody).
    unfold ret in Hbody. injection Hbody as <- <- <-.
    apply (groups_loop_geometry _ _ _ _ _ _ _ _ _ _ _ Hlayer) in Hgroups.
    destruct Hgroups as (added & -> & Hall).
    exists track_pitch, added. repeat split; assumption.
Qed.

Lemma track_pitch_derived_witness :
  (exists quotient value,
     _get_by_tracks_track_pitch (Examples.tool_with "default" 1 Examples.float_0_4) "M2"
     = Ok 18
     /\ int_truediv_float 7 Examples.float_0_4 = Ok quotient
     /\ float_value quotient = Some value
     /\ (value == 35 # 2)%Q
     /\ (Qabs (inject_Z 18 - value) <= 1 # 2)%Q
     /\ Z.even 18 = true)
  /\ (exists quotient value,
        _get_by_tracks_track_pitch
          (Examples.tool_with "default" 3 Examples.float_0_4) "M2" = Ok 22
        /\ int_truediv_float 9 Examples.float_0_4 = Ok quotient
        /\ float_value quotient = Some value
        /\ (value == 45 # 2)%Q
        /\ Z.even 22 = true)
  /\ _get_by_tracks_track_pitch (Examples.tool_with "default" 1 Examples.float_0_3) "M2"
     = Ok 23
  /\ _get_by_tracks_track_pitch (Examples.tool_with "mesh" 1 0.5%float) "M2" = Ok 12
  /\ layer_body (Examples.tool_with "default" 0 1.5%float)
       "VSS" ["VDD"]%string [1] None [] ([], Fixture.M1) "M2" Fixture.s0
     = (Err (AssertionError ""), Fixture.s0)
  /\ exists output' s',
       layer_body
         (Examples.tool_with "default" 1 Examples.float_0_4)
         "VSS" ["VDD"]%string [1] None [] ([], Fixture.M1) "M2" Fixture.s0
       = (Ok (output', Fixture.M2), s')
       /\ Forall2 (strap_from_track_pitch
                     (Examples.tool_with "default" 1 Examples.float_0_4)
                     "M2" Fixture.M2 Fixture.M1 18 "VSS" ["VDD"]%string [1] None [])
                  (range (sum [1])) output'.
Proof.
  split; [ | split; [ | split; [ | split; [ | split]]]].
  - assert (Hrun : _get_by_tracks_track_pitch
                     (Examples.tool_with "default" 1 Examples.float_0_4) "M2" = Ok 18)
      by (vm_compute; reflexivity).
    destruct (proj1 (track_pitch_derived _ "M2") 18 Hrun)
      as (_ & _ & quotient & value & Hq & Hv & Hnear & Htie).
    exists quotient, value. split; [exact Hrun | ]. split; [exact Hq | ].
    split; [exact Hv | ].
    assert (Hvalue : (value == 35 # 2)%Q).
    { vm_compute in Hq. injection Hq as <-. vm_compute in Hv. injection Hv as <-.
      reflexivity. }
    split; [exact Hvalue | ]. split; [exact Hnear | ].
    apply Htie. rewrite Hvalue. reflexivity.
  - assert (Hrun : _get_by_tracks_track_pitch
                     (Examples.tool_with "default" 3 Examples.float_0_4) "M2" = Ok 22)
      by (vm_compute; reflexivity).
    destruct (proj1 (track_pitch_derived _ "M2") 22 Hrun)
      as (_ & _ & quotient & value & Hq & Hv & _ & Htie).
    exists quotient, value. split; [exact Hrun | ]. split; [exact Hq | ].
    split; [exact Hv | ].
    assert (Hvalue : (value == 45 # 2)%Q).
    { vm_compute in Hq. injection Hq as <-. vm_compute in Hv. injection Hv as <-.
      reflexivity. }
    split; [exact Hvalue | ]. apply Htie. rewrite Hvalue. reflexivity.
  - vm_compute. reflexivity.
  - vm_compute. reflexivity.
  - assert (Hpu : PrimFloat.ltb 0 1.5%float && PrimFloat.leb 1.5%float 1 = false)
      by (vm_compute; reflexivity).
    apply (proj2 (proj1 (proj2 (track_pitch_derived
                                  (Examples.tool_with "default" 0 1.5%float) "M2"))
                        Hpu)
             "VSS"%string ["VDD"]%string [1] None [] [] Fixture.M1 Fixture.M2 Fixture.s0).
    + reflexivity.
    + reflexivity.
    + reflexivity.
  - assert (Hrun : exists output' s',
      layer_body
        (Examples.tool_with "default" 1 Examples.float_0_4)
        "VSS" ["VDD"]%string [1] None [] ([], Fixture.M1) "M2" Fixture.s0
      = (Ok (output', Fixture.M2), s')) by (eexists; eexists; vm_compute; reflexivity).
    destruct Hrun as (output' & s' & Hrun). exists output', s'. split; [exact Hrun | ].
    destruct (proj2 (proj2 (track_pitch_derived _ "M2")) _ _ _ _ _ _ _ _ _ _ _ Hrun)
      as (track_pitch & added & Htp & Hout & Hall).
    vm_compute in Htp. injection Htp as <-. cbn [app] in Hout. subst added. exact Hall.
Defined.

(** ** The strap builder: layer order *)

Lemma RoutingDirection_eqb_eq a b : RoutingDirection_eqb a b = true <-> a = b.
Proof. destruct a, b; simpl; split; intros H; try reflexivity; discriminate H. Qed.

Lemma layer_body_index_error self ground_net power_nets power_weights bbox pin_layers
    output last layer layer_name s :
  Stackup.get_metal (Tool.get_stackup self) layer_name = Ok layer ->
  Metal.index layer <= Metal.index last ->
  layer_body self ground_net power_nets power_weights bbox pin_layers
    (output, last) layer_name s
  = (Err (AssertionError "Must build power straps bottom-up"), s).
Proof.
  intros Hlayer Hidx. unfold layer_body. rewrite Hlayer.
  rewrite bind_run. unfold lift at 1.
  apply Z.ltb_ge in Hidx. rewrite Hidx. reflexivity.
Qed.

Lemma layer_body_direction_error self ground_net power_nets power_weights bbox pin_layers
    output last layer layer_name s :
  Stackup.get_metal (Tool.get_stackup self) layer_name = Ok layer ->
  Metal.index last < Metal.index layer ->
  Metal.direction last = Metal.direction layer ->
  layer_body self ground_net power_nets power_weights bbox pin_layers
    (output, last) layer_name s
  = (Err (ValueError (same_direction_msg (Metal.name last) (Metal.name layer))), s).
Proof.
  intros Hlayer Hidx Hdir. unfold layer_body. rewrite Hlayer.
  rewrite bind_run. unfold lift at 1.
  apply Z.ltb_lt in Hidx. rewrite Hidx.
  apply RoutingDirection_eqb_eq in Hdir. rewrite Hdir. reflexivity.
Qed.

(** A layer that is processed becomes the [last] layer. *)
Lemma layer_body_ok_last self ground_net power_nets power_weights bbox pin_layers
    output last layer_name s output' last' s' :
  layer_body self ground_net power_nets power_weights bbox pin_layers
    (output, last) layer_name s = (Ok (output', last'), s') ->
  Stackup.get_metal (Tool.get_stackup self) layer_name = Ok last'
  /\ Metal.index last < Metal.index last'
  /\ Metal.direction last <> Metal.direction last'.
Proof.
  unfold layer_body. intros H.
  apply bind_ok_inv in H. destruct H as (layer & s1 & Hlayer & H).
  unfold lift in Hlayer. injection Hlayer as Hlayer <-.
  apply bind_ok_inv in H. destruct H as ([] & s2 & Hidx & H).
  unfold lift, py_assert in Hidx.
  destruct (Metal.index last <? Metal.index layer) eqn:Eidx; [ | discriminate Hidx].
  destruct (RoutingDirection_eqb (Metal.direction last) (Metal.direction layer)) eqn:Edir;
    [discriminate H | ].
  apply bind_ok_inv in H. destruct H as (track_pitch & s3 & _ & H).
  apply bind_ok_inv in H. destruct H as (out & s4 & _ & H).
  unfold ret in H. injection H as _ <- _.
  split; [exact Hlayer | ]. split; [apply Z.ltb_lt; exact Eidx | ].
  intros E. apply RoutingDirection_eqb_eq in E. congruence.
Qed.

Lemma layers_not_bottom_up self ground_net power_nets power_weights bbox pin_layers
    layer_names :
  forall output last s,
    built_bottom_up (Tool.get_stackup self) last layer_names = false ->
    exists e s',
      for_acc layer_names (output, last)
        (layer_body self ground_net power_nets power_weights bbox pin_layers) s
      = (Err e, s').
Proof.
  induction layer_names as [|layer_name rest IH]; intros output last s Hbu; simpl in Hbu.
  - discriminate Hbu.
  - cbn [for_acc]. rewrite bind_run.
    destruct (layer_body self ground_net power_nets power_weights bbox pin_layers
                (output, last) layer_name s) as [[[output' last']|e] s1] eqn:Ebody.
    + apply layer_body_ok_last in Ebody. destruct Ebody as (Hlayer & Hidx & Hdir).
      rewrite Hlayer in Hbu. apply Z.ltb_lt in Hidx. rewrite Hidx in Hbu.
      destruct (RoutingDirection_eqb (Metal.direction last) (Metal.direction last')) eqn:Edir.
      * apply RoutingDirection_eqb_eq in Edir. contradiction.
      * simpl in Hbu. apply IH. exact Hbu.
    + exists e, s1. reflexivity.
Qed.

(** C5: a layer whose index is not above that of the layer resolved before
    it stops the generation on the assertion, and one that runs in the same
    direction stops it with the error that names both layers; a layer list
    that is not built bottom-up in alternating directions makes the whole
    generation fail. *)
Theorem layers_must_be_built_bottom_up self ground_net power_nets power_weights bbox
    pin_layers :
  (forall output last layer layer_name s,
     Stackup.get_metal (Tool.get_stackup self) layer_name = Ok layer ->
     (Metal.index layer <= Metal.index last ->
      layer_body self ground_net power_nets power_weights bbox pin_layers
        (output, last) layer_name s
      = (Err (AssertionError "Must build power straps bottom-up"), s))
     /\ (Metal.index last < Metal.index layer ->
         Metal.direction last = Metal.direction layer ->
         layer_body self ground_net power_nets power_weights bbox pin_layers
           (output, last) layer_name s
         = (Err (ValueError
                   ("Layers " ++ Metal.name last ++ " and " ++ Metal.name layer
                    ++ " run in the same direction, but have no power straps between them.")%string),
            s)))
  /\ (forall layer_names bottom_via_layer generate_rail_layer last s,
        Stackup.get_metal (Tool.get_stackup self) bottom_via_layer = Ok last ->
        built_bottom_up (Tool.get_stackup self) last layer_names = false ->
        exists e s',
          specify_all_power_straps_by_tracks self layer_names bottom_via_layer ground_net
            power_nets power_weights bbox pin_layers generate_rail_layer s
          = (Err e, s')).
Proof.
  split.
  - intros output last layer layer_name s Hlayer. split.
    + apply layer_body_index_error. exact Hlayer.
    + apply layer_body_direction_error. exact Hlayer.
  - intros layer_names bottom_via_layer generate_rail_layer last s Hlast Hbu.
    unfold specify_all_power_straps_by_tracks.
    apply bind_err_later. intros _ s1.
    apply bind_err_later. intros _ s2.
    apply bind_err_later. intros rail_layer s3.
    rewrite Hlast. rewrite bind_run. unfold lift at 1.
    rewrite bind_run.
    destruct (layers_not_bottom_up self ground_net power_nets power_weights bbox pin_layers
                layer_names
                (if generate_rail_layer
                 then [] ++ [specify_std_cell_power_straps
                               (ByTracks.blockage_spacing
                                  (Tool.by_tracks self (Tool.std_cell_rail_layer self)))
                               bbox (ground_net :: power_nets)]
                 else []) last s3 Hbu) as (e & s' & Hloop).
    rewrite Hloop. exists e, s'. reflexivity.
Qed.

Lemma layers_must_be_built_bottom_up_witness :
  layer_body (Fixture.tool [] true) "VSS" ["VDD"]%string [1] None []
    ([], Fixture.M3) "M4" Fixture.s0
  = (Err (ValueError "Layers M3 and M4 run in the same direction, but have no power straps between them."),
     Fixture.s0)
  /\ layer_body (Fixture.tool [] true) "VSS" ["VDD"]%string [1] None []
       ([], Fixture.M3) "M2" Fixture.s0
     = (Err (AssertionError "Must build power straps bottom-up"), Fixture.s0)
  /\ exists e s',
       specify_all_power_straps_by_tracks (Fixture.tool [] true) ["M2"; "M3"; "M4"]%string
         "M1" "VSS" ["VDD"]%string [1] None [] false Fixture.s0
       = (Err e, s').
Proof.
  pose proof (layers_must_be_built_bottom_up (Fixture.tool [] true) "VSS" ["VDD"]%string
                [1] None []) as [Hstep Hrun].
  split; [ | split].
  - apply (proj2 (Hstep [] Fixture.M3 Fixture.M4 "M4"%string Fixture.s0 eq_refl)).
    + reflexivity.
    + reflexivity.
  - apply (proj1 (Hstep [] Fixture.M3 Fixture.M2 "M2"%string Fixture.s0 eq_refl)).
    discriminate.
  - apply (Hrun ["M2"; "M3"; "M4"]%string "M1"%string false Fixture.M1 Fixture.s0).
    + reflexivity.
    + reflexivity.
Defined.

(** ** The record list is never cleared *)

Lemma records_kept_refl s : records_kept s s.
Proof. exists []. rewrite app_nil_r. reflexivity. Qed.

Lemma records_kept_trans a b c : records_kept a b -> records_kept b c -> records_kept a c.
Proof.
  intros [x Hx] [y Hy]. exists (x ++ y). rewrite Hy, Hx, app_assoc. reflexivity.
Qed.

Lemma same_records_kept {A} (m : M A) : preserves same_records m -> preserves records_kept m.
Proof.
  intros H s. exists []. rewrite app_nil_r. apply H.
Qed.

Lemma log_same_records e : preserves same_records (log e).
Proof. intros s. reflexivity. Qed.

Lemma write_report_same_records r : preserves same_records (write_report r).
Proof. intros s. reflexivity. Qed.

Lemma read_records_same_records : preserves same_records read_records.
Proof. intros s. reflexivity. Qed.

Lemma append_record_kept r : preserves records_kept (append_record r).
Proof. intros s. exists [r]. reflexivity. Qed.

Ltac pres_same_records :=
  pres_with same_records_refl same_records_trans
    ltac:(first [ apply log_same_records
                | apply write_report_same_records
                | apply read_records_same_records ]).

Ltac pres_kept :=
  pres_with records_kept_refl records_kept_trans
    ltac:(first [ apply append_record_kept
                | apply same_records_kept; apply log_same_records ]).

Lemma master_body_same_records check_abut records acc master :
  preserves same_records (master_body check_abut records acc master).
Proof.
  unfold master_body. destruct acc as [output misaligned_insts].
  apply (preserves_bind _ same_records_trans); [pres_same_records | intros _].
  apply (preserves_bind _ same_records_trans); [ | intros _; pres_same_records].
  destruct (filter (fun m => negb (on_top_layer m)) _); [ | pres_same_records].
  destruct (filter _ records); pres_same_records.
Qed.

Lemma dump_same_records self :
  preserves same_records (_dump_power_straps_for_hardmacros self).
Proof.
  unfold _dump_power_straps_for_hardmacros.
  apply (preserves_bind _ same_records_trans); [pres_same_records | intros records].
  apply (preserves_bind _ same_records_trans).
  - apply (preserves_for_acc _ same_records_refl same_records_trans).
    intros acc master. apply master_body_same_records.
  - intros [output misaligned_insts]. pres_same_records.
Qed.

Lemma hardmacro_body_kept self layer_name layer dbu check_abut pwr_obs
    pitch width spacing offset bbox nets macro :
  preserves records_kept
    (hardmacro_body self layer_name layer dbu check_abut pwr_obs
                    pitch width spacing offset bbox nets macro).
Proof.
  hardmacro_body_pres records_kept_refl records_kept_trans ltac:(pres_kept).
Qed.

Lemma recorder_kept self layer_name pitch width spacing offset bbox nets :
  preserves records_kept
    (_get_power_straps_for_hardmacros self layer_name pitch width spacing offset bbox nets).
Proof.
  unfold _get_power_straps_for_hardmacros.
  apply (preserves_bind _ records_kept_trans); [pres_kept | intros layer].
  apply (preserves_for_each _ records_kept_refl records_kept_trans).
  intros macro. apply hardmacro_body_kept.
Qed.

Lemma converter_kept self layer_name bottom_via_layer blockage_spacing
    track_pitch track_width track_spacing track_start track_offset bbox nets
    add_pins layer_is_all_power antenna_trim_shape pattern :
  preserves records_kept
    (specify_power_straps_by_tracks self layer_name bottom_via_layer blockage_spacing
       track_pitch track_width track_spacing track_start track_offset bbox nets
       add_pins layer_is_all_power antenna_trim_shape pattern).
Proof.
  unfold specify_power_straps_by_tracks.
  apply (preserves_bind _ records_kept_trans); [pres_kept | intros layer].
  destruct (by_tracks_width_spacing_start _ _ _ _ _ _) as [[width spacing] strap_start].
  apply (preserves_bind _ records_kept_trans); [pres_kept | intros _].
  apply (preserves_bind _ records_kept_trans); [pres_kept | intros _].
  apply (preserves_bind _ records_kept_trans); [pres_kept | intros density].
  apply (preserves_bind _ records_kept_trans); [pres_kept | intros _].
  apply (preserves_bind _ records_kept_trans); [apply recorder_kept | intros _].
  pres_kept.
Qed.

Lemma layer_body_kept self ground_net power_nets power_weights bbox pin_layers acc
    layer_name :
  preserves records_kept
    (layer_body self ground_net power_nets power_weights bbox pin_layers acc layer_name).
Proof.
  unfold layer_body. destruct acc as [output last].
  apply (preserves_bind _ records_kept_trans); [pres_kept | intros layer].
  apply (preserves_bind _ records_kept_trans); [pres_kept | intros _].
  destruct (RoutingDirection_eqb _ _); [pres_kept | ].
  apply (preserves_bind _ records_kept_trans); [pres_kept | intros track_pitch].
  apply (preserves_bind _ records_kept_trans); [ | intros out; pres_kept].
  apply (preserves_for_acc _ records_kept_refl records_kept_trans).
  intros out i. unfold group_body.
  apply (preserves_bind _ records_kept_trans); [pres_kept | intros power_net].
  apply (preserves_bind _ records_kept_trans); [apply converter_kept | intros cmds].
  pres_kept.
Qed.

Lemma builder_kept self layer_names bottom_via_layer ground_net power_nets power_weights
    bbox pin_layers generate_rail_layer :
  preserves records_kept
    (specify_all_power_straps_by_tracks self layer_names bottom_via_layer ground_net
       power_nets power_weights bbox pin_layers generate_rail_layer).
Proof.
  unfold specify_all_power_straps_by_tracks.
  apply (preserves_bind _ records_kept_trans); [pres_kept | intros _].
  apply (preserves_bind _ records_kept_trans); [pres_kept | intros _].
  apply (preserves_bind _ records_kept_trans); [pres_kept | intros rail_layer].
  apply (preserves_bind _ records_kept_trans); [pres_kept | intros last].
  apply (preserves_bind _ records_kept_trans).
  - apply (preserves_for_acc _ records_kept_refl records_kept_trans).
    intros acc layer_name. apply layer_body_kept.
  - intros r.
    apply (preserves_bind _ records_kept_trans); [ | intros _; pres_kept].
    apply same_records_kept. apply dump_same_records.
Qed.

(** C2, as the code has it: the aggregator reads the record list and writes
    the report without clearing the list, which holds after the dump,
    whether the dump returns or raises, exactly the records it held before
    it; and no step of a generation invocation removes a record: the
    invocation ends with the records it found followed by those it added. *)
Theorem record_list_is_not_cleared self :
  (forall s,
     _hardmacro_power_straps (snd (_dump_power_straps_for_hardmacros self s))
     = _hardmacro_power_straps s)
  /\ (forall layer_names bottom_via_layer ground_net power_nets power_weights bbox
             pin_layers generate_rail_layer s,
        exists added,
          _hardmacro_power_straps
            (snd (specify_all_power_straps_by_tracks self layer_names bottom_via_layer
                    ground_net power_nets power_weights bbox pin_layers
                    generate_rail_layer s))
          = _hardmacro_power_straps s ++ added).
Proof.
  split.
  - intros s. apply dump_same_records.
  - intros. apply builder_kept.
Qed.

(** C2 fails as stated: a generation over one eligible macro returns with
    the report written, the macro's master in it, and the record list still
    holds the record of the macro. *)
Lemma record_list_cleared_counterexample :
  let run :=
    specify_all_power_straps_by_tracks
      (Fixture.tool [Fixture.macro "core/sram" "X" 0 0] true) ["M2"]%string "M1" "VSS"
      ["VDD"]%string [1] None [] false Fixture.s0 in
  is_ok (fst run) = true
  /\ map fst (get_or_else (power_straps_json (snd run)) []) = ["X"%string]
  /\ map StrapRecord.path (_hardmacro_power_straps (snd run)) = ["core/sram"%string]
  /\ _hardmacro_power_straps (snd run) <> [].
Proof.
  vm_compute. repeat split; try reflexivity. discriminate.
Qed.

(** ** The recorder: one record per eligible instance *)

Lemma for_each_ok {A} (P : A -> Prop) (body : A -> M unit) (xs : list A) :
  (forall x s, P x ->
     exists s1, body x s = (Ok tt, s1)
                /\ _hardmacro_power_straps s1 = _hardmacro_power_straps s) ->
  Forall P xs ->
  forall s, exists s1,
    for_each xs body s = (Ok tt, s1)
    /\ _hardmacro_power_straps s1 = _hardmacro_power_straps s.
Proof.
  intros Hbody. induction 1 as [|x xs Hx _ IH]; intros s; cbn [for_each].
  - exists s. split; reflexivity.
  - destruct (Hbody x s Hx) as (s1 & Hrun1 & Hrec1).
    destruct (IH s1) as (s2 & Hrun2 & Hrec2).
    exists s2. rewrite bind_run, Hrun1. split; [exact Hrun2 | congruence].
Qed.

Lemma check_obstructions_ok layer macro orientation mw mh obs :
  Forall has_extent obs ->
  forall s, exists s1,
    check_obstructions layer macro orientation mw mh obs s = (Ok tt, s1)
    /\ _hardmacro_power_straps s1 = _hardmacro_power_straps s.
Proof.
  unfold check_obstructions.
  destruct (rotated (lower orientation));
    apply for_each_ok; intros po s [Hw Hh];
    (destruct (PlacementConstraint.width po) as [pw|]; [ | contradiction]);
    (destruct (PlacementConstraint.height po) as [ph|]; [ | contradiction]);
    match goal with |- context [when ?c _] => destruct c end;
    eexists; split; reflexivity.
Qed.

(** C9, as the code has it: an instance that passes the eligibility tests
    and the bounds test, on a strap layer that runs vertically or
    horizontally, gets exactly one record appended, with its geometry in
    grid units, whatever the obstruction and fit tests logged. *)
Theorem eligible_macro_is_recorded self layer_name layer dbu check_abut pwr_obs
    pitch width spacing offset bbox nets macro master top_layer top s :
  PlacementConstraint.master macro = Some master ->
  match Tool.power_straps_abutment_macros self with
  | Some macros => str_in master macros = true
  | None => True
  end ->
  get_or_else (PlacementConstraint.create_physical macro) false = false ->
  PlacementConstraint.top_layer macro = Some top_layer ->
  Stackup.get_metal (Tool.get_stackup self) top_layer = Ok top ->
  Metal.index top <= Metal.index layer <= Metal.index top + 1 ->
  bounds_check macro (lower (get_or_else (PlacementConstraint.orientation macro) "r0")) bbox
  = Ok false ->
  Metal.direction layer <> Redistribution ->
  Forall has_extent pwr_obs ->
  ~ (pitch == 0)%Q -> ~ (dbu == 0)%Q ->
  let orientation := lower (get_or_else (PlacementConstraint.orientation macro) "r0") in
  let origin :=
    match Metal.direction layer with
    | Vertical => PlacementConstraint.x macro
    | _ => PlacementConstraint.y macro
    end in
  let offset_trans :=
    (offset - origin - pitch * inject_Z (decimal_to_int ((offset - origin) / pitch)))%Q in
  exists s',
    hardmacro_body self layer_name layer dbu check_abut pwr_obs
      pitch width spacing offset bbox nets macro s = (Ok tt, s')
    /\ _hardmacro_power_straps s'
       = _hardmacro_power_straps s
         ++ [StrapRecord.mk master top_layer (PlacementConstraint.path macro) orientation
               layer_name (Metal.direction layer) nets
               (decimal_to_int (width / dbu)) (decimal_to_int (spacing / dbu))
               (decimal_to_int (pitch / dbu)) (decimal_to_int (offset_trans / dbu))].
Proof.
  intros Hmaster Hallow Hphys Htop Htopm Hidx Hbounds Hdir Hobs Hpitch Hdbu
         orientation origin offset_trans.
  change (bounds_check macro orientation bbox = Ok false) in Hbounds.
  unfold hardmacro_body. rewrite Hmaster.
  assert (Hskip : match Tool.power_straps_abutment_macros self with
                  | Some macros => negb (str_in master macros)
                  | None => false
                  end = false).
  { destruct (Tool.power_straps_abutment_macros self); [rewrite Hallow | ]; reflexivity. }
  rewrite Hskip, Hphys, Htop, Htopm. rewrite bind_run. unfold lift at 1.
  assert (Hrange : (Metal.index layer <? Metal.index top)
                   || (Metal.index top + 1 <? Metal.index layer) = false).
  { apply orb_false_iff. split; apply Z.ltb_ge; lia. }
  rewrite Hrange. fold orientation. rewrite Hbounds. rewrite bind_run. unfold lift at 1.
  rewrite bind_run.
  set (layer_pwr_obs := filter _ pwr_obs).
  assert (Hobs' : Forall has_extent layer_pwr_obs).
  { apply (incl_Forall (incl_filter _ pwr_obs)). exact Hobs. }
  assert (Hchecks : exists s1,
    (if (Metal.index layer =? Metal.index top + (if check_abut then 0 else 1))
        && (0 <? Z.of_nat (List.length layer_pwr_obs))
     then match PlacementConstraint.width macro, PlacementConstraint.height macro with
          | Some mw, Some mh => check_obstructions layer macro orientation mw mh layer_pwr_obs
          | _, _ => ret tt
          end
     else ret tt) s = (Ok tt, s1)
    /\ _hardmacro_power_straps s1 = _hardmacro_power_straps s).
  { destruct (_ && _); [ | exists s; split; reflexivity].
    destruct (PlacementConstraint.width macro) as [mw|]; [ | exists s; split; reflexivity].
    destruct (PlacementConstraint.height macro) as [mh|]; [ | exists s; split; reflexivity].
    apply check_obstructions_ok. exact Hobs'. }
  destruct Hchecks as (s1 & Hchecks & Hrec1). rewrite Hchecks.
  apply Qeqb_false_iff in Hpitch. apply Qeqb_false_iff in Hdbu.
  assert (Hrest : forall d, d = Metal.direction layer -> d <> Redistribution ->
    exists s',
      (offset_trans0 <-
         lift (decimal_rem
                 (offset - (if RoutingDirection_eqb d Vertical
                            then PlacementConstraint.x macro
                            else PlacementConstraint.y macro))%Q pitch) ;;
       let last_edge :=
         (offset_trans0 + inject_Z (Z.of_nat (List.length nets) - 1) * (width + spacing)
          + width)%Q in
       let oob := group_does_not_fit layer macro orientation last_edge in
       when (oob && (Metal.index layer =? Metal.index top + (if check_abut then 0 else 1)))
            (if check_abut
             then log (CannotAbutError (PlacementConstraint.path macro) (Metal.name layer))
             else log (CannotViaDownError (PlacementConstraint.path macro) (Metal.name layer))) ;;;
       r <- lift (make_record master top_layer macro orientation layer_name layer nets
                    width spacing pitch offset_trans0 dbu) ;;
       append_record r) s1 = (Ok tt, s')
      /\ _hardmacro_power_straps s'
         = _hardmacro_power_straps s
           ++ [StrapRecord.mk master top_layer (PlacementConstraint.path macro) orientation
                 layer_name (Metal.direction layer) nets
                 (decimal_to_int (width / dbu)) (decimal_to_int (spacing / dbu))
                 (decimal_to_int (pitch / dbu)) (decimal_to_int (offset_trans / dbu))]).
  { intros d Hd Hd'.
    assert (Horigin : (if RoutingDirection_eqb d Vertical
                       then PlacementConstraint.x macro
                       else PlacementConstraint.y macro) = origin).
    { unfold origin. rewrite <- Hd. destruct d; reflexivity. }
    rewrite Horigin. unfold decimal_rem. rewrite Hpitch.
    rewrite bind_run. unfold lift at 1. fold offset_trans.
    unfold make_record, decimal_div. rewrite Hdbu. cbn [rbind].
    rewrite bind_run.
    destruct (group_does_not_fit layer macro orientation _
              && (Metal.index layer =? Metal.index top + (if check_abut then 0 else 1)));
      cbn [when].
    - destruct check_abut; unfold log at 1; cbv beta;
        rewrite bind_run; unfold lift at 1; unfold append_record;
        eexists; (split; [reflexivity | ]); cbn [_hardmacro_power_straps];
        rewrite Hrec1; reflexivity.
    - unfold ret at 1. rewrite bind_run. unfold lift at 1. unfold append_record.
      eexists. split; [reflexivity | ]. cbn [_hardmacro_power_straps].
      rewrite Hrec1. reflexivity. }
  destruct (Metal.direction layer) eqn:Edir.
  - apply (Hrest Vertical eq_refl). discriminate.
  - apply (Hrest Horizontal eq_refl). discriminate.
  - contradiction.
Qed.

Lemma eligible_macro_is_recorded_witness :
  let macro := Fixture.macro "core/sram" "X" 0 0 in
  let obs := Fixture.power_obstruction "blk" 5 5 in
  exists s',
    hardmacro_body (Fixture.tool [macro; obs] true) "M2" Fixture.M2 (1 # 10) true [obs]
      24 6 1 0 None ["VSS"; "VDD"]%string macro Fixture.s0 = (Ok tt, s')
    /\ logger s' = [ObstructedError "core/sram" "M2" "blk"; CannotAbutError "core/sram" "M2"]
    /\ _hardmacro_power_straps s'
       = [StrapRecord.mk "X" "M2" "core/sram" "r0" "M2" Vertical ["VSS"; "VDD"]%string
            60 10 240 0].
Proof.
  intros macro obs.
  assert (Hdir : Metal.direction Fixture.M2 <> Redistribution) by discriminate.
  assert (Hobs : Forall has_extent [obs])
    by (repeat constructor; discriminate).
  assert (Hpitch : ~ (24 == 0)%Q) by (intros H; discriminate H).
  assert (Hdbu : ~ ((1 # 10) == 0)%Q) by (intros H; discriminate H).
  assert (Hidx : Metal.index Fixture.M2 <= Metal.index Fixture.M2
                 <= Metal.index Fixture.M2 + 1) by (simpl; lia).
  destruct (eligible_macro_is_recorded (Fixture.tool [macro; obs] true) "M2" Fixture.M2
              (1 # 10) true [obs] 24 6 1 0 None ["VSS"; "VDD"]%string macro "X"%string
              "M2"%string Fixture.M2 Fixture.s0
              eq_refl I eq_refl eq_refl eq_refl Hidx eq_refl Hdir Hobs Hpitch Hdbu)
    as (s' & Hrun & Hrec).
  exists s'. split; [exact Hrun | ].
  vm_compute in Hrun. injection Hrun as <-. split; reflexivity.
Defined.

(** C9 fails as stated on a layer of the redistribution direction: the
    instance passes the eligibility tests (master X, no allow-list, not
    physical-only, top layer M2 of index 2 under the strap layer RDL of
    index 3) and the bounds test, and no record is appended. *)
Lemma eligible_macro_is_recorded_counterexample :
  let macro := Fixture.macro "core/sram" "X" 0 0 in
  let self := Fixture.tool [macro] false in
  PlacementConstraint.master macro = Some "X"%string
  /\ Tool.power_straps_abutment_macros self = None
  /\ get_or_else (PlacementConstraint.create_physical macro) false = false
  /\ PlacementConstraint.top_layer macro = Some "M2"%string
  /\ Stackup.get_metal (Tool.get_stackup self) "M2" = Ok Fixture.M2
  /\ Stackup.get_metal (Tool.get_stackup self) "RDL" = Ok Fixture.RDL
  /\ Metal.index Fixture.RDL = Metal.index Fixture.M2 + 1
  /\ bounds_check macro "r0" None = Ok false
  /\ hardmacro_body self "RDL" Fixture.RDL (1 # 10) false [] 24 3 1 0 None
       ["VSS"; "VDD"]%string macro Fixture.s0 = (Ok tt, Fixture.s0)
  /\ _get_power_straps_for_hardmacros self "RDL" 24 3 1 0 None ["VSS"; "VDD"]%string
       Fixture.s0 = (Ok tt, Fixture.s0).
Proof.
  vm_compute. repeat split; reflexivity.
Qed.

(** ** The bounds test *)

(** The value tested on line 889 is that of line 888 alone: the instance is
    skipped only when its origin lies beyond the upper right corner. *)
Lemma bounds_check_upper_right_only macro orientation x0 y0 x1 y1 rest :
  bounds_check macro orientation (Some (x0 :: y0 :: x1 :: y1 :: rest))
  = Ok (Qgtb (PlacementConstraint.x macro) x1 || Qgtb (PlacementConstraint.y macro) y1).
Proof.
  unfold bounds_check.
  destruct (PlacementConstraint.width macro) as [mw|],
           (PlacementConstraint.height macro) as [mh|];
    cbn [rbind]; unfold py_or, lt_bbox, gt_bbox, bbox_get; cbn [nth_error rbind];
    repeat match goal with
           | |- context [if ?c then _ else _] => destruct c; cbn [rbind orb]
           end;
    reflexivity.
Qed.

(** C3 at a failing input: a 10 by 10 instance at the origin lies wholly
    outside the box (100, 100)-(200, 200); the bounds test lets it pass,
    nothing is logged and its record is appended. *)
Theorem macro_left_of_bbox_is_recorded :
  let macro := Fixture.macro "core/sram" "X" 0 0 in
  let bbox := Some [100; 100; 200; 200]%Q in
  bounds_check macro "r0" bbox = Ok false
  /\ _get_power_straps_for_hardmacros (Fixture.tool [macro] true) "M2" 24 3 1 0 bbox
       ["VSS"; "VDD"]%string Fixture.s0
     = (Ok tt,
        mkState []
          [StrapRecord.mk "X" "M2" "core/sram" "r0" "M2" Vertical ["VSS"; "VDD"]%string
             30 10 240 0]
          None).
Proof.
  vm_compute. split; reflexivity.
Qed.

(** ** Weighted striping *)

(** A position beyond the list of power nets raises: the list is indexed by the
    position itself, not by the net the position stands for. *)
Lemma group_body_index_error self layer_name layer last blockage_spacing track_pitch
    track_width track_spacing track_start track_offset offset sum_weights ground_net
    power_nets bbox add_pins layer_is_all_power antenna_trim_shape pattern output i s :
  (List.length power_nets <= i)%nat ->
  group_body self layer_name layer last blockage_spacing track_pitch track_width
    track_spacing track_start track_offset offset sum_weights ground_net power_nets
    bbox add_pins layer_is_all_power antenna_trim_shape pattern output i s
  = (Err IndexError, s).
Proof.
  intros Hi. unfold group_body, list_get.
  apply nth_error_None in Hi. rewrite Hi. reflexivity.
Qed.

(** C1 at a failing input: with power nets [A; B] and weights [2; 1] the
    first two positions are built for the net pairs [G; A] and [G; B], and
    the third raises an [IndexError], with which the generation ends. *)
Theorem weights_2_1_index_error :
  let self := Fixture.tool [] true in
  let group := group_body self "M2" Fixture.M2 Fixture.M1 0 24 3 0 0 0 0 3 "G"
                 ["A"; "B"]%string None false false "none" "default" in
  for_acc (range 2) [] group Fixture.s0
  = (Ok [specify_power_straps "M2" "M1" 0 (inject_Z 72 * 1)%Q (inject_Z 3) (1 # 2)
           (0 + 0 + inject_Z (24 * 0) * 1 + inject_Z 0 * 1 + (1 # 4))%Q None
           ["G"; "A"]%string false "none";
         specify_power_straps "M2" "M1" 0 (inject_Z 72 * 1)%Q (inject_Z 3) (1 # 2)
           (0 + 0 + inject_Z (24 * 1) * 1 + inject_Z 0 * 1 + (1 # 4))%Q None
           ["G"; "B"]%string false "none"],
     Fixture.s0)
  /\ group [] 2%nat Fixture.s0 = (Err IndexError, Fixture.s0)
  /\ fst (specify_all_power_straps_by_tracks self ["M2"]%string "M1" "G"
            ["A"; "B"]%string [2; 1] None [] false Fixture.s0)
     = Err IndexError.
Proof.
  split; [ | split]; reflexivity.
Qed.

(** ** The aggregator: [statistics.mode] *)

Lemma counted_incr x c y :
  counted (counter_incr x c) y = if y =? x then S (counted c y) else counted c y.
Proof.
  induction c as [|[k n] c IH]; simpl.
  - destruct (y =? x); reflexivity.
  - destruct (x =? k) eqn:Exk; simpl.
    + apply Z.eqb_eq in Exk. subst k. destruct (y =? x); reflexivity.
    + destruct (y =? k) eqn:Eyk.
      * apply Z.eqb_eq in Eyk. subst k. rewrite Z.eqb_sym, Exk. reflexivity.
      * exact IH.
Qed.

Lemma occurrences_cons x y l :
  occurrences x (y :: l) = ((if (x =? y)%Z then 1 else 0) + occurrences x l)%nat.
Proof. unfold occurrences. simpl. destruct (x =? y); reflexivity. Qed.

Lemma counted_fold l : forall c y,
  counted (fold_left (fun c x => counter_incr x c) l c) y
  = (counted c y + occurrences y l)%nat.
Proof.
  induction l as [|x l IH]; intros c y; simpl.
  - unfold occurrences. simpl. lia.
  - rewrite IH, counted_incr, occurrences_cons. destruct (y =? x); lia.
Qed.

Lemma counted_Counter l y : counted (Counter l) y = occurrences y l.
Proof. unfold Counter. rewrite counted_fold. reflexivity. Qed.

Lemma counter_incr_keys x c k :
  In k (map fst (counter_incr x c)) -> k = x \/ In k (map fst c).
Proof.
  induction c as [|[y n] c IH]; simpl.
  - intros [H | []]. left. symmetry. exact H.
  - destruct (x =? y); simpl.
    + intros H. right. exact H.
    + intros [H | H]; [right; left; exact H | ].
      destruct (IH H) as [E | E]; [left; exact E | right; right; exact E].
Qed.

Lemma counter_incr_NoDup x c :
  NoDup (map fst c) -> NoDup (map fst (counter_incr x c)).
Proof.
  induction c as [|[y n] c IH]; simpl; intros Hnd.
  - constructor; [intros [] | constructor].
  - inversion Hnd as [|? ? Hnot Hnd']; subst.
    destruct (x =? y) eqn:E; simpl.
    + constructor; assumption.
    + constructor; [ | apply IH; exact Hnd'].
      intros Hin. apply counter_incr_keys in Hin. destruct Hin as [Hin | Hin].
      * subst y. rewrite Z.eqb_refl in E. discriminate E.
      * contradiction.
Qed.

Lemma Counter_NoDup l : NoDup (map fst (Counter l)).
Proof.
  unfold Counter.
  assert (H : forall c, NoDup (map fst c) ->
                        NoDup (map fst (fold_left (fun c x => counter_incr x c) l c))).
  { induction l as [|x l IH]; intros c Hc; simpl; [exact Hc | ].
    apply IH, counter_incr_NoDup, Hc. }
  apply H. constructor.
Qed.

Lemma counted_of_entry c k n :
  NoDup (map fst c) -> In (k, n) c -> counted c k = n.
Proof.
  induction c as [|[y m] c IH]; simpl; intros Hnd Hin; [contradiction | ].
  inversion Hnd as [|? ? Hnot Hnd']; subst.
  destruct Hin as [H | H].
  - injection H as -> ->. rewrite Z.eqb_refl. reflexivity.
  - destruct (k =? y) eqn:E.
    + apply Z.eqb_eq in E. subst y. exfalso. apply Hnot.
      apply (in_map fst) in H. exact H.
    + apply IH; assumption.
Qed.

Lemma entry_of_counted c k :
  counted c k <> O -> In (k, counted c k) c.
Proof.
  induction c as [|[y m] c IH]; simpl; intros H; [contradiction | ].
  destruct (k =? y) eqn:E.
  - apply Z.eqb_eq in E. subst y. left. reflexivity.
  - right. apply IH, H.
Qed.

Lemma first_max_spec c : forall best,
  In (first_max best c) (best :: c)
  /\ forall p, In p (best :: c) -> (snd p <= snd (first_max best c))%nat.
Proof.
  induction c as [|q c IH]; intros best; simpl.
  - split; [left; reflexivity | ]. intros p [<- | []]. lia.
  - destruct (snd best <? snd q)%nat eqn:E.
    + apply Nat.ltb_lt in E. destruct (IH q) as [Hin Hmax]. split.
      * right. exact Hin.
      * intros p [<- | Hp]; [ | apply Hmax, Hp].
        specialize (Hmax q (or_introl eq_refl)). lia.
    + apply Nat.ltb_ge in E. destruct (IH best) as [Hin Hmax]. split.
      * destruct Hin as [Hin | Hin]; [left; exact Hin | right; right; exact Hin].
      * intros p [<- | [<- | Hp]].
        -- apply Hmax. left. reflexivity.
        -- specialize (Hmax best (or_introl eq_refl)). lia.
        -- apply Hmax. right. exact Hp.
Qed.

Lemma occurrences_pos_In x l : occurrences x l <> O -> In x l.
Proof.
  unfold occurrences. intros H.
  destruct (filter (Z.eqb x) l) as [|y f] eqn:E; [contradiction | ].
  assert (Hy : In y (filter (Z.eqb x) l)) by (rewrite E; left; reflexivity).
  apply filter_In in Hy. destruct Hy as [Hy Hxy].
  apply Z.eqb_eq in Hxy. subst y. exact Hy.
Qed.

Lemma In_occurrences_pos x l : In x l -> occurrences x l <> O.
Proof.
  unfold occurrences. intros H.
  assert (Hx : In x (filter (Z.eqb x) l)).
  { apply filter_In. split; [exact H | apply Z.eqb_refl]. }
  destruct (filter (Z.eqb x) l); [contradiction | discriminate].
Qed.

(** The mode of data that is not empty is one of the data, and no value
    occurs more often. *)
Lemma mode_spec l :
  l <> [] ->
  exists v, mode l = Ok v /\ In v l /\ forall x, (occurrences x l <= occurrences v l)%nat.
Proof.
  intros Hne. unfold mode.
  destruct l as [|x0 l0]; [contradiction | ]. set (l := x0 :: l0) in *.
  assert (Hx0 : occurrences x0 l <> O) by (apply In_occurrences_pos; left; reflexivity).
  pose proof (Counter_NoDup l) as Hnd.
  assert (Hentry : forall x, occurrences x l <> O -> In (x, occurrences x l) (Counter l)).
  { intros x Hx. rewrite <- counted_Counter. apply entry_of_counted.
    rewrite counted_Counter. exact Hx. }
  destruct (Counter l) as [|p c] eqn:Ec.
  - destruct (Hentry x0 Hx0).
  - destruct (first_max_spec c p) as [Hin Hmax].
    destruct (first_max p c) as [v n] eqn:Ev. simpl in Hmax.
    assert (Hn : n = occurrences v l).
    { rewrite <- counted_Counter, Ec. symmetry.
      apply counted_of_entry; [exact Hnd | exact Hin]. }
    exists v. split; [reflexivity | ].
    assert (Hle : forall x, (occurrences x l <= occurrences v l)%nat).
    { intros x. destruct (Nat.eq_dec (occurrences x l) O) as [E | E]; [lia | ].
      rewrite <- Hn. apply (Hmax (x, occurrences x l)). apply Hentry, E. }
    split; [ | exact Hle].
    apply occurrences_pos_In. specialize (Hle x0). lia.
Qed.

(** ** The aggregator: the loop over the variants *)

Lemma occurrences_offsets v recs :
  occurrences v (map StrapRecord.offset recs) = List.length (filter (same_offset v) recs).
Proof.
  unfold occurrences, same_offset. induction recs as [|m recs IH]; simpl; [reflexivity | ].
  rewrite (Z.eqb_sym v). destruct (StrapRecord.offset m =? v); simpl; rewrite IH; reflexivity.
Qed.

(** One turn of the loop takes at least one record away. *)
Lemma mode_offsets recs :
  recs <> [] ->
  exists v inst0 rest,
    mode (map StrapRecord.offset recs) = Ok v
    /\ filter (same_offset v) recs = inst0 :: rest
    /\ (List.length (filter (other_offset v) recs) < List.length recs)%nat.
Proof.
  intros Hne.
  destruct (mode_spec (map StrapRecord.offset recs)) as (v & Hmode & Hin & _).
  { destruct recs; [contradiction | discriminate]. }
  apply In_occurrences_pos in Hin. rewrite occurrences_offsets in Hin.
  destruct (filter (same_offset v) recs) as [|inst0 rest] eqn:E; [contradiction | ].
  exists v, inst0, rest. split; [exact Hmode | ]. split; [exact E | ].
  pose proof (filter_length (same_offset v) recs) as Hlen.
  rewrite E in Hlen. simpl in Hlen.
  change (fun x => negb (same_offset v x)) with (other_offset v) in Hlen. lia.
Qed.

(** The loop over the variants of a master always ends with a report: the
    bound it is run with is never reached. *)
Lemma variants_loop_fuel fuel :
  forall master above_insts abut_insts bad_orient_insts variant_cnt output misaligned_insts,
    (List.length abut_insts + List.length bad_orient_insts <= fuel)%nat ->
    exists r,
      variants_loop fuel master above_insts abut_insts bad_orient_insts variant_cnt
        output misaligned_insts = Ok r.
Proof.
  induction fuel as [|fuel IH];
    intros master above_insts abut_insts bad_orient_insts variant_cnt output
           misaligned_insts Hfuel; cbn [variants_loop].
  - destruct (0 <? _)%nat eqn:E; [apply Nat.ltb_lt in E; lia | eexists; reflexivity].
  - destruct (0 <? List.length abut_insts + List.length bad_orient_insts)%nat eqn:E;
      [ | eexists; reflexivity].
    apply Nat.ltb_lt in E.
    destruct (0 <? List.length abut_insts)%nat eqn:Eabut.
    + apply Nat.ltb_lt in Eabut.
      destruct (mode_offsets abut_insts) as (v & inst0 & rest & Hmode & Hinsts & Hless).
      { destruct abut_insts; [simpl in Eabut; lia | discriminate]. }
      rewrite Hmode. cbn [rbind]. rewrite Hinsts.
      destruct above_insts; apply IH; lia.
    + apply Nat.ltb_ge in Eabut.
      destruct (mode_offsets bad_orient_insts) as (v & inst0 & rest & Hmode & Hinsts & Hless).
      { destruct bad_orient_insts; [simpl in E; lia | discriminate]. }
      rewrite Hmode. cbn [rbind]. rewrite Hinsts.
      destruct above_insts; apply IH; lia.
Qed.

Lemma filter_all {A} (f : A -> bool) l :
  Forall (fun x => f x = true) l -> filter f l = l.
Proof.
  induction 1 as [|x l Hx _ IH]; simpl; [reflexivity | ].
  rewrite Hx, IH. reflexivity.
Qed.

Lemma filter_none {A} (f : A -> bool) l :
  Forall (fun x => f x = false) l -> filter f l = [].
Proof.
  induction 1 as [|x l Hx _ IH]; simpl; [reflexivity | ].
  rewrite Hx, IH. reflexivity.
Qed.

Lemma filter_r_all {A} (p : A -> result bool) l :
  Forall (fun x => p x = Ok true) l -> filter_r p l = Ok l.
Proof.
  induction 1 as [|x l Hx _ IH]; simpl; [reflexivity | ].
  rewrite Hx, IH. reflexivity.
Qed.

Lemma filter_r_none {A} (p : A -> result bool) l :
  Forall (fun x => p x = Ok false) l -> filter_r p l = Ok [].
Proof.
  induction 1 as [|x l Hx _ IH]; simpl; [reflexivity | ].
  rewrite Hx, IH. reflexivity.
Qed.

Lemma distinct_same x l :
  l <> [] -> Forall (eq x) l -> distinct l = [x].
Proof.
  intros Hne Hall. induction Hall as [|y l <- Hall IH]; [contradiction | ].
  simpl. destruct l as [|z l].
  - reflexivity.
  - rewrite IH by discriminate. simpl. rewrite String.eqb_refl. reflexivity.
Qed.

Lemma is_abut_on_top m : is_abut_inst m = Ok true -> on_top_layer m = true.
Proof.
  unfold is_abut_inst. destruct (on_top_layer m); [reflexivity | discriminate].
Qed.

Lemma is_abut_not_bad m : is_abut_inst m = Ok true -> is_bad_orient_inst m = Ok false.
Proof.
  unfold is_abut_inst, is_bad_orient_inst.
  destruct (on_top_layer m); [ | discriminate].
  destruct (valid_orients (StrapRecord.direction m)); simpl; [ | discriminate].
  intros H. injection H as ->. reflexivity.
Qed.

Lemma log_logged e s : log e s = (Ok tt, logged [e] s).
Proof. reflexivity. Qed.

Lemma logged_nil s : logged [] s = s.
Proof. destruct s. unfold logged. simpl. rewrite app_nil_r. reflexivity. Qed.

Lemma logged_logged es1 es2 s : logged es2 (logged es1 s) = logged (es1 ++ es2) s.
Proof. unfold logged. simpl. rewrite app_assoc. reflexivity. Qed.

(** The loop on five records at offset 10 and three at offset 20. *)
Lemma variants_two_groups X fuel recs output :
  Forall (fun m => StrapRecord.offset m = 10 \/ StrapRecord.offset m = 20) recs ->
  List.length (filter (same_offset 10) recs) = 5%nat ->
  List.length (filter (same_offset 20) recs) = 3%nat ->
  (2 <= fuel)%nat ->
  exists first10 first20,
    hd_error (filter (same_offset 10) recs) = Some first10
    /\ hd_error (filter (same_offset 20) recs) = Some first20
    /\ variants_loop fuel X [] recs [] 0 output []
       = Ok (output
             ++ [(X, [describe first10 (Some 10) (filter (same_offset 10) recs)]);
                 ((X ++ "_1")%string,
                  [describe first20 (Some 20) (filter (same_offset 20) recs)])],
             [(X, map StrapRecord.path (filter (same_offset 20) recs))]).
Proof.
  intros Hoff H10 H20 Hfuel.
  assert (Hmode1 : mode (map StrapRecord.offset recs) = Ok 10).
  { destruct (mode_spec (map StrapRecord.offset recs)) as (v & Hmode & Hin & Hmax).
    { destruct recs; [discriminate H10 | discriminate]. }
    apply in_map_iff in Hin. destruct Hin as (m & Hm & Hin).
    subst v. rewrite Forall_forall in Hoff.
    destruct (Hoff m Hin) as [E | E]; rewrite E in *; [exact Hmode | ].
    specialize (Hmax 10). rewrite !occurrences_offsets in Hmax. lia. }
  assert (Hother : filter (other_offset 10) recs = filter (same_offset 20) recs).
  { apply filter_ext_in. intros m Hin. rewrite Forall_forall in Hoff.
    unfold other_offset, same_offset. destruct (Hoff m Hin) as [E | E]; rewrite E; reflexivity. }
  assert (Hrecs : (0 < List.length recs)%nat).
  { pose proof (filter_length_le (same_offset 10) recs). lia. }
  remember (filter (same_offset 10) recs) as majority eqn:Emaj.
  remember (filter (same_offset 20) recs) as variant eqn:Evar.
  assert (Hvar20 : Forall (fun m => same_offset 20 m = true) variant).
  { apply Forall_forall. intros m Hin. rewrite Evar in Hin.
    apply filter_In in Hin. apply Hin. }
  assert (Hmode2 : mode (map StrapRecord.offset variant) = Ok 20).
  { destruct (mode_spec (map StrapRecord.offset variant)) as (v & Hmode & Hin & _).
    { destruct variant; [discriminate H20 | discriminate]. }
    apply in_map_iff in Hin. destruct Hin as (m & Hm & Hin). subst v.
    rewrite Forall_forall in Hvar20. specialize (Hvar20 m Hin).
    unfold same_offset in Hvar20. apply Z.eqb_eq in Hvar20. rewrite Hmode, Hvar20.
    reflexivity. }
  assert (Hsame2 : filter (same_offset 20) variant = variant).
  { apply filter_all. exact Hvar20. }
  assert (Hother2 : filter (other_offset 20) variant = []).
  { apply filter_none. apply Forall_forall. intros m Hin.
    rewrite Forall_forall in Hvar20. unfold other_offset.
    rewrite (Hvar20 m Hin : (StrapRecord.offset m =? 20) = true). reflexivity. }
  destruct majority as [|first10 rest10]; [discriminate H10 | ].
  destruct variant as [|first20 rest20]; [discriminate H20 | ].
  exists first10, first20. split; [reflexivity | ]. split; [reflexivity | ].
  destruct fuel as [|[|fuel]]; [lia | lia | ].
  cbn [variants_loop].
  assert (H1 : (0 <? List.length recs + List.length (@nil StrapRecord.t))%nat = true)
    by (apply Nat.ltb_lt; lia).
  assert (H2 : (0 <? List.length recs)%nat = true) by (apply Nat.ltb_lt; lia).
  rewrite H1, H2, Hmode1. cbn [rbind]. rewrite Hother, <- Emaj.
  cbn [List.length Nat.add Nat.ltb Nat.leb].
  rewrite Hmode2. cbn [rbind]. rewrite Hsame2, Hother2.
  cbn [misaligned_add List.length Nat.add Nat.ltb Nat.leb].
  rewrite <- app_assoc.
  destruct fuel; reflexivity.
Qed.

(** The body of the loop over the masters, when every record is an abutting
    instance of the one master. *)
Lemma master_body_all_abut check_abut X recs r0 output misaligned_insts s :
  hd_error recs = Some r0 ->
  Forall (fun m => StrapRecord.master m = X /\ is_abut_inst m = Ok true) recs ->
  master_body check_abut recs (output, misaligned_insts) X s
  = (variants_loop (List.length recs + 0) X [] recs [] 0 output misaligned_insts,
     logged ((if (1 <? List.length (distinct (map StrapRecord.top_layer recs)))%nat
              then [ConflictingTopLayerError X] else [])
             ++ (if check_abut then []
                 else [SameAsTopLayerError X (StrapRecord.layer r0)])) s).
Proof.
  intros Hhd Hall.
  assert (Hinsts : filter (fun m => String.eqb (StrapRecord.master m) X) recs = recs).
  { apply filter_all. eapply Forall_impl; [ | exact Hall].
    intros m [Hm _]. rewrite Hm. apply String.eqb_refl. }
  assert (Habove : filter (fun m => negb (on_top_layer m)) recs = []).
  { apply filter_none. eapply Forall_impl; [ | exact Hall].
    intros m [_ Hm]. rewrite (is_abut_on_top m Hm). reflexivity. }
  assert (Habut : filter_r is_abut_inst recs = Ok recs).
  { apply filter_r_all. eapply Forall_impl; [ | exact Hall]. intros m [_ Hm]. exact Hm. }
  assert (Hbad : filter_r is_bad_orient_inst recs = Ok []).
  { apply filter_r_none. eapply Forall_impl; [ | exact Hall].
    intros m [_ Hm]. apply is_abut_not_bad, Hm. }
  unfold master_body. rewrite Hinsts, Habove, Habut, Hbad.
  rewrite bind_run.
  assert (Hsame : forall s1,
    match recs with
    | inst0 :: _ =>
        when (negb check_abut) (log (SameAsTopLayerError X (StrapRecord.layer inst0)))
    | [] => ret tt
    end s1
    = (Ok tt, logged (if check_abut then []
                      else [SameAsTopLayerError X (StrapRecord.layer r0)]) s1)).
  { intros s1. destruct recs as [|r rest]; [discriminate Hhd | ].
    injection Hhd as ->. destruct check_abut; cbn [negb when].
    - unfold ret. rewrite logged_nil. reflexivity.
    - apply log_logged. }
  destruct (1 <? List.length (distinct (map StrapRecord.top_layer recs)))%nat;
    cbn [when]; [rewrite log_logged | unfold ret at 1];
    rewrite bind_run, Hsame, ?logged_logged;
    rewrite bind_run; unfold lift at 1; rewrite bind_run; unfold lift at 1;
    unfold lift; cbn [List.length app]; reflexivity.
Qed.

(** C4: when the records are five instances of master X at offset 10 and
    three at offset 20, all abutting (on their top layer, in a valid
    orientation), the report has exactly two entries: [X] with the five
    paths at offset 10 and [X_1] with the three paths at offset 20; under
    strict abutment checking one aggregate error is logged, for X and the
    three paths at offset 20. *)
Theorem abutment_majority self X recs s :
  _hardmacro_power_straps s = recs ->
  Forall (fun m => StrapRecord.master m = X
                   /\ is_abut_inst m = Ok true
                   /\ (StrapRecord.offset m = 10 \/ StrapRecord.offset m = 20)) recs ->
  List.length (filter (same_offset 10) recs) = 5%nat ->
  List.length (filter (same_offset 20) recs) = 3%nat ->
  let majority := filter (same_offset 10) recs in
  let variant := filter (same_offset 20) recs in
  let top_layer_conflict :=
    if (1 <? List.length (distinct (map StrapRecord.top_layer recs)))%nat
    then [ConflictingTopLayerError X] else [] in
  exists first10 first20 s',
    hd_error majority = Some first10
    /\ hd_error variant = Some first20
    /\ _dump_power_straps_for_hardmacros self s = (Ok tt, s')
    /\ power_straps_json s'
       = Some [(X, [describe first10 (Some 10) majority]);
               ((X ++ "_1")%string, [describe first20 (Some 20) variant])]
    /\ map Desc.inst_paths [describe first10 (Some 10) majority;
                            describe first20 (Some 20) variant]
       = [map StrapRecord.path majority; map StrapRecord.path variant]
    /\ (Tool.power_straps_abutment self = true ->
        logger s'
        = logger s ++ top_layer_conflict
          ++ [MisalignedError [(X, map StrapRecord.path variant)]]).
Proof.
  intros Hacc Hall H10 H20 majority variant top_layer_conflict.
  assert (Hr0 : exists r0, hd_error recs = Some r0).
  { destruct recs; [discriminate H10 | eexists; reflexivity]. }
  destruct Hr0 as [r0 Hr0].
  assert (Habut : Forall (fun m => StrapRecord.master m = X /\ is_abut_inst m = Ok true) recs).
  { eapply Forall_impl; [ | exact Hall]. intros m (H1 & H2 & _). split; assumption. }
  assert (Hoff : Forall (fun m => StrapRecord.offset m = 10 \/ StrapRecord.offset m = 20) recs).
  { eapply Forall_impl; [ | exact Hall]. intros m (_ & _ & H3). exact H3. }
  assert (Hfuel : (2 <= List.length recs + 0)%nat).
  { pose proof (filter_length_le (same_offset 10) recs). lia. }
  destruct (variants_two_groups X (List.length recs + 0) recs [] Hoff H10 H20 Hfuel)
    as (first10 & first20 & Hhd10 & Hhd20 & Hloop).
  assert (Hmasters : distinct (map StrapRecord.master recs) = [X]).
  { apply distinct_same; [destruct recs; [discriminate H10 | discriminate] | ].
    apply Forall_map. eapply Forall_impl; [ | exact Hall].
    intros m (H1 & _). symmetry. exact H1. }
  exists first10, first20.
  unfold _dump_power_straps_for_hardmacros.
  rewrite bind_run. unfold read_records at 1. rewrite Hacc, Hmasters.
  cbn [for_acc]. rewrite !bind_run.
  rewrite (master_body_all_abut _ X recs r0 [] [] s Hr0 Habut).
  rewrite Hloop. unfold ret at 1. cbn [app].
  fold majority. fold variant. fold top_layer_conflict.
  destruct (Tool.power_straps_abutment self) eqn:Eabut.
  - cbn [andb List.length Nat.ltb Nat.leb when].
    eexists. split; [exact Hhd10 | ]. split; [exact Hhd20 | ].
    split; [rewrite bind_run, log_logged, logged_logged; unfold write_report; reflexivity | ].
    split; [reflexivity | ]. split; [reflexivity | ].
    intros _. cbn [logger logged]. rewrite app_nil_r. reflexivity.
  - cbn [andb when].
    eexists. split; [exact Hhd10 | ]. split; [exact Hhd20 | ].
    split; [rewrite bind_run; unfold ret at 1, write_report; reflexivity | ].
    split; [reflexivity | ]. split; [reflexivity | ].
    intros H. discriminate H.
Qed.

Lemma abutment_majority_witness :
  exists s',
    _dump_power_straps_for_hardmacros (Fixture.tool [] true)
      (mkState [] Fixture.eight_records None) = (Ok tt, s')
    /\ map (fun e => (fst e, map Desc.offset (snd e), map Desc.inst_paths (snd e)))
           (get_or_else (power_straps_json s') [])
       = [("X"%string, [Some 10], [["i0"; "i2"; "i4"; "i5"; "i7"]%string]);
          ("X_1"%string, [Some 20], [["i1"; "i3"; "i6"]%string])]
    /\ logger s' = [MisalignedError [("X"%string, ["i1"; "i3"; "i6"]%string)]].
Proof.
  assert (Hall :
    Forall (fun m => StrapRecord.master m = "X"%string
                     /\ is_abut_inst m = Ok true
                     /\ (StrapRecord.offset m = 10 \/ StrapRecord.offset m = 20))
           Fixture.eight_records).
  { unfold Fixture.eight_records.
    repeat constructor; solve [left; reflexivity | right; reflexivity]. }
  destruct (abutment_majority (Fixture.tool [] true) "X"%string Fixture.eight_records
              (mkState [] Fixture.eight_records None) eq_refl Hall eq_refl eq_refl)
    as (first10 & first20 & s' & Hhd10 & Hhd20 & Hrun & Hjson & _ & Hlog).
  exists s'. split; [exact Hrun | ].
  injection Hhd10 as <-. injection Hhd20 as <-.
  split.
  - rewrite Hjson. reflexivity.
  - rewrite (Hlog eq_refl). reflexivity.
Defined.

(** ** The recorder: what a call leaves behind *)

Lemma check_obstructions_same_records layer macro orientation mw mh obs :
  preserves same_records (check_obstructions layer macro orientation mw mh obs).
Proof.
  obstructions_pres same_records_refl same_records_trans ltac:(pres_same_records).
Qed.

(** X1: an instance that fails one of the eligibility tests (no master, a
    master outside the allow-list, physical-only, no top layer, a strap layer
    below the top layer or more than one above it) is passed over: nothing
    is logged and nothing is recorded. *)
Theorem ineligible_macro_is_skipped self layer_name layer dbu check_abut pwr_obs
    pitch width spacing offset bbox nets macro s :
  skipped_as_ineligible self layer macro ->
  hardmacro_body self layer_name layer dbu check_abut pwr_obs
    pitch width spacing offset bbox nets macro s = (Ok tt, s).
Proof.
  intros Hskip. unfold hardmacro_body.
  destruct (PlacementConstraint.master macro) as [master|] eqn:Emaster; [ | reflexivity].
  destruct (match Tool.power_straps_abutment_macros self with
            | Some macros => negb (str_in master macros)
            | None => false
            end) eqn:Eallow; [reflexivity | ].
  destruct (get_or_else (PlacementConstraint.create_physical macro) false) eqn:Ephys;
    [reflexivity | ].
  destruct (PlacementConstraint.top_layer macro) as [top_layer|] eqn:Etop; [ | reflexivity].
  destruct Hskip as [H | [H | [H | [H | H]]]].
  - congruence.
  - destruct H as (m & macros & Hm & Hmacros & Hin).
    assert (m = master) by congruence. subst m.
    rewrite Hmacros, Hin in Eallow. discriminate Eallow.
  - rewrite H in Ephys. discriminate Ephys.
  - congruence.
  - destruct H as (tl & top & Htl & Hmetal & Hidx).
    assert (tl = top_layer) by congruence. subst tl. rewrite Hmetal. rewrite bind_run. unfold lift at 1.
    assert (Hout : (Metal.index layer <? Metal.index top)
                   || (Metal.index top + 1 <? Metal.index layer) = true).
    { apply orb_true_iff. destruct Hidx; [left | right]; apply Z.ltb_lt; assumption. }
    rewrite Hout. reflexivity.
Qed.

Lemma ineligible_macro_is_skipped_witness :
  let physical :=
    PlacementConstraint.mk "core/fill" HardMacro 0 0 (Some 10%Q) (Some 10%Q) (Some "X"%string)
      (Some true) None (Some "M2"%string) None None in
  hardmacro_body (Fixture.tool [physical] true) "M2" Fixture.M2 (1 # 10) true []
    24 3 1 0 None ["VSS"; "VDD"]%string physical Fixture.s0 = (Ok tt, Fixture.s0)
  /\ hardmacro_body (Fixture.tool [] true) "M4" Fixture.M4 (1 # 10) true []
       24 3 1 0 None ["VSS"; "VDD"]%string (Fixture.macro "core/sram" "X" 0 0) Fixture.s0
     = (Ok tt, Fixture.s0).
Proof.
  split.
  - apply ineligible_macro_is_skipped. right. right. left. reflexivity.
  - apply ineligible_macro_is_skipped. right. right. right. right.
    exists "M2"%string, Fixture.M2. split; [reflexivity | ]. split; [reflexivity | ].
    right. simpl. lia.
Defined.

(** X2: an eligible instance whose origin lies to the right of, or above, the
    bounding box is skipped with one logged error and no record. *)
Theorem macro_beyond_bbox_is_skipped self layer_name layer dbu check_abut pwr_obs
    pitch width spacing offset x0 y0 x1 y1 rest nets macro master top_layer top s :
  PlacementConstraint.master macro = Some master ->
  match Tool.power_straps_abutment_macros self with
  | Some macros => str_in master macros = true
  | None => True
  end ->
  get_or_else (PlacementConstraint.create_physical macro) false = false ->
  PlacementConstraint.top_layer macro = Some top_layer ->
  Stackup.get_metal (Tool.get_stackup self) top_layer = Ok top ->
  Metal.index top <= Metal.index layer <= Metal.index top + 1 ->
  (x1 < PlacementConstraint.x macro \/ y1 < PlacementConstraint.y macro)%Q ->
  hardmacro_body self layer_name layer dbu check_abut pwr_obs
    pitch width spacing offset (Some (x0 :: y0 :: x1 :: y1 :: rest)) nets macro s
  = (Ok tt, logged [NotInBBoxError (PlacementConstraint.path macro) (Metal.name layer)] s).
Proof.
  intros Hmaster Hallow Hphys Htop Htopm Hidx Hout.
  unfold hardmacro_body. rewrite Hmaster.
  assert (Hskip : match Tool.power_straps_abutment_macros self with
                  | Some macros => negb (str_in master macros)
                  | None => false
                  end = false).
  { destruct (Tool.power_straps_abutment_macros self); [rewrite Hallow | ]; reflexivity. }
  rewrite Hskip, Hphys, Htop, Htopm. rewrite bind_run. unfold lift at 1.
  assert (Hrange : (Metal.index layer <? Metal.index top)
                   || (Metal.index top + 1 <? Metal.index layer) = false).
  { apply orb_false_iff. split; apply Z.ltb_ge; lia. }
  rewrite Hrange, bounds_check_upper_right_only.
  assert (Hoob : Qgtb (PlacementConstraint.x macro) x1
                 || Qgtb (PlacementConstraint.y macro) y1 = true).
  { apply orb_true_iff. destruct Hout as [H | H]; [left | right];
      apply Qgtb_true_iff; exact H. }
  rewrite Hoob. rewrite bind_run. unfold lift at 1. apply log_logged.
Qed.

Lemma macro_beyond_bbox_is_skipped_witness :
  _get_power_straps_for_hardmacros
    (Fixture.tool [Fixture.macro "core/sram" "X" 300 0] true) "M2" 24 3 1 0
    (Some [100; 100; 200; 200]%Q) ["VSS"; "VDD"]%string Fixture.s0
  = (Ok tt, logged [NotInBBoxError "core/sram" "M2"] Fixture.s0).
Proof.
  assert (Hidx : Metal.index Fixture.M2 <= Metal.index Fixture.M2
                 <= Metal.index Fixture.M2 + 1) by (simpl; lia).
  assert (Hout : (200 < PlacementConstraint.x (Fixture.macro "core/sram" "X" 300 0)
                  \/ 200 < PlacementConstraint.y (Fixture.macro "core/sram" "X" 300 0))%Q)
    by (left; reflexivity).
  pose proof (macro_beyond_bbox_is_skipped
                (Fixture.tool [Fixture.macro "core/sram" "X" 300 0] true) "M2" Fixture.M2
                (1 # 10) true [] 24 3 1 0 100%Q 100%Q 200%Q 200%Q [] ["VSS"; "VDD"]%string
                (Fixture.macro "core/sram" "X" 300 0) "X"%string "M2"%string Fixture.M2
                Fixture.s0 eq_refl I eq_refl eq_refl eq_refl Hidx Hout) as Hbody.
  unfold _get_power_straps_for_hardmacros.
  change (Stackup.get_metal (Tool.get_stackup
            (Fixture.tool [Fixture.macro "core/sram" "X" 300 0] true)) "M2")
    with (Ok Fixture.M2).
  rewrite bind_run. unfold lift at 1.
  cbn [Tool.get_placement_constraints Fixture.tool filter PlacementConstraint.type
       Fixture.macro PlacementConstraintType_eqb for_each Tool.power_straps_abutment
       Tool.get_stackup Stackup.grid_unit Fixture.stackup PlacementConstraint.obs_types].
  rewrite bind_run.
  change (PlacementConstraint.mk "core/sram" HardMacro 300 0 (Some 10%Q) (Some 10%Q)
            (Some "X"%string) None None (Some "M2"%string) None None)
    with (Fixture.macro "core/sram" "X" 300 0).
  change (Tool.mk Fixture.stackup [Fixture.macro "core/sram" "X" 300 0] "M1" true None
            (Fixture.settings "default" 0 0.25%float))
    with (Fixture.tool [Fixture.macro "core/sram" "X" 300 0] true).
  rewrite Hbody. reflexivity.
Defined.

(** One turn of the loop over the hard macros leaves the record list as it
    was, or appends one record for the macro. *)
Lemma hardmacro_body_outcome self layer_name layer dbu check_abut pwr_obs
    pitch width spacing offset bbox nets macro s :
  let s' := snd (hardmacro_body self layer_name layer dbu check_abut pwr_obs
                   pitch width spacing offset bbox nets macro s) in
  _hardmacro_power_straps s' = _hardmacro_power_straps s
  \/ exists r,
       _hardmacro_power_straps s' = _hardmacro_power_straps s ++ [r]
       /\ recorded_for layer_name layer nets pitch width spacing dbu r
       /\ record_of_macro macro r.
Proof.
  intros s'. subst s'.
  set (P := fun s' =>
         _hardmacro_power_straps s' = _hardmacro_power_straps s
         \/ exists r,
              _hardmacro_power_straps s' = _hardmacro_power_straps s ++ [r]
              /\ recorded_for layer_name layer nets pitch width spacing dbu r
              /\ record_of_macro macro r).
  change (P (snd (hardmacro_body self layer_name layer dbu check_abut pwr_obs
                    pitch width spacing offset bbox nets macro s))).
  assert (Hstay : forall s1, _hardmacro_power_straps s1 = _hardmacro_power_straps s -> P s1).
  { intros s1 H. left. exact H. }
  unfold hardmacro_body.
  destruct (PlacementConstraint.master macro) as [master|] eqn:Emaster;
    [ | apply Hstay; reflexivity].
  destruct (match Tool.power_straps_abutment_macros self with
            | Some macros => negb (str_in master macros)
            | None => false
            end); [apply Hstay; reflexivity | ].
  destruct (get_or_else (PlacementConstraint.create_physical macro) false);
    [apply Hstay; reflexivity | ].
  destruct (PlacementConstraint.top_layer macro) as [top_layer|] eqn:Etop;
    [ | apply Hstay; reflexivity].
  rewrite bind_run. unfold lift at 1.
  destruct (Stackup.get_metal (Tool.get_stackup self) top_layer) as [top|e];
    [ | apply Hstay; reflexivity].
  destruct (_ || _); [apply Hstay; reflexivity | ].
  rewrite bind_run. unfold lift at 1.
  destruct (bounds_check macro _ bbox) as [[|]|e];
    [apply Hstay; reflexivity | | apply Hstay; reflexivity].
  rewrite bind_run.
  match goal with
  | |- context [match ?step s with _ => _ end] =>
      assert (Hstep : _hardmacro_power_straps (snd (step s)) = _hardmacro_power_straps s);
      [ | destruct (step s) as [[[]|e] s1]; cbn [snd] in Hstep;
          [ | apply Hstay; exact Hstep] ]
  end.
  { destruct (_ && _); [ | reflexivity].
    destruct (PlacementConstraint.width macro); [ | reflexivity].
    destruct (PlacementConstraint.height macro); [ | reflexivity].
    apply check_obstructions_same_records. }
  destruct (Metal.direction layer) eqn:Edir; [ | | apply Hstay; exact Hstep];
    rewrite bind_run; unfold lift at 1;
    (destruct (decimal_rem _ pitch) as [offset_trans|e]; [ | apply Hstay; exact Hstep]);
    rewrite bind_run;
    match goal with
    | |- context [when ?c ?m s1] =>
        assert (Hwhen : exists s2, when c m s1 = (Ok tt, s2)
                                   /\ _hardmacro_power_straps s2 = _hardmacro_power_straps s1);
        [ destruct c; cbn [when];
          [ destruct check_abut; eexists; (split; [apply log_logged | reflexivity])
          | exists s1; split; reflexivity ]
        | destruct Hwhen as (s2 & -> & Hrec2) ]
    end;
    rewrite bind_run; unfold lift at 1;
    (destruct (make_record _ _ _ _ _ _ _ _ _ _ _ _) as [r|e] eqn:Erec;
     [ | apply Hstay; cbn [snd]; congruence]);
    right; exists r;
    (split; [cbn [snd append_record _hardmacro_power_straps]; congruence | ]);
    unfold make_record, decimal_div in Erec;
    (destruct (Qeqb dbu 0); [discriminate Erec | ]);
    cbn [rbind] in Erec; injection Erec as <-;
    unfold recorded_for, record_of_macro; cbn; rewrite Edir;
    repeat split; try reflexivity; try discriminate; assumption.
Qed.

(** What one call of the recorder leaves in the record list. *)
Lemma recorder_appended_records self layer_name pitch width spacing offset bbox
    nets layer s :
  Stackup.get_metal (Tool.get_stackup self) layer_name = Ok layer ->
  let s' := snd (_get_power_straps_for_hardmacros self layer_name pitch width spacing
                   offset bbox nets s) in
  let hardmacros :=
    filter (fun c => PlacementConstraintType_eqb (PlacementConstraint.type c) HardMacro)
           (Tool.get_placement_constraints self) in
  exists added,
    _hardmacro_power_straps s' = _hardmacro_power_straps s ++ added
    /\ (List.length added <= List.length hardmacros)%nat
    /\ Forall (recorded_for layer_name layer nets pitch width spacing
                 (Stackup.grid_unit (Tool.get_stackup self))) added
    /\ Forall (fun r => exists macro, In macro hardmacros /\ record_of_macro macro r) added.
Proof.
  intros Hlayer s' hardmacros. unfold s', _get_power_straps_for_hardmacros.
  rewrite Hlayer. rewrite bind_run. unfold lift at 1. fold hardmacros.
  generalize (filter
                (fun c => match PlacementConstraint.obs_types c with
                          | Some ts => existsb (ObstructionType_eqb Power) ts
                          | None => false
                          end)
                (filter (fun c => PlacementConstraintType_eqb (PlacementConstraint.type c)
                                    Obstruction)
                        (Tool.get_placement_constraints self))) as pwr_obs.
  intros pwr_obs. clear s' Hlayer.
  generalize dependent s. induction hardmacros as [|macro macros IH]; intros s.
  - exists []. cbn. rewrite app_nil_r. repeat split; constructor.
  - cbn [for_each]. rewrite bind_run.
    pose proof (hardmacro_body_outcome self layer_name layer
                  (Stackup.grid_unit (Tool.get_stackup self))
                  (Tool.power_straps_abutment self) pwr_obs pitch width spacing offset
                  bbox nets macro s) as Hbody.
    cbv zeta in Hbody.
    destruct (hardmacro_body self layer_name layer _ _ pwr_obs pitch width spacing offset
                bbox nets macro s) as [[[]|e] s1]; cbn [snd] in Hbody |- *.
    + destruct (IH s1) as (added & Hadded & Hlen & Htag & Hmacro).
      destruct Hbody as [Hsame | (r & Hr & Hrtag & Hrmacro)].
      * exists added. rewrite Hadded, Hsame. split; [reflexivity | ].
        split; [cbn; lia | ]. split; [exact Htag | ].
        eapply Forall_impl; [ | exact Hmacro].
        intros r (m & Hin & Hm). exists m. split; [right; exact Hin | exact Hm].
      * exists (r :: added). rewrite Hadded, Hr, <- app_assoc. split; [reflexivity | ].
        split; [cbn; lia | ]. split; [constructor; assumption | ].
        constructor.
        -- exists macro. split; [left; reflexivity | exact Hrmacro].
        -- eapply Forall_impl; [ | exact Hmacro].
           intros r' (m & Hin & Hm). exists m. split; [right; exact Hin | exact Hm].
    + destruct Hbody as [Hsame | (r & Hr & Hrtag & Hrmacro)].
      * exists []. rewrite app_nil_r. split; [exact Hsame | ].
        split; [cbn; lia | ]. split; constructor.
      * exists [r]. split; [exact Hr | ]. split; [cbn; lia | ].
        split; [constructor; [exact Hrtag | constructor] | ].
        constructor; [ | constructor].
        exists macro. split; [left; reflexivity | exact Hrmacro].
Qed.

Lemma subseq_nil_l {A} (l : list A) : subseq [] l.
Proof. induction l as [|x l IH]; [constructor | apply subseq_skip; exact IH]. Qed.

Lemma subseq_length {A} (l l' : list A) :
  subseq l l' -> (List.length l <= List.length l')%nat.
Proof. induction 1; cbn [List.length]; lia. Qed.

(** X3: one call of the recorder only appends to the record list, at most one
    record per hard macro of the floorplan and in the order of the floorplan:
    the appended records are, one for one, the records of some of the hard
    macros, taken in their order; each appended record carries the layer
    name and the nets of the call, the direction of the layer, which is
    vertical or horizontal, and the width, spacing and pitch of the group in
    grid units. *)
Theorem recorder_appends_tagged_records self layer_name pitch width spacing offset bbox
    nets layer s :
  Stackup.get_metal (Tool.get_stackup self) layer_name = Ok layer ->
  let s' := snd (_get_power_straps_for_hardmacros self layer_name pitch width spacing
                   offset bbox nets s) in
  let hardmacros :=
    filter (fun c => PlacementConstraintType_eqb (PlacementConstraint.type c) HardMacro)
           (Tool.get_placement_constraints self) in
  exists added recorded,
    _hardmacro_power_straps s' = _hardmacro_power_straps s ++ added
    /\ subseq recorded hardmacros
    /\ Forall2 record_of_macro recorded added
    /\ (List.length added <= List.length hardmacros)%nat
    /\ Forall (recorded_for layer_name layer nets pitch width spacing
                 (Stackup.grid_unit (Tool.get_stackup self))) added.
Proof.
  intros Hlayer s' hardmacros.
  cut (exists added recorded,
         _hardmacro_power_straps s' = _hardmacro_power_straps s ++ added
         /\ subseq recorded hardmacros
         /\ Forall2 record_of_macro recorded added
         /\ Forall (recorded_for layer_name layer nets pitch width spacing
                      (Stackup.grid_unit (Tool.get_stackup self))) added).
  { intros (added & recorded & Hadded & Hsub & Hof & Htag).
    exists added, recorded. repeat split; try assumption.
    rewrite <- (Forall2_length Hof). apply subseq_length. exact Hsub. }
  unfold s', _get_power_straps_for_hardmacros.
  rewrite Hlayer. rewrite bind_run. unfold lift at 1. fold hardmacros.
  generalize (filter
                (fun c => match PlacementConstraint.obs_types c with
                          | Some ts => existsb (ObstructionType_eqb Power) ts
                          | None => false
                          end)
                (filter (fun c => PlacementConstraintType_eqb (PlacementConstraint.type c)
                                    Obstruction)
                        (Tool.get_placement_constraints self))) as pwr_obs.
  intros pwr_obs. clear s' Hlayer.
  generalize dependent s. induction hardmacros as [|macro macros IH]; intros s.
  - exists [], []. cbn. rewrite app_nil_r. repeat split; constructor.
  - cbn [for_each]. rewrite bind_run.
    pose proof (hardmacro_body_outcome self layer_name layer
                  (Stackup.grid_unit (Tool.get_stackup self))
                  (Tool.power_straps_abutment self) pwr_obs pitch width spacing offset
                  bbox nets macro s) as Hbody.
    cbv zeta in Hbody.
    destruct (hardmacro_body self layer_name layer _ _ pwr_obs pitch width spacing offset
                bbox nets macro s) as [[[]|e] s1]; cbn [snd] in Hbody |- *.
    + destruct (IH s1) as (added & recorded & Hadded & Hsub & Hof & Htag).
      destruct Hbody as [Hsame | (r & Hr & Hrtag & Hrmacro)].
      * exists added, recorded. rewrite Hadded, Hsame. split; [reflexivity | ].
        split; [apply subseq_skip; exact Hsub | ]. split; assumption.
      * exists (r :: added), (macro :: recorded).
        rewrite Hadded, Hr, <- app_assoc. split; [reflexivity | ].
        split; [apply subseq_take; exact Hsub | ].
        split; constructor; assumption.
    + destruct Hbody as [Hsame | (r & Hr & Hrtag & Hrmacro)].
      * exists [], []. rewrite app_nil_r. split; [exact Hsame | ].
        split; [apply subseq_nil_l | ]. split; constructor.
      * exists [r], [macro]. split; [exact Hr | ].
        split; [apply subseq_take; apply subseq_nil_l | ].
        split; constructor; try assumption; constructor.
Qed.

Lemma recorder_appends_tagged_records_witness :
  exists added recorded,
    _hardmacro_power_straps
      (snd (_get_power_straps_for_hardmacros
              (Fixture.tool [Fixture.macro "core/sram0" "X" 0 0;
                             Fixture.power_obstruction "blk" 50 50;
                             Fixture.macro "core/sram1" "X" 20 0] true)
              "M2" 24 3 1 0 None ["VSS"; "VDD"]%string Fixture.s0))
    = added
    /\ map StrapRecord.path added = ["core/sram0"; "core/sram1"]%string
    /\ subseq recorded [Fixture.macro "core/sram0" "X" 0 0; Fixture.macro "core/sram1" "X" 20 0]
    /\ Forall2 record_of_macro recorded added
    /\ Forall (fun r => StrapRecord.layer r = "M2"%string) added.
Proof.
  destruct (recorder_appends_tagged_records
              (Fixture.tool [Fixture.macro "core/sram0" "X" 0 0;
                             Fixture.power_obstruction "blk" 50 50;
                             Fixture.macro "core/sram1" "X" 20 0] true)
              "M2" 24 3 1 0 None ["VSS"; "VDD"]%string Fixture.M2 Fixture.s0 eq_refl)
    as (added & recorded & Hadded & Hsub & Hof & _ & Htag).
  exists added, recorded. split; [exact Hadded | ]. split.
  - cbn [app Fixture.s0 _hardmacro_power_straps] in Hadded. rewrite <- Hadded.
    vm_compute. reflexivity.
  - split; [exact Hsub | ]. split; [exact Hof | ].
    eapply Forall_impl; [ | exact Htag]. intros r Hr. apply Hr.
Defined.

(** ** The aggregator: every group is reported once *)

Lemma filter_split_perm {A} (f : A -> bool) l :
  Permutation l (filter f l ++ filter (fun x => negb (f x)) l).
Proof.
  induction l as [|x l IH]; simpl; [constructor | ].
  destruct (f x); simpl.
  - constructor. exact IH.
  - apply Permutation_cons_app. exact IH.
Qed.

Lemma filter_r_holds {A} (p : A -> result bool) l l' :
  filter_r p l = Ok l' -> l' = filter (holds p) l.
Proof.
  revert l'. induction l as [|x l IH]; simpl; intros l' H.
  - injection H as <-. reflexivity.
  - unfold holds at 1. destruct (p x) as [b|e]; simpl in H; [ | discriminate H].
    destruct (filter_r p l) as [r|e]; simpl in H; [ | discriminate H].
    injection H as <-. rewrite (IH r eq_refl). destruct b; reflexivity.
Qed.

Lemma filter_r_total {A} (p : A -> result bool) l :
  Forall (fun x => exists b, p x = Ok b) l -> exists l', filter_r p l = Ok l'.
Proof.
  induction 1 as [|x l [b Hb] _ [l' IH]]; simpl.
  - eexists. reflexivity.
  - rewrite Hb, IH. eexists. reflexivity.
Qed.

(** The loop over the variants of one master reports every instance it is
    given once: the instance paths of the entries it adds are, together,
    those of the abutting and of the badly oriented instances, and no entry
    is without instances. *)
Lemma variants_loop_partition fuel :
  forall master above_insts abut_insts bad_orient_insts variant_cnt output misaligned_insts
         output' misaligned_insts',
    variants_loop fuel master above_insts abut_insts bad_orient_insts variant_cnt
      output misaligned_insts = Ok (output', misaligned_insts') ->
    exists entries,
      output' = output ++ entries
      /\ Permutation (flat_map entry_paths entries)
                     (map StrapRecord.path (abut_insts ++ bad_orient_insts))
      /\ Forall (fun e => entry_paths e <> []) entries.
Proof.
  induction fuel as [|fuel IH];
    intros master above_insts abut_insts bad_orient_insts variant_cnt output
           misaligned_insts output' misaligned_insts' Hrun; cbn [variants_loop] in Hrun.
  - destruct (0 <? _)%nat eqn:E; [discriminate Hrun | ].
    injection Hrun as <- <-. apply Nat.ltb_ge in E.
    destruct abut_insts; [ | simpl in E; lia].
    destruct bad_orient_insts; [ | simpl in E; lia].
    exists []. rewrite app_nil_r. repeat split; constructor.
  - destruct (0 <? List.length abut_insts + List.length bad_orient_insts)%nat eqn:E.
    2:{ injection Hrun as <- <-. apply Nat.ltb_ge in E.
        destruct abut_insts; [ | simpl in E; lia].
        destruct bad_orient_insts; [ | simpl in E; lia].
        exists []. rewrite app_nil_r. repeat split; constructor. }
    destruct (0 <? List.length abut_insts)%nat eqn:Eabut.
    + destruct (mode (map StrapRecord.offset abut_insts)) as [v|e]; [ | discriminate Hrun].
      cbn [rbind] in Hrun.
      destruct (filter (same_offset v) abut_insts) as [|inst0 rest] eqn:Einsts;
        [discriminate Hrun | ].
      match type of Hrun with
      | variants_loop _ _ _ _ _ _ ?out _ = _ =>
          destruct (IH _ _ _ _ _ out _ _ _ Hrun) as (entries & Hout & Hperm & Hne)
      end.
      match type of Hout with
      | _ = (match above_insts with _ => _ end) ++ _ =>
          assert (Hentry : exists e,
                    (match above_insts with
                     | above0 :: _ =>
                         output ++ [(if (0 <? variant_cnt)%nat
                                     then (master ++ "_" ++ str_of_nat variant_cnt)%string
                                     else master,
                                     [describe inst0 (Some v) (inst0 :: rest);
                                      describe above0 None (inst0 :: rest)])]
                     | [] =>
                         output ++ [(if (0 <? variant_cnt)%nat
                                     then (master ++ "_" ++ str_of_nat variant_cnt)%string
                                     else master,
                                     [describe inst0 (Some v) (inst0 :: rest)])]
                     end) = output ++ [e]
                    /\ entry_paths e = map StrapRecord.path (inst0 :: rest))
            by (destruct above_insts; eexists; split; reflexivity)
      end.
      destruct Hentry as (e & He & Hpaths). rewrite He in Hout.
      exists (e :: entries). rewrite Hout, <- app_assoc. split; [reflexivity | ].
      split.
      * cbn [flat_map]. rewrite Hpaths, <- Einsts, map_app.
        rewrite Hperm, map_app, app_assoc. apply Permutation_app_tail.
        rewrite <- map_app. apply Permutation_map. symmetry.
        apply (filter_split_perm (same_offset v)).
      * constructor; [rewrite Hpaths; discriminate | exact Hne].
    + destruct (mode (map StrapRecord.offset bad_orient_insts)) as [v|e];
        [ | discriminate Hrun].
      cbn [rbind] in Hrun.
      destruct (filter (same_offset v) bad_orient_insts) as [|inst0 rest] eqn:Einsts;
        [discriminate Hrun | ].
      match type of Hrun with
      | variants_loop _ _ _ _ _ _ ?out _ = _ =>
          destruct (IH _ _ _ _ _ out _ _ _ Hrun) as (entries & Hout & Hperm & Hne)
      end.
      match type of Hout with
      | _ = (match above_insts with _ => _ end) ++ _ =>
          assert (Hentry : exists e,
                    (match above_insts with
                     | above0 :: _ =>
                         output ++ [(if (0 <? variant_cnt)%nat
                                     then (master ++ "_" ++ str_of_nat variant_cnt)%string
                                     else master,
                                     [describe inst0 (Some v) (inst0 :: rest);
                                      describe above0 None (inst0 :: rest)])]
                     | [] =>
                         output ++ [(if (0 <? variant_cnt)%nat
                                     then (master ++ "_" ++ str_of_nat variant_cnt)%string
                                     else master,
                                     [describe inst0 (Some v) (inst0 :: rest)])]
                     end) = output ++ [e]
                    /\ entry_paths e = map StrapRecord.path (inst0 :: rest))
            by (destruct above_insts; eexists; split; reflexivity)
      end.
      destruct Hentry as (e & He & Hpaths). rewrite He in Hout.
      exists (e :: entries). rewrite Hout, <- app_assoc. split; [reflexivity | ].
      apply Nat.ltb_ge in Eabut. destruct abut_insts; [ | simpl in Eabut; lia].
      split.
      * cbn [flat_map app] in *. rewrite Hpaths, <- Einsts.
        rewrite Hperm, <- map_app. apply Permutation_map. symmetry.
        apply (filter_split_perm (same_offset v)).
      * constructor; [rewrite Hpaths; discriminate | exact Hne].
Qed.

Lemma filter_perm {A} (f : A -> bool) l1 l2 :
  Permutation l1 l2 -> Permutation (filter f l1) (filter f l2).
Proof.
  induction 1 as [ | x l1 l2 _ IH | x y l | l1 l2 l3 _ IH1 _ IH2]; simpl.
  - constructor.
  - destruct (f x); [constructor | ]; exact IH.
  - destruct (f x), (f y); try reflexivity. constructor.
  - etransitivity; eassumption.
Qed.

Lemma filter_flat_map {A B} (f : B -> bool) (g : A -> list B) l :
  filter f (flat_map g l) = flat_map (fun x => filter f (g x)) l.
Proof.
  induction l as [|x l IH]; simpl; [reflexivity | ].
  rewrite filter_app, IH. reflexivity.
Qed.

Lemma filter_filter_swap {A} (f g : A -> bool) l :
  filter f (filter g l) = filter g (filter f l).
Proof.
  induction l as [|x l IH]; simpl; [reflexivity | ].
  destruct (g x) eqn:Eg, (f x) eqn:Ef; simpl; rewrite ?Eg, ?Ef, IH; reflexivity.
Qed.

Lemma distinct_In l x : In x (distinct l) <-> In x l.
Proof.
  induction l as [|y l IH]; simpl; [tauto | ].
  rewrite filter_In, IH. split.
  - intros [H | [H _]]; [left; exact H | right; exact H].
  - intros [H | H]; [left; exact H | ].
    destruct (String.eqb y x) eqn:E.
    + apply String.eqb_eq in E. left. exact E.
    + right. split; [exact H | reflexivity].
Qed.

Lemma distinct_NoDup l : NoDup (distinct l).
Proof.
  induction l as [|y l IH]; simpl; [constructor | ].
  constructor.
  - rewrite filter_In. intros [_ H]. rewrite String.eqb_refl in H. discriminate H.
  - apply NoDup_filter. exact IH.
Qed.

Lemma filter_other_absent k (D : list string) :
  ~ In k D -> filter (fun y => negb (String.eqb k y)) D = D.
Proof.
  intros Hk. apply filter_all. apply Forall_forall. intros y Hy.
  destruct (String.eqb k y) eqn:E; [ | reflexivity].
  apply String.eqb_eq in E. subst y. contradiction.
Qed.

Lemma flat_map_split_key {B} (g : string -> list B) k D :
  NoDup D -> (~ In k D -> g k = []) ->
  Permutation (g k ++ flat_map g (filter (fun y => negb (String.eqb k y)) D))
              (flat_map g D).
Proof.
  induction 1 as [|d D Hd Hnd IH]; intros Hk; simpl.
  - rewrite Hk by tauto. constructor.
  - destruct (String.eqb k d) eqn:E; simpl.
    + apply String.eqb_eq in E. subst d. rewrite filter_other_absent by exact Hd.
      reflexivity.
    + rewrite Permutation_app_swap_app. apply Permutation_app_head.
      apply IH. intros Hk'. apply Hk. intros [H | H]; [ | contradiction].
      subst d. rewrite String.eqb_refl in E. discriminate E.
Qed.

Lemma flat_map_agree {A B} (f g : A -> list B) l :
  (forall x, In x l -> f x = g x) -> flat_map f l = flat_map g l.
Proof.
  induction l as [|x l IH]; intros H; simpl; [reflexivity | ].
  rewrite (H x (or_introl eq_refl)), IH; [reflexivity | ].
  intros y Hy. apply H. right. exact Hy.
Qed.

(** Grouping by key loses nothing and repeats nothing. *)
Lemma group_by_perm {A} (key : A -> string) (l : list A) :
  Permutation
    (flat_map (fun m => filter (fun x => String.eqb (key x) m) l) (distinct (map key l)))
    l.
Proof.
  induction l as [|x l IH]; [constructor | ].
  cbn [map distinct flat_map filter]. rewrite String.eqb_refl. cbn [app].
  constructor.
  rewrite (flat_map_agree
             (fun m => filter (fun y => String.eqb (key y) m) (x :: l))
             (fun m => filter (fun y => String.eqb (key y) m) l)).
  - etransitivity; [ | exact IH].
    apply (flat_map_split_key (fun m => filter (fun y => String.eqb (key y) m) l)).
    + apply distinct_NoDup.
    + intros Hk. apply filter_none. apply Forall_forall. intros y Hy.
      destruct (String.eqb (key y) (key x)) eqn:E; [ | reflexivity].
      apply String.eqb_eq in E. exfalso. apply Hk. apply distinct_In.
      rewrite <- E. apply in_map. exact Hy.
  - intros m Hm. apply filter_In in Hm. destruct Hm as [_ Hm].
    cbn [filter]. destruct (String.eqb (key x) m) eqn:E; [ | reflexivity].
    discriminate Hm.
Qed.

Lemma filter_r_defined {A} (p : A -> result bool) l l' :
  filter_r p l = Ok l' -> Forall (fun x => exists b, p x = Ok b) l.
Proof.
  revert l'. induction l as [|x l IH]; simpl; intros l' H; [constructor | ].
  destruct (p x) as [b|e] eqn:Ep; simpl in H; [ | discriminate H].
  destruct (filter_r p l) as [r|e]; simpl in H; [ | discriminate H].
  constructor; [exists b; exact Ep | apply (IH r eq_refl)].
Qed.

(** The abutting and the badly oriented instances are, together, the
    instances on their top layer. *)
Lemma abut_and_bad_are_on_top insts abut_insts bad_orient_insts :
  filter_r is_abut_inst insts = Ok abut_insts ->
  filter_r is_bad_orient_inst insts = Ok bad_orient_insts ->
  Permutation (abut_insts ++ bad_orient_insts) (filter on_top_layer insts).
Proof.
  intros Habut Hbad.
  pose proof (filter_r_defined _ _ _ Habut) as Hdef.
  apply filter_r_holds in Habut. apply filter_r_holds in Hbad. subst.
  induction Hdef as [|x l [b Hb] _ IH]; [constructor | ].
  assert (Hx : (on_top_layer x = false
                /\ holds is_abut_inst x = false /\ holds is_bad_orient_inst x = false)
               \/ (on_top_layer x = true
                   /\ holds is_abut_inst x = true /\ holds is_bad_orient_inst x = false)
               \/ (on_top_layer x = true
                   /\ holds is_abut_inst x = false /\ holds is_bad_orient_inst x = true)).
  { unfold holds, is_abut_inst, is_bad_orient_inst in *.
    destruct (on_top_layer x); [ | left; repeat split].
    destruct (valid_orients (StrapRecord.direction x)) as [v|e]; [ | discriminate Hb].
    cbn [rbind]. destruct (str_in (StrapRecord.orientation x) v);
      [right; left | right; right]; repeat split. }
  cbn [filter].
  destruct Hx as [(-> & -> & ->) | [(-> & -> & ->) | (-> & -> & ->)]]; cbn [app].
  - exact IH.
  - constructor. exact IH.
  - symmetry. apply Permutation_cons_app. symmetry. exact IH.
Qed.

Lemma master_body_entries check_abut records output misaligned_insts master s
    output' misaligned_insts' s' :
  master_body check_abut records (output, misaligned_insts) master s
  = (Ok (output', misaligned_insts'), s') ->
  exists entries,
    output' = output ++ entries
    /\ Permutation
         (flat_map entry_paths entries)
         (map StrapRecord.path
            (filter on_top_layer
               (filter (fun m => String.eqb (StrapRecord.master m) master) records)))
    /\ Forall (fun e => entry_paths e <> []) entries.
Proof.
  unfold master_body. intros H.
  apply bind_ok_inv in H. destruct H as ([] & s1 & _ & H).
  apply bind_ok_inv in H. destruct H as ([] & s2 & _ & H).
  apply bind_ok_inv in H. destruct H as (abut_insts & s3 & Habut & H).
  apply bind_ok_inv in H. destruct H as (bad_orient_insts & s4 & Hbad & H).
  unfold lift in Habut, Hbad, H.
  injection Habut as Habut _. injection Hbad as Hbad _. injection H as H _.
  destruct (variants_loop_partition _ _ _ _ _ _ _ _ _ _ H) as (entries & Hout & Hperm & Hne).
  exists entries. split; [exact Hout | ]. split; [ | exact Hne].
  rewrite Hperm. apply Permutation_map.
  apply abut_and_bad_are_on_top; assumption.
Qed.

Lemma masters_loop_entries check_abut records masters :
  forall output misaligned_insts s output' misaligned_insts' s',
    for_acc masters (output, misaligned_insts) (master_body check_abut records) s
    = (Ok (output', misaligned_insts'), s') ->
    exists entries,
      output' = output ++ entries
      /\ Permutation
           (flat_map entry_paths entries)
           (map StrapRecord.path
              (flat_map
                 (fun master =>
                    filter on_top_layer
                      (filter (fun m => String.eqb (StrapRecord.master m) master) records))
                 masters))
      /\ Forall (fun e => entry_paths e <> []) entries.
Proof.
  induction masters as [|master masters IH];
    intros output misaligned_insts s output' misaligned_insts' s' H; cbn [for_acc] in H.
  - unfold ret in H. injection H as <- _ _.
    exists []. rewrite app_nil_r. repeat split; constructor.
  - apply bind_ok_inv in H. destruct H as ([out1 mis1] & s1 & Hbody & H).
    apply master_body_entries in Hbody. destruct Hbody as (e1 & Hout1 & Hperm1 & Hne1).
    apply IH in H. destruct H as (e2 & Hout2 & Hperm2 & Hne2).
    exists (e1 ++ e2). rewrite Hout2, Hout1, app_assoc. split; [reflexivity | ].
    split.
    + rewrite flat_map_app. cbn [flat_map]. rewrite map_app.
      apply Permutation_app; assumption.
    + apply Forall_app. split; assumption.
Qed.

(** The entries of the report of an aggregator run that returns. *)
Lemma dump_entries self s s' :
  _dump_power_straps_for_hardmacros self s = (Ok tt, s') ->
  exists report,
    power_straps_json s' = Some report
    /\ Permutation (flat_map entry_paths report)
                   (map StrapRecord.path
                      (filter on_top_layer (_hardmacro_power_straps s)))
    /\ Forall (fun e => entry_paths e <> []) report
    /\ _hardmacro_power_straps s' = _hardmacro_power_straps s.
Proof.
  intros Hrun.
  assert (Hsame : _hardmacro_power_straps s' = _hardmacro_power_straps s).
  { pose proof (dump_same_records self s) as H. rewrite Hrun in H. exact H. }
  unfold _dump_power_straps_for_hardmacros in Hrun.
  apply bind_ok_inv in Hrun. destruct Hrun as (records & s1 & Hread & Hrun).
  unfold read_records in Hread. injection Hread as <- <-.
  apply bind_ok_inv in Hrun. destruct Hrun as ([output misaligned_insts] & s2 & Hloop & Hrun).
  apply bind_ok_inv in Hrun. destruct Hrun as ([] & s3 & _ & Hrun).
  unfold write_report in Hrun. injection Hrun as <-.
  apply masters_loop_entries in Hloop. destruct Hloop as (entries & Hout & Hperm & Hne).
  cbn [app] in Hout. subst output.
  exists entries. split; [reflexivity | ]. split; [ | split; [exact Hne | exact Hsame]].
  rewrite Hperm. apply Permutation_map.
  rewrite <- filter_flat_map. apply filter_perm.
  apply (group_by_perm StrapRecord.master).
Qed.

(** X4: when the aggregator returns, the report names every instance that was
    recorded on its top layer exactly once, whatever its master, offset and
    orientation, names no other instance, and has no entry without
    instances; the record list is left as it was. *)
Theorem report_covers_top_layer_instances self s s' :
  _dump_power_straps_for_hardmacros self s = (Ok tt, s') ->
  exists report,
    power_straps_json s' = Some report
    /\ Permutation (flat_map entry_paths report)
                   (map StrapRecord.path
                      (filter on_top_layer (_hardmacro_power_straps s)))
    /\ Forall (fun e => entry_paths e <> []) report
    /\ _hardmacro_power_straps s' = _hardmacro_power_straps s.
Proof. exact (dump_entries self s s'). Qed.

Lemma report_covers_top_layer_instances_witness :
  exists report,
    power_straps_json
      (snd (_dump_power_straps_for_hardmacros (Fixture.tool [] true)
              (mkState [] Fixture.eight_records None)))
    = Some report
    /\ Permutation (flat_map entry_paths report)
                   ["i0"; "i1"; "i2"; "i3"; "i4"; "i5"; "i6"; "i7"]%string.
Proof.
  destruct (report_covers_top_layer_instances (Fixture.tool [] true)
              (mkState [] Fixture.eight_records None)
              (snd (_dump_power_straps_for_hardmacros (Fixture.tool [] true)
                      (mkState [] Fixture.eight_records None))))
    as (report & Hjson & Hperm & _ & _).
  - vm_compute. reflexivity.
  - exists report. split; [exact Hjson | exact Hperm].
Defined.

(** ** The aggregator: when it returns *)

Lemma when_log_ok b e s : exists s', when b (log e) s = (Ok tt, s').
Proof. destruct b; eexists; reflexivity. Qed.

Lemma routable_tests_defined insts :
  routable_records insts ->
  Forall (fun x => exists b, is_abut_inst x = Ok b) insts
  /\ Forall (fun x => exists b, is_bad_orient_inst x = Ok b) insts.
Proof.
  intros H. split; (eapply Forall_impl; [ | exact H]); intros x Hx; cbv beta in Hx;
    unfold is_abut_inst, is_bad_orient_inst;
    (destruct (on_top_layer x); [ | eexists; reflexivity]);
    (destruct (StrapRecord.direction x); [ | | exfalso; apply Hx; reflexivity]);
    eexists; reflexivity.
Qed.

Lemma master_body_total check_abut records acc master s :
  routable_records records ->
  exists r s', master_body check_abut records acc master s = (Ok r, s').
Proof.
  intros Hroutable. unfold master_body. destruct acc as [output misaligned_insts].
  set (insts := filter (fun m => String.eqb (StrapRecord.master m) master) records).
  assert (Hinsts : routable_records insts).
  { apply (incl_Forall (incl_filter _ records)). exact Hroutable. }
  destruct (routable_tests_defined insts Hinsts) as [Habut Hbad].
  destruct (filter_r_total _ _ Habut) as (abut_insts & Eabut).
  destruct (filter_r_total _ _ Hbad) as (bad_orient_insts & Ebad).
  rewrite bind_run.
  destruct (when_log_ok (1 <? List.length (distinct (map StrapRecord.top_layer insts)))%nat
              (ConflictingTopLayerError master) s) as (s1 & ->).
  rewrite bind_run.
  assert (Hsame : exists s2,
    match filter (fun m => negb (on_top_layer m)) insts, insts with
    | [], inst0 :: _ =>
        when (negb check_abut) (log (SameAsTopLayerError master (StrapRecord.layer inst0)))
    | _, _ => ret tt
    end s1 = (Ok tt, s2)).
  { destruct (filter (fun m => negb (on_top_layer m)) insts); [ | eexists; reflexivity].
    destruct insts; [eexists; reflexivity | apply when_log_ok]. }
  destruct Hsame as (s2 & ->).
  rewrite Eabut, Ebad. rewrite bind_run. unfold lift at 1. rewrite bind_run. unfold lift at 1.
  destruct (variants_loop_fuel
              (List.length abut_insts + List.length bad_orient_insts) master
              (filter (fun m => negb (on_top_layer m)) insts) abut_insts bad_orient_insts
              0 output misaligned_insts (Nat.le_refl _)) as (r & Hr).
  unfold lift. rewrite Hr. exists r, s2. reflexivity.
Qed.

(** The aggregator returns on a record list as the recorder leaves it. *)
Lemma dump_total self s :
  routable_records (_hardmacro_power_straps s) ->
  exists s' report,
    _dump_power_straps_for_hardmacros self s = (Ok tt, s')
    /\ power_straps_json s' = Some report.
Proof.
  intros Hroutable.
  assert (Hloop : forall masters acc s0,
    exists r s1,
      for_acc masters acc
        (master_body (Tool.power_straps_abutment self) (_hardmacro_power_straps s)) s0
      = (Ok r, s1)).
  { induction masters as [|master masters IH]; intros acc s0; cbn [for_acc].
    - exists acc, s0. reflexivity.
    - rewrite bind_run.
      destruct (master_body_total (Tool.power_straps_abutment self)
                  (_hardmacro_power_straps s) acc master s0 Hroutable) as (r & s1 & ->).
      apply IH. }
  destruct (_dump_power_straps_for_hardmacros self s) as [res s'] eqn:Hrun.
  unfold _dump_power_straps_for_hardmacros in Hrun.
  rewrite bind_run in Hrun. unfold read_records at 1 in Hrun. cbv beta iota in Hrun.
  rewrite bind_run in Hrun.
  match type of Hrun with
  | context [for_acc ?masters ?acc ?body s] =>
      destruct (Hloop masters acc s) as ([output misaligned_insts] & s1 & Hfor);
      rewrite Hfor in Hrun
  end.
  rewrite bind_run in Hrun.
  destruct (when_log_ok
              (Tool.power_straps_abutment self && (0 <? List.length misaligned_insts)%nat)
              (MisalignedError misaligned_insts) s1) as (s2 & Hwhen).
  rewrite Hwhen in Hrun. unfold write_report in Hrun. injection Hrun as <- <-.
  eexists. exists output. split; reflexivity.
Qed.

(** X5: on a record list without records of the redistribution direction, as
    the recorder leaves it, the aggregator always returns and writes a
    report; in particular its loop over the variants of a master ends. *)
Theorem aggregator_returns self s :
  routable_records (_hardmacro_power_straps s) ->
  exists s' report,
    _dump_power_straps_for_hardmacros self s = (Ok tt, s')
    /\ power_straps_json s' = Some report.
Proof. exact (dump_total self s). Qed.

Lemma aggregator_returns_witness :
  exists s' report,
    _dump_power_straps_for_hardmacros (Fixture.tool [] false)
      (mkState [] Fixture.eight_records None) = (Ok tt, s')
    /\ power_straps_json s' = Some report.
Proof.
  apply aggregator_returns. unfold routable_records. cbn.
  repeat constructor; discriminate.
Defined.

(** X6: when no record is on its top layer (every strap layer recorded lies
    above the macros' top layers), the report is written empty: the
    parameters of the layer above are only reported beside a group of the
    top layer. *)
Theorem report_is_empty_without_top_layer_records self s :
  routable_records (_hardmacro_power_straps s) ->
  Forall (fun m => on_top_layer m = false) (_hardmacro_power_straps s) ->
  exists s',
    _dump_power_straps_for_hardmacros self s = (Ok tt, s')
    /\ power_straps_json s' = Some [].
Proof.
  intros Hroutable Habove.
  destruct (dump_total self s Hroutable) as (s' & report & Hrun & Hjson).
  exists s'. split; [exact Hrun | ].
  destruct (dump_entries self s s' Hrun)
    as (report' & Hjson' & Hperm & Hne & _).
  rewrite Hjson'. f_equal.
  rewrite (filter_none on_top_layer _ Habove) in Hperm. cbn [map] in Hperm.
  symmetry in Hperm. apply Permutation_nil in Hperm.
  destruct report' as [|e rest]; [reflexivity | ].
  inversion Hne as [|? ? He _]; subst.
  cbn [flat_map] in Hperm. apply app_eq_nil in Hperm. destruct Hperm as [Hpaths _].
  contradiction.
Qed.

Lemma report_is_empty_without_top_layer_records_witness :
  exists s',
    _dump_power_straps_for_hardmacros (Fixture.tool [] false)
      (mkState []
         [StrapRecord.mk "X" "M2" "core/sram" "r0" "M3" Horizontal ["VSS"; "VDD"]%string
            30 10 240 0]
         None) = (Ok tt, s')
    /\ power_straps_json s' = Some [].
Proof.
  apply report_is_empty_without_top_layer_records.
  - unfold routable_records. cbn. repeat constructor. discriminate.
  - cbn. repeat constructor.
Defined.

(** ** What logging and recording cannot change *)

(** A relation between states that logging and appending a record keep is
    kept by the recorder, the converter and the loop over the layers. *)
Section Frame.

Variable R : state -> state -> Prop.
Hypothesis R_refl : forall s, R s s.
Hypothesis R_trans : forall a b c, R a b -> R b c -> R a c.
Hypothesis R_log : forall e, preserves R (log e).
Hypothesis R_append : forall r, preserves R (append_record r).

Ltac frame :=
  pres_with R_refl R_trans ltac:(first [apply R_log | apply R_append]).

Lemma frame_hardmacro_body self layer_name layer dbu check_abut pwr_obs
    pitch width spacing offset bbox nets macro :
  preserves R
    (hardmacro_body self layer_name layer dbu check_abut pwr_obs
                    pitch width spacing offset bbox nets macro).
Proof.
  hardmacro_body_pres R_refl R_trans ltac:(frame).
Qed.

Lemma frame_recorder self layer_name pitch width spacing offset bbox nets :
  preserves R
    (_get_power_straps_for_hardmacros self layer_name pitch width spacing offset bbox nets).
Proof.
  unfold _get_power_straps_for_hardmacros.
  apply (preserves_bind _ R_trans); [frame | intros layer].
  apply (preserves_for_each _ R_refl R_trans).
  intros macro. apply frame_hardmacro_body.
Qed.

Lemma frame_converter self layer_name bottom_via_layer blockage_spacing
    track_pitch track_width track_spacing track_start track_offset bbox nets
    add_pins layer_is_all_power antenna_trim_shape pattern :
  preserves R
    (specify_power_straps_by_tracks self layer_name bottom_via_layer blockage_spacing
       track_pitch track_width track_spacing track_start track_offset bbox nets
       add_pins layer_is_all_power antenna_trim_shape pattern).
Proof.
  unfold specify_power_straps_by_tracks.
  apply (preserves_bind _ R_trans); [frame | intros layer].
  destruct (by_tracks_width_spacing_start _ _ _ _ _ _) as [[width spacing] strap_start].
  apply (preserves_bind _ R_trans); [frame | intros _].
  apply (preserves_bind _ R_trans); [frame | intros _].
  apply (preserves_bind _ R_trans); [frame | intros density].
  apply (preserves_bind _ R_trans); [frame | intros _].
  apply (preserves_bind _ R_trans); [apply frame_recorder | intros _].
  frame.
Qed.

Lemma frame_layer_body self ground_net power_nets power_weights bbox pin_layers acc
    layer_name :
  preserves R
    (layer_body self ground_net power_nets power_weights bbox pin_layers acc layer_name).
Proof.
  unfold layer_body. destruct acc as [output last].
  apply (preserves_bind _ R_trans); [frame | intros layer].
  apply (preserves_bind _ R_trans); [frame | intros _].
  destruct (RoutingDirection_eqb _ _); [frame | ].
  apply (preserves_bind _ R_trans); [frame | intros track_pitch].
  apply (preserves_bind _ R_trans); [ | intros out; frame].
  apply (preserves_for_acc _ R_refl R_trans).
  intros out i. unfold group_body.
  apply (preserves_bind _ R_trans); [frame | intros power_net].
  apply (preserves_bind _ R_trans); [apply frame_converter | intros cmds].
  frame.
Qed.

Lemma frame_master_body check_abut records acc master :
  preserves R (master_body check_abut records acc master).
Proof.
  unfold master_body. destruct acc as [output misaligned_insts].
  apply (preserves_bind _ R_trans); [frame | intros _].
  apply (preserves_bind _ R_trans); [ | intros _; frame].
  destruct (filter (fun m => negb (on_top_layer m)) _); [ | frame].
  destruct (filter _ records); frame.
Qed.

End Frame.

Lemma same_report_refl s : same_report s s.
Proof. reflexivity. Qed.

Lemma same_report_trans a b c : same_report a b -> same_report b c -> same_report a c.
Proof. unfold same_report. intros H1 H2. rewrite H2. exact H1. Qed.

Lemma log_same_report e : preserves same_report (log e).
Proof. intros s. reflexivity. Qed.

Lemma append_record_same_report r : preserves same_report (append_record r).
Proof. intros s. reflexivity. Qed.

(** The aggregator writes the report as its last step: it has written one
    when it returns, and none when it raises. *)
Lemma dump_report self s :
  match _dump_power_straps_for_hardmacros self s with
  | (Ok _, s') => exists report, power_straps_json s' = Some report
  | (Err _, s') => power_straps_json s' = power_straps_json s
  end.
Proof.
  unfold _dump_power_straps_for_hardmacros.
  rewrite bind_run. unfold read_records at 1. cbv beta iota. rewrite bind_run.
  match goal with
  | |- context [for_acc ?ms ?acc0 ?body s] =>
      pose proof (preserves_for_acc same_report same_report_refl same_report_trans
                    ms body
                    (fun a m =>
                       frame_master_body same_report same_report_refl same_report_trans
                         log_same_report _ _ a m)
                    acc0 s) as Hloop;
      destruct (for_acc ms acc0 body s) as [[[output misaligned_insts]|e] s1]
  end; cbn [snd] in Hloop; [ | exact Hloop].
  rewrite bind_run.
  destruct (when_log_ok
              (Tool.power_straps_abutment self && (0 <? List.length misaligned_insts)%nat)
              (MisalignedError misaligned_insts) s1) as (s2 & ->).
  unfold write_report. eexists. reflexivity.
Qed.

(** X7: the report file is written by a generation exactly when the
    generation returns: a generation that raises, in whatever step, leaves
    [power_straps.json] as it was. *)
Theorem report_written_iff_generation_returns self layer_names bottom_via_layer
    ground_net power_nets power_weights bbox pin_layers generate_rail_layer s :
  match specify_all_power_straps_by_tracks self layer_names bottom_via_layer ground_net
          power_nets power_weights bbox pin_layers generate_rail_layer s with
  | (Ok _, s') => exists report, power_straps_json s' = Some report
  | (Err _, s') => power_straps_json s' = power_straps_json s
  end.
Proof.
  unfold specify_all_power_straps_by_tracks.
  set (prefix_kept := fun (r : result (list command)) (s' : state) =>
         match r with
         | Ok _ => exists report, power_straps_json s' = Some report
         | Err _ => power_straps_json s' = power_straps_json s
         end).
  assert (Hstep : forall {A} (m : M A) (k : A -> M (list command)) s0,
            power_straps_json s0 = power_straps_json s ->
            preserves same_report m ->
            (forall a s1, power_straps_json s1 = power_straps_json s ->
                          prefix_kept (fst (k a s1)) (snd (k a s1))) ->
            prefix_kept (fst (bind m k s0)) (snd (bind m k s0))).
  { intros A m k s0 Hs0 Hm Hk. rewrite bind_run. specialize (Hm s0).
    destruct (m s0) as [[a|e] s1]; cbn [snd] in Hm.
    - apply Hk. unfold same_report in Hm. congruence.
    - cbn. unfold same_report in Hm. congruence. }
  match goal with
  | |- match ?run with _ => _ end =>
      change (prefix_kept (fst run) (snd run)) ||
      (assert (Hgoal : prefix_kept (fst run) (snd run));
       [ | destruct run as [[?|?] ?]; exact Hgoal])
  end.
  apply Hstep; [reflexivity | apply (preserves_lift _ same_report_refl) | intros _ s1 Hs1].
  apply Hstep; [exact Hs1 | | intros _ s2 Hs2].
  { apply (preserves_for_each _ same_report_refl same_report_trans).
    intros l. apply (preserves_lift _ same_report_refl). }
  apply Hstep; [exact Hs2 | apply (preserves_lift _ same_report_refl) | intros rail s3 Hs3].
  apply Hstep; [exact Hs3 | apply (preserves_lift _ same_report_refl) | intros last s4 Hs4].
  apply Hstep; [exact Hs4 | | intros r s5 Hs5].
  { apply (preserves_for_acc _ same_report_refl same_report_trans).
    intros acc layer_name.
    apply (frame_layer_body same_report same_report_refl same_report_trans
             log_same_report append_record_same_report). }
  rewrite bind_run.
  pose proof (dump_report self s5) as Hdump.
  destruct (_dump_power_straps_for_hardmacros self s5) as [[[]|e] s6]; cbn.
  - exact Hdump.
  - congruence.
Qed.

(** ** The converter: failures *)



(** ** The strap builder: its arguments *)

Lemma pin_layers_checked layer_names ok s :
  Forall (fun l => str_in l layer_names = true) ok ->
  forall rest,
    for_each (ok ++ rest) (fun l =>
      lift (py_assert (str_in l layer_names)
              ("Pin layer " ++ l ++ " must be in power strap layers")%string)) s
    = for_each rest (fun l =>
        lift (py_assert (str_in l layer_names)
                ("Pin layer " ++ l ++ " must be in power strap layers")%string)) s.
Proof.
  induction 1 as [|l ok Hl _ IH]; intros rest; [reflexivity | ].
  cbn [app for_each]. rewrite bind_run. unfold lift at 1. rewrite Hl. cbn [py_assert].
  cbv beta iota. apply IH.
Qed.

(** X9: the builder checks its arguments before it does anything: net and
    weight lists of different lengths stop it on the first assertion, and a
    pin layer that is not among the strap layers stops it on the assertion
    that names the first such layer; the state is untouched. *)
Theorem builder_checks_arguments_first self layer_names bottom_via_layer ground_net
    power_nets power_weights bbox generate_rail_layer s :
  (forall pin_layers,
     List.length power_nets <> List.length power_weights ->
     specify_all_power_straps_by_tracks self layer_names bottom_via_layer ground_net
       power_nets power_weights bbox pin_layers generate_rail_layer s
     = (Err (AssertionError ""), s))
  /\ (forall ok l rest,
        List.length power_nets = List.length power_weights ->
        Forall (fun l => str_in l layer_names = true) ok ->
        str_in l layer_names = false ->
        specify_all_power_straps_by_tracks self layer_names bottom_via_layer ground_net
          power_nets power_weights bbox (ok ++ l :: rest) generate_rail_layer s
        = (Err (AssertionError ("Pin layer " ++ l ++ " must be in power strap layers")%string),
           s)).
Proof.
  split.
  - intros pin_layers Hlen. unfold specify_all_power_straps_by_tracks.
    rewrite bind_run. unfold lift at 1.
    apply Nat.eqb_neq in Hlen. rewrite Hlen. reflexivity.
  - intros ok l rest Hlen Hok Hl. unfold specify_all_power_straps_by_tracks.
    rewrite bind_run. unfold lift at 1.
    apply Nat.eqb_eq in Hlen. rewrite Hlen. cbn [py_assert]. cbv beta iota.
    rewrite bind_run. rewrite (pin_layers_checked layer_names ok s Hok).
    cbn [for_each]. rewrite bind_run. unfold lift at 1. rewrite Hl. reflexivity.
Qed.

Lemma builder_checks_arguments_first_witness :
  specify_all_power_straps_by_tracks (Fixture.tool [] true) ["M2"; "M3"]%string "M1" "VSS"
    ["VDD"; "VDDA"]%string [1] None [] true Fixture.s0
  = (Err (AssertionError ""), Fixture.s0)
  /\ specify_all_power_straps_by_tracks (Fixture.tool [] true) ["M2"; "M3"]%string "M1"
       "VSS" ["VDD"]%string [1] None ["M3"; "M4"; "M2"]%string true Fixture.s0
     = (Err (AssertionError "Pin layer M4 must be in power strap layers"), Fixture.s0).
Proof.
  destruct (builder_checks_arguments_first (Fixture.tool [] true) ["M2"; "M3"]%string "M1"
              "VSS" ["VDD"; "VDDA"]%string [1] None true Fixture.s0) as [Hlen _].
  destruct (builder_checks_arguments_first (Fixture.tool [] true) ["M2"; "M3"]%string "M1"
              "VSS" ["VDD"]%string [1] None true Fixture.s0) as [_ Hpin].
  split.
  - apply Hlen. discriminate.
  - apply (Hpin ["M3"]%string "M4"%string ["M2"]%string).
    + reflexivity.
    + repeat constructor.
    + reflexivity.
Defined.

(** ** The strap builder: what a generation that returns has emitted *)

(** When the converter returns it has one command, for the layer it was
    called with, of positive width and spacing. *)
Lemma converter_returns_one self layer_name bottom_via_layer blockage_spacing
    track_pitch track_width track_spacing track_start track_offset bbox nets
    add_pins layer_is_all_power antenna_trim_shape pattern s cmds s' :
  specify_power_straps_by_tracks self layer_name bottom_via_layer blockage_spacing
    track_pitch track_width track_spacing track_start track_offset bbox nets
    add_pins layer_is_all_power antenna_trim_shape pattern s = (Ok cmds, s') ->
  exists layer width spacing offset,
    Stackup.get_metal (Tool.get_stackup self) layer_name = Ok layer
    /\ cmds = [specify_power_straps layer_name bottom_via_layer blockage_spacing
                 (inject_Z track_pitch * Metal.pitch layer)%Q width spacing offset
                 bbox nets add_pins antenna_trim_shape]
    /\ (0 < width)%Q /\ (0 < spacing)%Q.
Proof.
  intros Hrun.
  destruct (Stackup.get_metal (Tool.get_stackup self) layer_name) as [layer|e] eqn:Hlayer.
  - destruct (by_tracks_width_spacing_start layer
                (inject_Z track_pitch * Metal.pitch layer)%Q track_width track_spacing
                layer_is_all_power pattern) as [[width spacing] strap_start] eqn:Hgeom.
    destruct (converter_returns _ _ _ _ _ _ _ _ _ _ _ _ _ _ _ _ _ _ _ _ _ _
                Hlayer Hgeom Hrun) as (Hcmds & Hw & Hs).
    exists layer, width, spacing,
      (track_offset + inject_Z track_start * Metal.pitch layer + strap_start)%Q.
    repeat split; assumption.
  - unfold specify_power_straps_by_tracks in Hrun. rewrite Hlayer in Hrun.
    discriminate Hrun.
Qed.

Lemma groups_loop_emitted self layer_name layer last blockage_spacing track_pitch
    track_width track_spacing track_start track_offset offset sum_weights ground_net
    power_nets bbox add_pins layer_is_all_power antenna_trim_shape pattern positions :
  forall output s output' s',
    for_acc positions output
      (group_body self layer_name layer last blockage_spacing track_pitch track_width
         track_spacing track_start track_offset offset sum_weights ground_net power_nets
         bbox add_pins layer_is_all_power antenna_trim_shape pattern) s
    = (Ok output', s') ->
    exists added,
      output' = output ++ added
      /\ List.length added = List.length positions
      /\ Forall (emitted_for [layer_name] ground_net power_nets bbox) added
      /\ Forall (fun i => (i < List.length power_nets)%nat) positions.
Proof.
  induction positions as [|i positions IH]; intros output s output' s' Hrun;
    cbn [for_acc] in Hrun.
  - unfold ret in Hrun. injection Hrun as <- _.
    exists []. rewrite app_nil_r. repeat split; constructor.
  - apply bind_ok_inv in Hrun. destruct Hrun as (out1 & s1 & Hbody & Hrun).
    unfold group_body in Hbody.
    apply bind_ok_inv in Hbody. destruct Hbody as (power_net & s2 & Hget & Hbody).
    unfold lift, list_get in Hget.
    destruct (nth_error power_nets i) as [p|] eqn:Hnth; [ | discriminate Hget].
    injection Hget as <- <-.
    apply bind_ok_inv in Hbody. destruct Hbody as (cmds & s3 & Hconv & Hbody).
    unfold ret in Hbody. injection Hbody as <- <-.
    apply converter_returns_one in Hconv.
    destruct Hconv as (layer' & width & spacing & off & _ & -> & Hw & Hs).
    apply IH in Hrun. destruct Hrun as (added & -> & Hlen & Hall & Hpos).
    eexists (_ :: added). rewrite <- app_assoc. split; [reflexivity | ].
    split; [cbn; rewrite Hlen; reflexivity | ]. split.
    + constructor; [ | exact Hall]. cbn.
      split; [left; reflexivity | ]. split; [exact Hw | ]. split; [exact Hs | ].
      split; [reflexivity | ]. exists p. split; [ | reflexivity].
      apply nth_error_In in Hnth. exact Hnth.
    + constructor; [ | exact Hpos]. apply nth_error_Some. congruence.
Qed.

Lemma emitted_for_incl layer_names layer_names' ground_net power_nets bbox c :
  incl layer_names layer_names' ->
  emitted_for layer_names ground_net power_nets bbox c ->
  emitted_for layer_names' ground_net power_nets bbox c.
Proof.
  intros Hincl. destruct c; cbn; [ | tauto].
  intros (Hin & H). split; [apply Hincl; exact Hin | exact H].
Qed.

Lemma range_length n : List.length (range n) = Z.to_nat n.
Proof. unfold range. apply length_seq. Qed.

Lemma range_bound n bound :
  Forall (fun i => (i < bound)%nat) (range n) -> (Z.to_nat n <= bound)%nat.
Proof.
  unfold range. intros H. rewrite Forall_forall in H.
  destruct (Z.to_nat n) as [|k] eqn:E; [lia | ].
  specialize (H k). rewrite in_seq in H. lia.
Qed.

Lemma layers_loop_emitted self ground_net power_nets power_weights bbox pin_layers
    layer_names :
  forall output last s output' last' s',
    for_acc layer_names (output, last)
      (layer_body self ground_net power_nets power_weights bbox pin_layers) s
    = (Ok (output', last'), s') ->
    exists added,
      output' = output ++ added
      /\ List.length added
         = (List.length layer_names * Z.to_nat (sum power_weights))%nat
      /\ Forall (emitted_for layer_names ground_net power_nets bbox) added
      /\ (layer_names <> [] ->
          (Z.to_nat (sum power_weights) <= List.length power_nets)%nat).
Proof.
  induction layer_names as [|layer_name layer_names IH];
    intros output last s output' last' s' Hrun; cbn [for_acc] in Hrun.
  - unfold ret in Hrun. injection Hrun as <- _ _.
    exists []. rewrite app_nil_r. split; [reflexivity | ]. split; [reflexivity | ].
    split; [constructor | ]. intros H. contradiction.
  - apply bind_ok_inv in Hrun. destruct Hrun as ([out1 last1] & s1 & Hbody & Hrun).
    unfold layer_body in Hbody.
    apply bind_ok_inv in Hbody. destruct Hbody as (layer & s2 & _ & Hbody).
    apply bind_ok_inv in Hbody. destruct Hbody as ([] & s3 & _ & Hbody).
    destruct (RoutingDirection_eqb (Metal.direction last) (Metal.direction layer));
      [discriminate Hbody | ].
    apply bind_ok_inv in Hbody. destruct Hbody as (track_pitch & s4 & _ & Hbody).
    apply bind_ok_inv in Hbody. destruct Hbody as (out & s5 & Hgroups & Hbody).
    unfold ret in Hbody. injection Hbody as <- <- <-.
    apply groups_loop_emitted in Hgroups.
    destruct Hgroups as (added1 & -> & Hlen1 & Hall1 & Hpos).
    apply IH in Hrun. destruct Hrun as (added2 & -> & Hlen2 & Hall2 & _).
    exists (added1 ++ added2). rewrite app_assoc. split; [reflexivity | ].
    rewrite range_length in Hlen1.
    split; [rewrite length_app, Hlen1, Hlen2; cbn; lia | ].
    split.
    + apply Forall_app. split.
      * eapply Forall_impl; [ | exact Hall1]. intros c.
        apply emitted_for_incl. intros l [<- | []]. left. reflexivity.
      * eapply Forall_impl; [ | exact Hall2]. intros c.
        apply emitted_for_incl. intros l Hl. right. exact Hl.
    + intros _. apply range_bound. exact Hpos.
Qed.

(** The builder's run, once its arguments are checked and the two layers
    are found, is the loop over the layers followed by the aggregator. *)
Lemma builder_returns_inv self layer_names bottom_via_layer ground_net power_nets
    power_weights bbox pin_layers generate_rail_layer s output s' :
  specify_all_power_straps_by_tracks self layer_names bottom_via_layer ground_net
    power_nets power_weights bbox pin_layers generate_rail_layer s = (Ok output, s') ->
  exists last last' s1 s2,
    Stackup.get_metal (Tool.get_stackup self) bottom_via_layer = Ok last
    /\ List.length power_nets = List.length power_weights
    /\ for_acc layer_names
         (if generate_rail_layer
          then [specify_std_cell_power_straps
                  (ByTracks.blockage_spacing
                     (Tool.by_tracks self (Tool.std_cell_rail_layer self)))
                  bbox (ground_net :: power_nets)]
          else [], last)
         (layer_body self ground_net power_nets power_weights bbox pin_layers) s1
       = (Ok (output, last'), s2)
    /\ _dump_power_straps_for_hardmacros self s2 = (Ok tt, s').
Proof.
  unfold specify_all_power_straps_by_tracks. intros Hrun.
  apply bind_ok_inv in Hrun. destruct Hrun as ([] & s1 & Hlen & Hrun).
  unfold lift, py_assert in Hlen.
  destruct (List.length power_nets =? List.length power_weights)%nat eqn:Elen;
    [ | discriminate Hlen].
  apply Nat.eqb_eq in Elen.
  apply bind_ok_inv in Hrun. destruct Hrun as ([] & s2 & _ & Hrun).
  apply bind_ok_inv in Hrun. destruct Hrun as (rail & s3 & _ & Hrun).
  apply bind_ok_inv in Hrun. destruct Hrun as (last & s4 & Hlast & Hrun).
  unfold lift in Hlast. injection Hlast as Hlast <-.
  apply bind_ok_inv in Hrun. destruct Hrun as ([out last'] & s5 & Hloop & Hrun).
  apply bind_ok_inv in Hrun. destruct Hrun as ([] & s6 & Hdump & Hrun).
  unfold ret in Hrun. cbn [fst] in Hrun. injection Hrun as <- <-.
  exists last, last', s3, s5. split; [exact Hlast | ]. split; [exact Elen | ].
  split; [ | exact Hdump].
  destruct generate_rail_layer; exact Hloop.
Qed.

(** X10: a generation that returns has emitted, after the rail command when
    one is asked for, as many strap commands per layer as the weights sum
    to. *)
Theorem builder_emits_one_command_per_position self layer_names bottom_via_layer
    ground_net power_nets power_weights bbox pin_layers generate_rail_layer s output s' :
  specify_all_power_straps_by_tracks self layer_names bottom_via_layer ground_net
    power_nets power_weights bbox pin_layers generate_rail_layer s = (Ok output, s') ->
  List.length output
  = ((if generate_rail_layer then 1 else 0)
     + List.length layer_names * Z.to_nat (sum power_weights))%nat
  /\ (generate_rail_layer = true ->
      hd_error output
      = Some (specify_std_cell_power_straps
                (ByTracks.blockage_spacing
                   (Tool.by_tracks self (Tool.std_cell_rail_layer self)))
                bbox (ground_net :: power_nets))).
Proof.
  intros Hrun. apply builder_returns_inv in Hrun.
  destruct Hrun as (last & last' & s1 & s2 & _ & _ & Hloop & _).
  apply layers_loop_emitted in Hloop. destruct Hloop as (added & -> & Hlen & _ & _).
  rewrite length_app, Hlen. split.
  - destruct generate_rail_layer; reflexivity.
  - intros ->. reflexivity.
Qed.

(** X11: every command of a generation that returns is well formed: a strap
    command is on one of the strap layers, has a positive width and a
    positive spacing, the bounding box of the call, and the ground net
    followed by one of the power nets; the rail command has the ground net
    followed by all power nets. *)
Theorem builder_emits_well_formed_commands self layer_names bottom_via_layer
    ground_net power_nets power_weights bbox pin_layers generate_rail_layer s output s' :
  specify_all_power_straps_by_tracks self layer_names bottom_via_layer ground_net
    power_nets power_weights bbox pin_layers generate_rail_layer s = (Ok output, s') ->
  Forall (emitted_for layer_names ground_net power_nets bbox) output.
Proof.
  intros Hrun. apply builder_returns_inv in Hrun.
  destruct Hrun as (last & last' & s1 & s2 & _ & _ & Hloop & _).
  apply layers_loop_emitted in Hloop. destruct Hloop as (added & -> & _ & Hall & _).
  apply Forall_app. split; [ | exact Hall].
  destruct generate_rail_layer; repeat constructor.
Qed.

(** X12: a generation over at least one layer returns only if the weights
    sum to no more than the number of power nets, which is also the
    number of weights: the positions of a period index the list of power
    nets itself. *)
Theorem builder_returns_only_for_small_weights self layer_names bottom_via_layer
    ground_net power_nets power_weights bbox pin_layers generate_rail_layer s output s' :
  specify_all_power_straps_by_tracks self layer_names bottom_via_layer ground_net
    power_nets power_weights bbox pin_layers generate_rail_layer s = (Ok output, s') ->
  layer_names <> [] ->
  sum power_weights <= Z.of_nat (List.length power_nets)
  /\ List.length power_nets = List.length power_weights.
Proof.
  intros Hrun Hlayers. apply builder_returns_inv in Hrun.
  destruct Hrun as (last & last' & s1 & s2 & _ & Hlen & Hloop & _).
  apply layers_loop_emitted in Hloop. destruct Hloop as (added & _ & _ & _ & Hsum).
  specialize (Hsum Hlayers). split; [lia | exact Hlen].
Qed.

Lemma builder_emits_one_command_per_position_witness :
  exists output s',
    specify_all_power_straps_by_tracks (Fixture.tool [] true) ["M2"; "M3"]%string "M1"
      "VSS" ["VDD"; "VDDA"]%string [1; 1] None ["M3"]%string true Fixture.s0
    = (Ok output, s')
    /\ List.length output = 5%nat.
Proof.
  assert (Hrun : exists output s',
    specify_all_power_straps_by_tracks (Fixture.tool [] true) ["M2"; "M3"]%string "M1"
      "VSS" ["VDD"; "VDDA"]%string [1; 1] None ["M3"]%string true Fixture.s0
    = (Ok output, s')) by (eexists; eexists; vm_compute; reflexivity).
  destruct Hrun as (output & s' & Hrun). exists output, s'. split; [exact Hrun | ].
  exact (proj1 (builder_emits_one_command_per_position _ _ _ _ _ _ _ _ _ _ _ _ Hrun)).
Defined.

Lemma builder_emits_well_formed_commands_witness :
  exists output s',
    specify_all_power_straps_by_tracks (Fixture.tool [] true) ["M2"; "M3"]%string "M1"
      "VSS" ["VDD"; "VDDA"]%string [1; 1] None ["M3"]%string true Fixture.s0
    = (Ok output, s')
    /\ Forall (emitted_for ["M2"; "M3"]%string "VSS" ["VDD"; "VDDA"]%string None) output.
Proof.
  assert (Hrun : exists output s',
    specify_all_power_straps_by_tracks (Fixture.tool [] true) ["M2"; "M3"]%string "M1"
      "VSS" ["VDD"; "VDDA"]%string [1; 1] None ["M3"]%string true Fixture.s0
    = (Ok output, s')) by (eexists; eexists; vm_compute; reflexivity).
  destruct Hrun as (output & s' & Hrun). exists output, s'. split; [exact Hrun | ].
  exact (builder_emits_well_formed_commands _ _ _ _ _ _ _ _ _ _ _ _ Hrun).
Defined.

Lemma builder_returns_only_for_small_weights_witness :
  exists output s',
    specify_all_power_straps_by_tracks (Fixture.tool [] true) ["M2"; "M3"]%string "M1"
      "VSS" ["VDD"; "VDDA"]%string [1; 1] None ["M3"]%string true Fixture.s0
    = (Ok output, s')
    /\ sum [1; 1] <= 2.
Proof.
  assert (Hrun : exists output s',
    specify_all_power_straps_by_tracks (Fixture.tool [] true) ["M2"; "M3"]%string "M1"
      "VSS" ["VDD"; "VDDA"]%string [1; 1] None ["M3"]%string true Fixture.s0
    = (Ok output, s')) by (eexists; eexists; vm_compute; reflexivity).
  destruct Hrun as (output & s' & Hrun). exists output, s'. split; [exact Hrun | ].
  assert (Hlayers : ["M2"; "M3"]%string <> []) by discriminate.
  exact (proj1 (builder_returns_only_for_small_weights _ _ _ _ _ _ _ _ _ _ _ _ Hrun Hlayers)).
Defined.

(** ** A generation never stops in the aggregator *)

Lemma routable_appended_refl s : routable_appended s s.
Proof. exists []. rewrite app_nil_r. split; [reflexivity | constructor]. Qed.

Lemma routable_appended_trans a b c :
  routable_appended a b -> routable_appended b c -> routable_appended a c.
Proof.
  intros (x & Hx & Rx) (y & Hy & Ry). exists (x ++ y).
  rewrite Hy, Hx, app_assoc. split; [reflexivity | ].
  apply Forall_app. split; assumption.
Qed.

Lemma same_records_routable {A} (m : M A) :
  preserves same_records m -> preserves routable_appended m.
Proof.
  intros H s. exists []. rewrite app_nil_r. split; [apply H | constructor].
Qed.

Lemma recorder_routable self layer_name pitch width spacing offset bbox nets :
  preserves routable_appended
    (_get_power_straps_for_hardmacros self layer_name pitch width spacing offset bbox nets).
Proof.
  intros s.
  destruct (Stackup.get_metal (Tool.get_stackup self) layer_name) as [layer|e] eqn:Hlayer.
  - destruct (recorder_appended_records self layer_name pitch width spacing offset
                bbox nets layer s Hlayer) as (added & Hadded & _ & Htag & _).
    exists added. split; [exact Hadded | ].
    eapply Forall_impl; [ | exact Htag]. intros r Hr. apply Hr.
  - unfold _get_power_straps_for_hardmacros. rewrite Hlayer. apply routable_appended_refl.
Qed.

Ltac pres_routable :=
  pres_with routable_appended_refl routable_appended_trans
    ltac:(first [ apply recorder_routable
                | apply same_records_routable; apply log_same_records ]).

Lemma layer_body_routable self ground_net power_nets power_weights bbox pin_layers acc
    layer_name :
  preserves routable_appended
    (layer_body self ground_net power_nets power_weights bbox pin_layers acc layer_name).
Proof.
  unfold layer_body. destruct acc as [output last].
  apply (preserves_bind _ routable_appended_trans); [pres_routable | intros layer].
  apply (preserves_bind _ routable_appended_trans); [pres_routable | intros _].
  destruct (RoutingDirection_eqb _ _); [pres_routable | ].
  apply (preserves_bind _ routable_appended_trans); [pres_routable | intros track_pitch].
  apply (preserves_bind _ routable_appended_trans); [ | intros out; pres_routable].
  apply (preserves_for_acc _ routable_appended_refl routable_appended_trans).
  intros out i. unfold group_body.
  apply (preserves_bind _ routable_appended_trans); [pres_routable | intros power_net].
  apply (preserves_bind _ routable_appended_trans); [ | intros cmds; pres_routable].
  unfold specify_power_straps_by_tracks.
  apply (preserves_bind _ routable_appended_trans); [pres_routable | intros layer'].
  destruct (by_tracks_width_spacing_start _ _ _ _ _ _) as [[width spacing] strap_start].
  pres_routable.
Qed.

Lemma routable_appended_records s s' :
  routable_appended s s' ->
  routable_records (_hardmacro_power_straps s) ->
  routable_records (_hardmacro_power_straps s').
Proof.
  intros (added & -> & Hadded) Hs. apply Forall_app. split; assumption.
Qed.

(** X13: a generation started on a record list without records of the
    redistribution direction ends on such a list, and never stops in the
    aggregator: once the arguments are accepted, the rail and bottom layers
    found and the loop over the layers through, the generation returns the
    commands of the loop. *)
Theorem generation_never_stops_in_aggregator self layer_names bottom_via_layer ground_net
    power_nets power_weights bbox pin_layers generate_rail_layer s :
  routable_records (_hardmacro_power_straps s) ->
  routable_records
    (_hardmacro_power_straps
       (snd (specify_all_power_straps_by_tracks self layer_names bottom_via_layer
               ground_net power_nets power_weights bbox pin_layers generate_rail_layer s)))
  /\ forall rail last output last' s2,
       List.length power_nets = List.length power_weights ->
       Forall (fun l => str_in l layer_names = true) pin_layers ->
       Stackup.get_metal (Tool.get_stackup self) (Tool.std_cell_rail_layer self) = Ok rail ->
       Stackup.get_metal (Tool.get_stackup self) bottom_via_layer = Ok last ->
       for_acc layer_names
         (if generate_rail_layer
          then [specify_std_cell_power_straps
                  (ByTracks.blockage_spacing
                     (Tool.by_tracks self (Tool.std_cell_rail_layer self)))
                  bbox (ground_net :: power_nets)]
          else [], last)
         (layer_body self ground_net power_nets power_weights bbox pin_layers) s
       = (Ok (output, last'), s2) ->
       exists s',
         specify_all_power_straps_by_tracks self layer_names bottom_via_layer ground_net
           power_nets power_weights bbox pin_layers generate_rail_layer s
         = (Ok output, s').
Proof.
  intros Hroutable. split.
  - eapply routable_appended_records; [ | exact Hroutable].
    unfold specify_all_power_straps_by_tracks.
    apply (preserves_bind _ routable_appended_trans); [pres_routable | intros _].
    apply (preserves_bind _ routable_appended_trans); [pres_routable | intros _].
    apply (preserves_bind _ routable_appended_trans); [pres_routable | intros rail].
    apply (preserves_bind _ routable_appended_trans); [pres_routable | intros last].
    apply (preserves_bind _ routable_appended_trans).
    + apply (preserves_for_acc _ routable_appended_refl routable_appended_trans).
      intros acc layer_name. apply layer_body_routable.
    + intros r.
      apply (preserves_bind _ routable_appended_trans); [ | intros _; pres_routable].
      apply same_records_routable. apply dump_same_records.
  - intros rail last output last' s2 Hlen Hpins Hrail Hlast Hloop.
    assert (Hs2 : routable_records (_hardmacro_power_straps s2)).
    { eapply routable_appended_records; [ | exact Hroutable].
      pose proof (preserves_for_acc routable_appended routable_appended_refl
                    routable_appended_trans layer_names
                    (layer_body self ground_net power_nets power_weights bbox pin_layers)
                    (fun acc layer_name =>
                       layer_body_routable self ground_net power_nets power_weights bbox
                         pin_layers acc layer_name)
                    (if generate_rail_layer
                     then [specify_std_cell_power_straps
                             (ByTracks.blockage_spacing
                                (Tool.by_tracks self (Tool.std_cell_rail_layer self)))
                             bbox (ground_net :: power_nets)]
                     else [], last) s) as H.
      rewrite Hloop in H. exact H. }
    destruct (dump_total self s2 Hs2) as (s' & report & Hdump & _).
    exists s'. unfold specify_all_power_straps_by_tracks.
    rewrite bind_run. unfold lift at 1.
    apply Nat.eqb_eq in Hlen. rewrite Hlen. cbn [py_assert]. cbv beta iota.
    rewrite bind_run.
    pose proof (pin_layers_checked layer_names pin_layers s Hpins []) as Hchecked.
    rewrite app_nil_r in Hchecked. rewrite Hchecked.
    cbn [for_each]. unfold ret at 1. cbv beta iota.
    rewrite Hrail, Hlast. rewrite bind_run. unfold lift at 1. cbv beta iota.
    rewrite bind_run. unfold lift at 1. cbv beta iota.
    rewrite bind_run.
    assert (Hloop' :
      for_acc layer_names
        (if generate_rail_layer
         then [] ++ [specify_std_cell_power_straps
                       (ByTracks.blockage_spacing
                          (Tool.by_tracks self (Tool.std_cell_rail_layer self)))
                       bbox (ground_net :: power_nets)]
         else [], last)
        (layer_body self ground_net power_nets power_weights bbox pin_layers) s
      = (Ok (output, last'), s2)) by (destruct generate_rail_layer; exact Hloop).
    rewrite Hloop'. rewrite bind_run, Hdump. reflexivity.
Qed.

Lemma generation_never_stops_in_aggregator_witness :
  routable_records
    (_hardmacro_power_straps
       (snd (specify_all_power_straps_by_tracks
               (Fixture.tool [Fixture.macro "core/sram" "X" 0 0] true) ["M2"; "RDL"]%string
               "M1" "VSS" ["VDD"]%string [1] None [] false Fixture.s0))).
Proof.
  apply (proj1 (generation_never_stops_in_aggregator
                  (Fixture.tool [Fixture.macro "core/sram" "X" 0 0] true)
                  ["M2"; "RDL"]%string "M1" "VSS" ["VDD"]%string [1] None [] false
                  Fixture.s0 (Forall_nil _))).
Defined.

(** ** The emitters' index check on the calls of a generation *)

Lemma emitter_checks_app self calls1 calls2 li :
  emitter_checks self (calls1 ++ calls2) li
  = rbind (emitter_checks self calls1 li) (emitter_checks self calls2).
Proof.
  revert li. induction calls1 as [|c calls1 IH]; intros li; cbn [emitter_checks app].
  - reflexivity.
  - destruct (emitter_check self c li) as [li'|e]; cbn [rbind]; [apply IH | reflexivity].
Qed.

Lemma check_index_ok self layer_name layer li :
  Stackup.get_metal (Tool.get_stackup self) layer_name = Ok layer ->
  li <= Metal.index layer ->
  _power_straps_check_index self layer_name li = Ok (Metal.index layer).
Proof.
  intros Hlayer Hle. unfold _power_straps_check_index. rewrite Hlayer. cbn [rbind].
  assert (E : (Metal.index layer >=? li) = true) by (apply Z.geb_le; exact Hle).
  rewrite E. reflexivity.
Qed.

Lemma check_index_below self layer_name layer li :
  Stackup.get_metal (Tool.get_stackup self) layer_name = Ok layer ->
  Metal.index layer < li ->
  _power_straps_check_index self layer_name li
  = Err (AssertionError "Must construct power straps from bottom to top").
Proof.
  intros Hlayer Hlt. unfold _power_straps_check_index. rewrite Hlayer. cbn [rbind].
  assert (E : (Metal.index layer >=? li) = false).
  { rewrite Z.geb_leb. apply Z.leb_gt. exact Hlt. }
  rewrite E. reflexivity.
Qed.

(** Calls for one layer pass the check from any index up to that of the
    layer, and leave an index no higher than it. *)
Lemma checks_on_one_layer self layer_name layer calls :
  Stackup.get_metal (Tool.get_stackup self) layer_name = Ok layer ->
  Forall (strap_on layer_name) calls ->
  forall li, li <= Metal.index layer ->
    exists top, emitter_checks self calls li = Ok top
                /\ li <= top /\ top <= Metal.index layer.
Proof.
  intros Hlayer Hall. induction Hall as [|c calls Hc Hall IH]; intros li Hle.
  - exists li. cbn. repeat split; lia.
  - destruct c; cbn in Hc; [subst | contradiction].
    cbn [emitter_checks emitter_check].
    rewrite (check_index_ok _ _ _ _ Hlayer Hle). cbn [rbind].
    destruct (IH (Metal.index layer) (Z.le_refl _)) as (top & Hrun & Hlo & Hhi).
    exists top. repeat split; [exact Hrun | lia | exact Hhi].
Qed.

Lemma groups_loop_on_layer self layer_name layer last blockage_spacing track_pitch
    track_width track_spacing track_start track_offset offset sum_weights ground_net
    power_nets bbox add_pins layer_is_all_power antenna_trim_shape pattern positions :
  forall output s output' s',
    for_acc positions output
      (group_body self layer_name layer last blockage_spacing track_pitch track_width
         track_spacing track_start track_offset offset sum_weights ground_net power_nets
         bbox add_pins layer_is_all_power antenna_trim_shape pattern) s
    = (Ok output', s') ->
    exists added,
      output' = output ++ added
      /\ List.length added = List.length positions
      /\ Forall (strap_on layer_name) added.
Proof.
  induction positions as [|i positions IH]; intros output s output' s' Hrun;
    cbn [for_acc] in Hrun.
  - unfold ret in Hrun. injection Hrun as <- _.
    exists []. rewrite app_nil_r. repeat split; constructor.
  - apply bind_ok_inv in Hrun. destruct Hrun as (out1 & s1 & Hbody & Hrun).
    unfold group_body in Hbody.
    apply bind_ok_inv in Hbody. destruct Hbody as (power_net & s2 & _ & Hbody).
    apply bind_ok_inv in Hbody. destruct Hbody as (cmds & s3 & Hconv & Hbody).
    unfold ret in Hbody. injection Hbody as <- <-.
    apply converter_returns_one in Hconv.
    destruct Hconv as (layer' & width & spacing & off & _ & -> & _ & _).
    apply IH in Hrun. destruct Hrun as (added & -> & Hlen & Hall).
    eexists (_ :: added). rewrite <- app_assoc. split; [reflexivity | ].
    split; [cbn; rewrite Hlen; reflexivity | ].
    constructor; [reflexivity | exact Hall].
Qed.

(** One turn of the loop over the layers: the layer is found above [last],
    and the calls added are all for it, one per position. *)
Lemma layer_body_on_layer self ground_net power_nets power_weights bbox pin_layers
    output last layer_name s output' last' s' :
  layer_body self ground_net power_nets power_weights bbox pin_layers
    (output, last) layer_name s = (Ok (output', last'), s') ->
  Stackup.get_metal (Tool.get_stackup self) layer_name = Ok last'
  /\ Metal.index last < Metal.index last'
  /\ exists added,
       output' = output ++ added
       /\ List.length added = Z.to_nat (sum power_weights)
       /\ Forall (strap_on layer_name) added.
Proof.
  intros Hbody.
  destruct (layer_body_ok_last _ _ _ _ _ _ _ _ _ _ _ _ _ Hbody) as (Hlayer & Hidx & _).
  split; [exact Hlayer | ]. split; [exact Hidx | ].
  unfold layer_body in Hbody.
  apply bind_ok_inv in Hbody. destruct Hbody as (layer & s2 & _ & Hbody).
  apply bind_ok_inv in Hbody. destruct Hbody as ([] & s3 & _ & Hbody).
  destruct (RoutingDirection_eqb (Metal.direction last) (Metal.direction layer));
    [discriminate Hbody | ].
  apply bind_ok_inv in Hbody. destruct Hbody as (track_pitch & s4 & _ & Hbody).
  apply bind_ok_inv in Hbody. destruct Hbody as (out & s5 & Hgroups & Hbody).
  unfold ret in Hbody. injection Hbody as <- _ _.
  apply groups_loop_on_layer in Hgroups.
  destruct Hgroups as (added & -> & Hlen & Hall).
  exists added. rewrite range_length in Hlen. repeat split; assumption.
Qed.

Lemma layers_loop_checks self ground_net power_nets power_weights bbox pin_layers
    layer_names :
  forall output last s output' last' s',
    for_acc layer_names (output, last)
      (layer_body self ground_net power_nets power_weights bbox pin_layers) s
    = (Ok (output', last'), s') ->
    exists added,
      output' = output ++ added
      /\ forall li, li <= Metal.index last ->
           exists top, emitter_checks self added li = Ok top
                       /\ li <= top /\ top <= Metal.index last'.
Proof.
  induction layer_names as [|layer_name layer_names IH];
    intros output last s output' last' s' Hrun; cbn [for_acc] in Hrun.
  - unfold ret in Hrun. injection Hrun as <- <- _.
    exists []. rewrite app_nil_r. split; [reflexivity | ].
    intros li Hle. exists li. cbn. repeat split; lia.
  - apply bind_ok_inv in Hrun. destruct Hrun as ([out1 last1] & s1 & Hbody & Hrun).
    apply layer_body_on_layer in Hbody.
    destruct Hbody as (Hlayer & Hidx & added1 & -> & _ & Hall1).
    apply IH in Hrun. destruct Hrun as (added2 & -> & Hchecks).
    exists (added1 ++ added2). rewrite app_assoc. split; [reflexivity | ].
    intros li Hle. rewrite emitter_checks_app.
    destruct (checks_on_one_layer _ _ _ _ Hlayer Hall1 li ltac:(lia))
      as (top1 & Hrun1 & Hlo1 & Hhi1).
    rewrite Hrun1. cbn [rbind].
    destruct (Hchecks top1 Hhi1) as (top & Hrun2 & Hlo & Hhi).
    exists top. repeat split; [exact Hrun2 | lia | exact Hhi].
Qed.

(** X14: the calls of a generation that returns pass the index check of the
    emitters in the order they were made, when the tool object has not
    emitted above the rail layer and the rail layer is not above the bottom
    via layer. *)
Theorem emitted_calls_pass_index_check self layer_names bottom_via_layer ground_net
    power_nets power_weights bbox pin_layers generate_rail_layer s output s'
    rail bottom last_index :
  specify_all_power_straps_by_tracks self layer_names bottom_via_layer ground_net
    power_nets power_weights bbox pin_layers generate_rail_layer s = (Ok output, s') ->
  Stackup.get_metal (Tool.get_stackup self) (Tool.std_cell_rail_layer self) = Ok rail ->
  Stackup.get_metal (Tool.get_stackup self) bottom_via_layer = Ok bottom ->
  last_index <= Metal.index rail ->
  Metal.index rail <= Metal.index bottom ->
  exists top, emitter_checks self output last_index = Ok top /\ last_index <= top.
Proof.
  intros Hrun Hrail Hbottom Hfresh Hbelow. apply builder_returns_inv in Hrun.
  destruct Hrun as (last & last' & s1 & s2 & Hlast & _ & Hloop & _).
  rewrite Hbottom in Hlast. injection Hlast as <-.
  apply layers_loop_checks in Hloop. destruct Hloop as (added & -> & Hchecks).
  rewrite emitter_checks_app.
  destruct generate_rail_layer.
  - cbn [emitter_checks emitter_check].
    rewrite (check_index_ok _ _ _ _ Hrail Hfresh). cbn [rbind].
    destruct (Hchecks (Metal.index rail) Hbelow) as (top & Hrun & Hlo & _).
    exists top. split; [exact Hrun | lia].
  - cbn [emitter_checks rbind].
    destruct (Hchecks last_index ltac:(lia)) as (top & Hrun & Hlo & _).
    exists top. split; [exact Hrun | exact Hlo].
Qed.

Lemma emitted_calls_pass_index_check_witness :
  exists output s' top,
    specify_all_power_straps_by_tracks (Fixture.tool [] true) ["M2"; "M3"]%string "M1"
      "VSS" ["VDD"; "VDDA"]%string [1; 1] None ["M3"]%string true Fixture.s0
    = (Ok output, s')
    /\ emitter_checks (Fixture.tool [] true) output (-1) = Ok top.
Proof.
  assert (Hrun : exists output s',
    specify_all_power_straps_by_tracks (Fixture.tool [] true) ["M2"; "M3"]%string "M1"
      "VSS" ["VDD"; "VDDA"]%string [1; 1] None ["M3"]%string true Fixture.s0
    = (Ok output, s')) by (eexists; eexists; vm_compute; reflexivity).
  destruct Hrun as (output & s' & Hrun).
  assert (Hrail : Stackup.get_metal (Tool.get_stackup (Fixture.tool [] true))
                    (Tool.std_cell_rail_layer (Fixture.tool [] true)) = Ok Fixture.M1)
    by reflexivity.
  assert (Hbottom : Stackup.get_metal (Tool.get_stackup (Fixture.tool [] true)) "M1"
                    = Ok Fixture.M1) by reflexivity.
  assert (Hfresh : -1 <= Metal.index Fixture.M1) by (vm_compute; discriminate).
  assert (Hbelow : Metal.index Fixture.M1 <= Metal.index Fixture.M1) by lia.
  destruct (emitted_calls_pass_index_check _ _ _ _ _ _ _ _ _ _ _ _ _ _ _
              Hrun Hrail Hbottom Hfresh Hbelow) as (top & Hchecks & _).
  exists output, s', top. split; [exact Hrun | exact Hchecks].
Defined.

(** X15: the order test of the builder starts from the bottom via layer and
    that of the emitters from the rail layer: a generation with a rail whose
    layer is above the first strap layer passes the tests of the builder,
    and the calls it makes trip the assertion of the emitters at the first
    strap. *)
Theorem rail_above_first_strap_trips_check self layer_name layer_names bottom_via_layer
    ground_net power_nets power_weights bbox pin_layers s output s'
    rail first last_index :
  specify_all_power_straps_by_tracks self (layer_name :: layer_names) bottom_via_layer
    ground_net power_nets power_weights bbox pin_layers true s = (Ok output, s') ->
  Stackup.get_metal (Tool.get_stackup self) (Tool.std_cell_rail_layer self) = Ok rail ->
  Stackup.get_metal (Tool.get_stackup self) layer_name = Ok first ->
  last_index <= Metal.index rail ->
  Metal.index first < Metal.index rail ->
  0 < sum power_weights ->
  emitter_checks self output last_index
  = Err (AssertionError "Must construct power straps from bottom to top").
Proof.
  intros Hrun Hrail Hfirst Hfresh Habove Hsum. apply builder_returns_inv in Hrun.
  destruct Hrun as (last & last' & s1 & s2 & _ & _ & Hloop & _).
  cbn [for_acc] in Hloop.
  apply bind_ok_inv in Hloop. destruct Hloop as ([out1 last1] & s3 & Hbody & Hloop).
  apply layer_body_on_layer in Hbody.
  destruct Hbody as (_ & _ & added1 & -> & Hlen & Hall1).
  apply layers_loop_checks in Hloop. destruct Hloop as (added2 & -> & _).
  destruct added1 as [|c added1]; [cbn in Hlen; lia | ].
  inversion Hall1 as [|c' l' Hc _]; subst.
  destruct c; cbn in Hc; [subst | contradiction].
  cbn [app emitter_checks emitter_check].
  rewrite (check_index_ok _ _ _ _ Hrail Hfresh). cbn [rbind].
  rewrite (check_index_below _ _ _ _ Hfirst Habove). reflexivity.
Qed.

Lemma rail_above_first_strap_trips_check_witness :
  exists output s',
    specify_all_power_straps_by_tracks Examples.high_rail_tool ["M2"]%string "M1"
      "VSS" ["VDD"]%string [1] None [] true Fixture.s0
    = (Ok output, s')
    /\ emitter_checks Examples.high_rail_tool output (-1)
       = Err (AssertionError "Must construct power straps from bottom to top").
Proof.
  assert (Hrun : exists output s',
    specify_all_power_straps_by_tracks Examples.high_rail_tool ["M2"]%string "M1"
      "VSS" ["VDD"]%string [1] None [] true Fixture.s0
    = (Ok output, s')) by (eexists; eexists; vm_compute; reflexivity).
  destruct Hrun as (output & s' & Hrun).
  assert (Hrail : Stackup.get_metal (Tool.get_stackup Examples.high_rail_tool)
                    (Tool.std_cell_rail_layer Examples.high_rail_tool)
                  = Ok Fixture.M3) by reflexivity.
  assert (Hfirst : Stackup.get_metal (Tool.get_stackup Examples.high_rail_tool) "M2"
                   = Ok Fixture.M2) by reflexivity.
  assert (Hfresh : -1 <= Metal.index Fixture.M3) by (vm_compute; discriminate).
  assert (Habove : Metal.index Fixture.M2 < Metal.index Fixture.M3) by reflexivity.
  assert (Hsum : 0 < sum [1]) by reflexivity.
  exists output, s'. split; [exact Hrun | ].
  exact (rail_above_first_strap_trips_check _ _ _ _ _ _ _ _ _ _ _ _ _ _ _
           Hrun Hrail Hfirst Hfresh Habove Hsum).
Defined.

(** ** The generator *)

Lemma sum_from l : forall a, fold_left Z.add l a = a + sum l.
Proof.
  unfold sum. induction l as [|x l IH]; intros a; cbn [fold_left].
  - lia.
  - rewrite IH. rewrite (IH (0 + x)). lia.
Qed.

Lemma sum_cons x l : sum (x :: l) = x + sum l.
Proof. unfold sum at 1. cbn [fold_left]. rewrite sum_from. lia. Qed.

Lemma str_in_In x l : str_in x l = true <-> In x l.
Proof.
  unfold str_in. rewrite existsb_exists. split.
  - intros (y & Hy & E). apply String.eqb_eq in E. subst y. exact Hy.
  - intros H. exists x. split; [exact H | apply String.eqb_refl].
Qed.

Lemma map_r_ok {A B} (f : A -> result B) l ys :
  map_r f l = Ok ys -> Forall2 (fun x y => f x = Ok y) l ys.
Proof.
  revert ys. induction l as [|x l IH]; intros ys H; cbn [map_r] in H.
  - injection H as <-. constructor.
  - destruct (f x) as [y|e] eqn:Ey; [ | discriminate H]. cbn [rbind] in H.
    destruct (map_r f l) as [ys'|e]; [ | discriminate H]. cbn [rbind] in H.
    injection H as <-. constructor; [exact Ey | apply IH; reflexivity].
Qed.

Lemma map_r_err {A B} (f : A -> result B) l e :
  map_r f l = Err e -> exists x, In x l /\ f x = Err e.
Proof.
  induction l as [|x l IH]; intros H; cbn [map_r] in H.
  - discriminate H.
  - destruct (f x) as [y|e'] eqn:Ey; cbn [rbind] in H.
    + destruct (map_r f l) as [ys'|e'] eqn:El; cbn [rbind] in H; [discriminate H | ].
      injection H as <-. destruct (IH eq_refl) as (x' & Hin & Hx').
      exists x'. split; [right; exact Hin | exact Hx'].
    + injection H as <-. exists x. split; [left; reflexivity | exact Ey].
Qed.

(** The weight found for a name is that of the one supply of that name. *)
Lemma get_weight_ok par n w :
  get_weight par n = Ok w ->
  exists supply,
    filter (fun s => String.eqb (Supply.name s) n) (Par.get_independent_power_nets par)
    = [supply]
    /\ Supply.weight supply = Some w.
Proof.
  unfold get_weight. intros H.
  destruct (filter (fun s => String.eqb (Supply.name s) n)
                   (Par.get_independent_power_nets par)) as [|s0 [|s1 rest]];
    cbn in H; try discriminate H.
  destruct (Supply.weight s0) as [w'|] eqn:Ew; [ | discriminate H].
  injection H as <-. exists s0. split; [reflexivity | exact Ew].
Qed.

Lemma get_weight_err par n e : get_weight par n = Err e -> e = AssertionError "".
Proof.
  unfold get_weight. intros H.
  destruct (filter (fun s => String.eqb (Supply.name s) n)
                   (Par.get_independent_power_nets par)) as [|s0 [|s1 rest]];
    cbn in H; try (injection H as <-; reflexivity).
  destruct (Supply.weight s0); [discriminate H | injection H as <-; reflexivity].
Qed.

Lemma get_weight_of_supply par supply w :
  In supply (Par.get_independent_power_nets par) ->
  get_weight par (Supply.name supply) = Ok w ->
  Supply.weight supply = Some w.
Proof.
  intros Hin H. apply get_weight_ok in H. destruct H as (supply' & Hfilter & Hw).
  assert (Hin' : In supply
                   (filter (fun s => String.eqb (Supply.name s) (Supply.name supply))
                           (Par.get_independent_power_nets par))).
  { apply filter_In. split; [exact Hin | apply String.eqb_refl]. }
  rewrite Hfilter in Hin'. destruct Hin' as [<- | []]. exact Hw.
Qed.

(** A run of the generator that returns: the method is [by_tracks], there
    is one ground net, and the builder has run on the chosen nets and their
    weights, over the whole core area. *)
Lemma generator_returns_inv self par s output s' :
  generate_power_straps_tcl self par s = (Ran (Ok output), s') ->
  Par.generate_power_straps_method par = "by_tracks"
  /\ exists ground_net power_net_names weights,
       map Supply.name (Par.get_independent_ground_nets par) = [ground_net]
       /\ ((Par.power_nets par = []
            /\ power_net_names = map Supply.name (Par.get_independent_power_nets par))
           \/ (Par.power_nets par <> [] /\ power_net_names = Par.power_nets par
               /\ forall n, In n power_net_names ->
                    In n (map Supply.name (Par.get_independent_power_nets par))))
       /\ map_r (get_weight par) power_net_names = Ok weights
       /\ specify_all_power_straps_by_tracks self (Par.strap_layers par)
            (if String.eqb (Par.bottom_via_layer par) "rail"
             then Tool.std_cell_rail_layer self else Par.bottom_via_layer par)
            ground_net power_net_names weights None (Par.pin_layers par)
            (Par.generate_rail_layer par) s
          = (Ok output, s').
Proof.
  unfold generate_power_straps_tcl. intros H.
  destruct (String.eqb (Par.generate_power_straps_method par) "by_tracks") eqn:Em;
    [ | discriminate H].
  apply String.eqb_eq in Em. split; [exact Em | ].
  destruct (generate_by_tracks self par s) as [r s1] eqn:Hrun.
  injection H as -> ->. unfold generate_by_tracks in Hrun.
  apply bind_ok_inv in Hrun. destruct Hrun as (nets & s2 & Hnets & Hrun).
  apply bind_ok_inv in Hrun. destruct Hrun as (weights & s3 & Hweights & Hrun).
  unfold lift in Hweights. injection Hweights as Hweights <-.
  apply bind_ok_inv in Hrun. destruct Hrun as ([] & s4 & Hone & Hrun).
  unfold lift, py_assert in Hone.
  destruct (List.length (map Supply.name (Par.get_independent_ground_nets par)) =? 1)%nat
    eqn:Eone; [ | discriminate Hone].
  injection Hone as <-.
  apply bind_ok_inv in Hrun. destruct Hrun as (ground_net & s5 & Hground & Hrun).
  unfold lift, list_get in Hground.
  destruct (map Supply.name (Par.get_independent_ground_nets par)) as [|g [|g' rest]]
    eqn:Egrounds; cbn in Eone, Hground; try discriminate.
  injection Hground as <- <-.
  exists g, nets, weights. split; [reflexivity | ]. split.
  - destruct (Par.power_nets par) as [|n specified] eqn:Espec; cbn [List.length Nat.eqb negb] in Hnets.
    + unfold ret in Hnets. injection Hnets as <- <-. left. split; reflexivity.
    + apply bind_ok_inv in Hnets. destruct Hnets as ([] & s6 & Hall & Hnets).
      unfold ret in Hnets. injection Hnets as <- <-.
      unfold lift, py_assert in Hall.
      destruct (forallb _ (n :: specified)) eqn:Eall; [ | discriminate Hall].
      injection Hall as <-.
      right. split; [discriminate | ]. split; [reflexivity | ].
      intros n' Hn'. rewrite forallb_forall in Eall. apply str_in_In. apply Eall. exact Hn'.
  - split; [exact Hweights | ].
    assert (s2 = s) as ->.
    { destruct (Par.power_nets par) as [|n specified]; cbn [List.length Nat.eqb negb] in Hnets.
      - unfold ret in Hnets. injection Hnets as _ <-. reflexivity.
      - apply bind_ok_inv in Hnets. destruct Hnets as ([] & s6 & Hall & Hnets).
        unfold ret in Hnets. injection Hnets as _ <-.
        unfold lift in Hall. injection Hall as _ <-. reflexivity. }
    exact Hrun.
Qed.

Lemma filter_unique {A} (f : A -> string) l x :
  NoDup (map f l) -> In x l ->
  filter (fun y => String.eqb (f y) (f x)) l = [x].
Proof.
  induction l as [|a l IH]; intros Hnd Hin; [contradiction | ].
  cbn [map] in Hnd. inversion Hnd as [|? ? Hna Hnd']; subst.
  assert (Hnone : forall z, ~ In z (map f l) ->
                    filter (fun y => String.eqb (f y) z) l = []).
  { intros z Hz. clear -Hz. induction l as [|b l IHl]; [reflexivity | ].
    cbn [filter]. destruct (String.eqb (f b) z) eqn:E.
    - apply String.eqb_eq in E. exfalso. apply Hz. left. exact E.
    - apply IHl. intros H. apply Hz. right. exact H. }
  cbn [filter]. destruct Hin as [-> | Hin].
  - rewrite String.eqb_refl. rewrite Hnone by exact Hna. reflexivity.
  - destruct (String.eqb (f a) (f x)) eqn:E.
    + apply String.eqb_eq in E. exfalso. apply Hna. rewrite E. apply in_map. exact Hin.
    + apply IH; assumption.
Qed.

Lemma unique_filters_NoDup {A} (f : A -> string) l :
  (forall x, In x l ->
     List.length (filter (fun y => String.eqb (f y) (f x)) l) = 1%nat) ->
  NoDup (map f l).
Proof.
  induction l as [|a l IH]; intros H; cbn [map]; [constructor | ].
  constructor.
  - intros Hin. apply in_map_iff in Hin. destruct Hin as (b & Eb & Hb).
    specialize (H a (or_introl eq_refl)). cbn [filter] in H.
    rewrite String.eqb_refl in H. cbn [List.length] in H.
    assert (Hb' : In b (filter (fun y => String.eqb (f y) (f a)) l)).
    { apply filter_In. split; [exact Hb | apply String.eqb_eq; exact Eb]. }
    destruct (filter (fun y => String.eqb (f y) (f a)) l); [contradiction | ].
    cbn in H. lia.
  - apply IH. intros x Hx. specialize (H x (or_intror Hx)).
    assert (Hx' : In x (filter (fun y => String.eqb (f y) (f x)) l)).
    { apply filter_In. split; [exact Hx | apply String.eqb_refl]. }
    cbn [filter] in H. destruct (String.eqb (f a) (f x)).
    + cbn [List.length] in H.
      destruct (filter (fun y => String.eqb (f y) (f x)) l); [contradiction | ].
      cbn in H. lia.
    + exact H.
Qed.

Lemma Forall2_In_l {A B} (R : A -> B -> Prop) l l' x :
  Forall2 R l l' -> In x l -> exists y, In y l' /\ R x y.
Proof.
  intros H. induction H as [|a b l l' Hab H IH]; intros Hin; [contradiction | ].
  destruct Hin as [-> | Hin].
  - exists b. split; [left; reflexivity | exact Hab].
  - destruct (IH Hin) as (y & Hy & Hxy). exists y. split; [right; exact Hy | exact Hxy].
Qed.

Lemma Forall2_In_r {A B} (R : A -> B -> Prop) l l' y :
  Forall2 R l l' -> In y l' -> exists x, In x l /\ R x y.
Proof.
  intros H. induction H as [|a b l l' Hab H IH]; intros Hin; [contradiction | ].
  destruct Hin as [-> | Hin].
  - exists a. split; [left; reflexivity | exact Hab].
  - destruct (IH Hin) as (x & Hx & Hxy). exists x. split; [right; exact Hx | exact Hxy].
Qed.

Lemma map_r_total {A B} (f : A -> result B) l :
  (forall x, In x l -> exists y, f x = Ok y) -> exists ys, map_r f l = Ok ys.
Proof.
  induction l as [|a l IH]; intros H.
  - exists []. reflexivity.
  - destruct (H a (or_introl eq_refl)) as (y & Hy).
    destruct IH as (ys & Hys); [intros x Hx; apply H; right; exact Hx | ].
    exists (y :: ys). cbn [map_r]. rewrite Hy. cbn [rbind]. rewrite Hys. reflexivity.
Qed.

(** The weights of all independent power nets are found exactly when their
    names are distinct and each has a weight. *)
Lemma weights_found par :
  (exists weights,
     map_r (get_weight par) (map Supply.name (Par.get_independent_power_nets par))
     = Ok weights)
  <-> NoDup (map Supply.name (Par.get_independent_power_nets par))
      /\ Forall (fun supply => Supply.weight supply <> None)
                (Par.get_independent_power_nets par).
Proof.
  split.
  - intros (weights & H). apply map_r_ok in H.
    assert (Hall : forall supply, In supply (Par.get_independent_power_nets par) ->
                     exists w, get_weight par (Supply.name supply) = Ok w).
    { intros supply Hin.
      destruct (Forall2_In_l _ _ _ (Supply.name supply) H (in_map _ _ _ Hin))
        as (w & _ & Hw).
      exists w. exact Hw. }
    split.
    + apply unique_filters_NoDup. intros supply Hin.
      destruct (Hall supply Hin) as (w & Hw). apply get_weight_ok in Hw.
      destruct Hw as (supply' & -> & _). reflexivity.
    + apply Forall_forall. intros supply Hin.
      destruct (Hall supply Hin) as (w & Hw).
      rewrite (get_weight_of_supply _ _ _ Hin Hw). discriminate.
  - intros (Hnd & Hw).
    assert (Hone : forall supply, In supply (Par.get_independent_power_nets par) ->
                     exists w, get_weight par (Supply.name supply) = Ok w).
    { intros supply Hin. unfold get_weight.
      rewrite (filter_unique Supply.name _ _ Hnd Hin). cbn.
      rewrite Forall_forall in Hw. specialize (Hw supply Hin).
      destruct (Supply.weight supply) as [w|]; [ | contradiction].
      exists w. reflexivity. }
    apply map_r_total. intros n Hn. apply in_map_iff in Hn.
    destruct Hn as (supply & <- & Hin). apply Hone. exact Hin.
Qed.

Lemma map_r_weights_err par names e :
  map_r (get_weight par) names = Err e -> e = AssertionError "".
Proof.
  intros H. apply map_r_err in H. destruct H as (n & _ & Hn).
  apply get_weight_err in Hn. exact Hn.
Qed.

(** The run of the generator when no power net is specified. *)
Lemma generator_run_all_nets self par s :
  Par.generate_power_straps_method par = "by_tracks" ->
  Par.power_nets par = [] ->
  generate_power_straps_tcl self par s
  = match map_r (get_weight par)
            (map Supply.name (Par.get_independent_power_nets par)) with
    | Err e => (Ran (Err e), s)
    | Ok weights =>
        match map Supply.name (Par.get_independent_ground_nets par) with
        | [ground_net] =>
            let '(r, s') :=
              specify_all_power_straps_by_tracks self (Par.strap_layers par)
                (if String.eqb (Par.bottom_via_layer par) "rail"
                 then Tool.std_cell_rail_layer self else Par.bottom_via_layer par)
                ground_net (map Supply.name (Par.get_independent_power_nets par))
                weights None (Par.pin_layers par) (Par.generate_rail_layer par) s in
            (Ran r, s')
        | _ => (Ran (Err (AssertionError
                            "FIXME, I am assuming there's only 1 ground net")), s)
        end
    end.
Proof.
  intros Hmethod Hspec. unfold generate_power_straps_tcl. rewrite Hmethod.
  cbn [String.eqb]. change (String.eqb "by_tracks" "by_tracks") with true. cbv iota.
  unfold generate_by_tracks. rewrite Hspec. cbn [List.length Nat.eqb negb].
  rewrite bind_run. unfold ret at 1. cbv beta iota.
  rewrite bind_run. unfold lift at 1.
  destruct (map_r (get_weight par)
              (map Supply.name (Par.get_independent_power_nets par))) as [weights|e];
    [ | reflexivity].
  rewrite bind_run. unfold lift at 1.
  destruct (map Supply.name (Par.get_independent_ground_nets par)) as [|g [|g' rest]];
    cbn [List.length Nat.eqb py_assert]; reflexivity.
Qed.

(** X16: the generator stops before it has done anything when the method
    is not [by_tracks] (with the [NotImplementedError] that names it), when
    a specified power net is not an independent power net, when -- no net
    being specified -- two independent power nets share a name or one has
    no weight, and when there is not exactly one ground net. *)
Theorem generator_fails_before_any_effect self par s :
  (Par.generate_power_straps_method par <> "by_tracks" ->
   generate_power_straps_tcl self par s
   = (NotImplementedError
        ("Power strap generation method " ++ Par.generate_power_straps_method par
         ++ " is not implemented")%string, s))
  /\ (Par.generate_power_straps_method par = "by_tracks" ->
      (exists n, In n (Par.power_nets par)
                 /\ ~ In n (map Supply.name (Par.get_independent_power_nets par))) ->
      generate_power_straps_tcl self par s = (Ran (Err (AssertionError "")), s))
  /\ (Par.generate_power_straps_method par = "by_tracks" ->
      Par.power_nets par = [] ->
      (~ NoDup (map Supply.name (Par.get_independent_power_nets par))
       \/ exists supply, In supply (Par.get_independent_power_nets par)
                         /\ Supply.weight supply = None) ->
      generate_power_straps_tcl self par s = (Ran (Err (AssertionError "")), s))
  /\ (Par.generate_power_straps_method par = "by_tracks" ->
      Par.power_nets par = [] ->
      NoDup (map Supply.name (Par.get_independent_power_nets par)) ->
      Forall (fun supply => Supply.weight supply <> None)
             (Par.get_independent_power_nets par) ->
      List.length (Par.get_independent_ground_nets par) <> 1%nat ->
      generate_power_straps_tcl self par s
      = (Ran (Err (AssertionError "FIXME, I am assuming there's only 1 ground net")), s)).
Proof.
  split; [ | split; [ | split]].
  - intros Hmethod. unfold generate_power_straps_tcl.
    destruct (String.eqb (Par.generate_power_straps_method par) "by_tracks") eqn:E.
    + apply String.eqb_eq in E. contradiction.
    + reflexivity.
  - intros Hmethod (n & Hn & Hnot). unfold generate_power_straps_tcl. rewrite Hmethod.
    change (String.eqb "by_tracks" "by_tracks") with true. cbv iota.
    unfold generate_by_tracks.
    destruct (Par.power_nets par) as [|n0 specified] eqn:Espec; [contradiction | ].
    cbn [List.length Nat.eqb negb].
    rewrite bind_run. rewrite bind_run. unfold lift at 1.
    destruct (forallb (fun n1 => str_in n1 (map Supply.name
                                               (Par.get_independent_power_nets par)))
                      (n0 :: specified)) eqn:Eall.
    + rewrite forallb_forall in Eall. specialize (Eall n Hn).
      apply str_in_In in Eall. contradiction.
    + reflexivity.
  - intros Hmethod Hspec Hbad. rewrite (generator_run_all_nets _ _ _ Hmethod Hspec).
    destruct (map_r (get_weight par)
                (map Supply.name (Par.get_independent_power_nets par)))
      as [weights|e] eqn:Hw.
    + exfalso. destruct (proj1 (weights_found par) (ex_intro _ weights Hw)) as (Hnd & Hall).
      destruct Hbad as [Hdup | (supply & Hin & Hnone)].
      * apply Hdup. exact Hnd.
      * rewrite Forall_forall in Hall. apply (Hall supply Hin). exact Hnone.
    + rewrite (map_r_weights_err _ _ _ Hw). reflexivity.
  - intros Hmethod Hspec Hnd Hall Hground.
    rewrite (generator_run_all_nets _ _ _ Hmethod Hspec).
    destruct (proj2 (weights_found par) (conj Hnd Hall)) as (weights & ->).
    rewrite <- (length_map Supply.name) in Hground.
    destruct (map Supply.name (Par.get_independent_ground_nets par)) as [|g [|g' rest]];
      try reflexivity.
    exfalso. apply Hground. reflexivity.
Qed.

Lemma generator_fails_before_any_effect_witness :
  generate_power_straps_tcl (Fixture.tool [] true)
    (Examples.par "by_pitch" [] Examples.supplies) Fixture.s0
  = (NotImplementedError "Power strap generation method by_pitch is not implemented",
     Fixture.s0)
  /\ generate_power_straps_tcl (Fixture.tool [] true)
       (Examples.par "by_tracks" ["VDDB"]%string Examples.supplies) Fixture.s0
     = (Ran (Err (AssertionError "")), Fixture.s0)
  /\ generate_power_straps_tcl (Fixture.tool [] true)
       (Examples.par "by_tracks" []
          [Supply.mk "VDD" (Some 1); Supply.mk "VDD" (Some 1)]) Fixture.s0
     = (Ran (Err (AssertionError "")), Fixture.s0)
  /\ generate_power_straps_tcl (Fixture.tool [] true)
       (Par.mk "by_tracks" ["M2"; "M3"]%string ["M3"]%string true [] "rail" []
               Examples.supplies) Fixture.s0
     = (Ran (Err (AssertionError "FIXME, I am assuming there's only 1 ground net")),
        Fixture.s0).
Proof.
  split; [ | split; [ | split]].
  - assert (H : Par.generate_power_straps_method
                  (Examples.par "by_pitch" [] Examples.supplies) <> "by_tracks")
      by discriminate.
    exact (proj1 (generator_fails_before_any_effect (Fixture.tool [] true)
                    (Examples.par "by_pitch" [] Examples.supplies) Fixture.s0) H).
  - assert (H : exists n, In n (Par.power_nets
                                  (Examples.par "by_tracks" ["VDDB"]%string
                                     Examples.supplies))
                          /\ ~ In n (map Supply.name
                                       (Par.get_independent_power_nets
                                          (Examples.par "by_tracks" ["VDDB"]%string
                                             Examples.supplies)))).
    { exists "VDDB"%string. split; [left; reflexivity | ].
      intros [H | [H | []]]; discriminate H. }
    exact (proj1 (proj2 (generator_fails_before_any_effect (Fixture.tool [] true)
                           (Examples.par "by_tracks" ["VDDB"]%string Examples.supplies)
                           Fixture.s0)) eq_refl H).
  - assert (H : ~ NoDup (map Supply.name
                           [Supply.mk "VDD" (Some 1); Supply.mk "VDD" (Some 1)])).
    { intros H. inversion H as [|? ? Hin _]. apply Hin. left. reflexivity. }
    exact (proj1 (proj2 (proj2 (generator_fails_before_any_effect (Fixture.tool [] true)
                                  (Examples.par "by_tracks" []
                                     [Supply.mk "VDD" (Some 1); Supply.mk "VDD" (Some 1)])
                                  Fixture.s0))) eq_refl eq_refl (or_introl H)).
  - assert (Hnd : NoDup (map Supply.name Examples.supplies)).
    { repeat constructor; cbn; intros H; repeat destruct H as [H | H];
        try discriminate H; try contradiction. }
    assert (Hall : Forall (fun supply => Supply.weight supply <> None) Examples.supplies)
      by (repeat constructor; discriminate).
    assert (Hground : List.length (@nil Supply.t) <> 1%nat) by discriminate.
    exact (proj2 (proj2 (proj2 (generator_fails_before_any_effect (Fixture.tool [] true)
                                  (Par.mk "by_tracks" ["M2"; "M3"]%string ["M3"]%string
                                     true [] "rail" [] Examples.supplies)
                                  Fixture.s0))) eq_refl eq_refl Hnd Hall Hground).
Defined.

Lemma unit_weights weights :
  Forall (fun w => 1 <= w) weights ->
  sum weights <= Z.of_nat (List.length weights) ->
  Forall (fun w => w = 1) weights.
Proof.
  intros Hall.
  assert (Hlow : forall l, Forall (fun w => 1 <= w) l -> Z.of_nat (List.length l) <= sum l).
  { intros l Hl. induction Hl as [|w l Hw Hl IH].
    - cbn. lia.
    - rewrite sum_cons. cbn [List.length]. lia. }
  induction Hall as [|w weights Hw Hall IH]; intros Hsum; [constructor | ].
  rewrite sum_cons in Hsum. cbn [List.length] in Hsum.
  pose proof (Hlow weights Hall) as Hlow'.
  constructor; [lia | apply IH; lia].
Qed.

(** X17: with strap layers to build and weights that are all at least 1,
    the generator returns only if every supply it stripes has weight 1. *)
Theorem generator_returns_only_for_unit_weights self par s output s' :
  generate_power_straps_tcl self par s = (Ran (Ok output), s') ->
  Par.strap_layers par <> [] ->
  (forall supply w, In supply (Par.get_independent_power_nets par) ->
     Supply.weight supply = Some w -> 1 <= w) ->
  forall supply, striped par supply -> Supply.weight supply = Some 1.
Proof.
  intros Hrun Hlayers Hpos supply (Hin & Hstriped).
  apply generator_returns_inv in Hrun.
  destruct Hrun as (_ & g & nets & weights & _ & Hnets & Hweights & Hrun).
  apply map_r_ok in Hweights.
  apply builder_returns_inv in Hrun.
  destruct Hrun as (last & last' & s1 & s2 & _ & Hlen & Hloop & _).
  apply layers_loop_emitted in Hloop. destruct Hloop as (added & _ & _ & _ & Hsum).
  specialize (Hsum Hlayers).
  assert (Hall : Forall (fun w => 1 <= w) weights).
  { apply Forall_forall. intros w Hw.
    destruct (Forall2_In_r _ _ _ _ Hweights Hw) as (n & _ & Hn).
    apply get_weight_ok in Hn. destruct Hn as (supply' & Hfilter & Hw').
    apply (Hpos supply'); [ | exact Hw'].
    assert (Hin' : In supply' [supply']) by (left; reflexivity).
    rewrite <- Hfilter in Hin'. apply filter_In in Hin'. exact (proj1 Hin'). }
  assert (Hunit : Forall (fun w => w = 1) weights).
  { apply unit_weights; [exact Hall | ].
    assert (0 <= sum weights).
    { clear -Hall. induction Hall as [|w l Hw Hl IH]; [cbn; lia | rewrite sum_cons; lia]. }
    lia. }
  assert (Hname : In (Supply.name supply) nets).
  { destruct Hnets as [(_ & ->) | (Hne & -> & _)].
    - apply in_map. exact Hin.
    - destruct Hstriped as [E | Hs]; [contradiction | exact Hs]. }
  destruct (Forall2_In_l _ _ _ _ Hweights Hname) as (w & Hw & Hget).
  rewrite Forall_forall in Hunit. rewrite (Hunit w Hw) in Hget.
  apply (get_weight_of_supply _ _ _ Hin Hget).
Qed.

Lemma generator_returns_only_for_unit_weights_witness :
  exists output s',
    generate_power_straps_tcl (Fixture.tool [] true)
      (Examples.par "by_tracks" [] Examples.supplies) Fixture.s0
    = (Ran (Ok output), s')
    /\ Supply.weight (Supply.mk "VDDA" (Some 1)) = Some 1.
Proof.
  assert (Hrun : exists output s',
    generate_power_straps_tcl (Fixture.tool [] true)
      (Examples.par "by_tracks" [] Examples.supplies) Fixture.s0
    = (Ran (Ok output), s')) by (eexists; eexists; vm_compute; reflexivity).
  destruct Hrun as (output & s' & Hrun). exists output, s'. split; [exact Hrun | ].
  assert (Hlayers : Par.strap_layers (Examples.par "by_tracks" [] Examples.supplies) <> [])
    by discriminate.
  assert (Hpos : forall supply w,
            In supply (Par.get_independent_power_nets
                         (Examples.par "by_tracks" [] Examples.supplies)) ->
            Supply.weight supply = Some w -> 1 <= w).
  { intros supply w [<- | [<- | []]] Hw; injection Hw as <-; lia. }
  assert (Hstriped : striped (Examples.par "by_tracks" [] Examples.supplies)
                       (Supply.mk "VDDA" (Some 1))).
  { split; [right; left; reflexivity | left; reflexivity]. }
  exact (generator_returns_only_for_unit_weights _ _ _ _ _ Hrun Hlayers Hpos _ Hstriped).
Defined.

(** X18: the calls of a generator run that returns are for the whole core
    area (no bounding box), the one ground net and power nets that are
    independent power nets: those of the setting [power_nets] when it is not
    empty, and all of them otherwise. *)
Theorem generator_straps_selected_nets self par s output s' :
  generate_power_straps_tcl self par s = (Ran (Ok output), s') ->
  exists ground_net power_net_names,
    map Supply.name (Par.get_independent_ground_nets par) = [ground_net]
    /\ incl power_net_names (map Supply.name (Par.get_independent_power_nets par))
    /\ (Par.power_nets par <> [] -> power_net_names = Par.power_nets par)
    /\ (Par.power_nets par = [] ->
        power_net_names = map Supply.name (Par.get_independent_power_nets par))
    /\ Forall (emitted_for (Par.strap_layers par) ground_net power_net_names None) output.
Proof.
  intros Hrun. apply generator_returns_inv in Hrun.
  destruct Hrun as (_ & g & nets & weights & Hground & Hnets & _ & Hrun).
  exists g, nets. split; [exact Hground | ].
  apply builder_returns_inv in Hrun.
  destruct Hrun as (last & last' & s1 & s2 & _ & _ & Hloop & _).
  apply layers_loop_emitted in Hloop. destruct Hloop as (added & -> & _ & Hall & _).
  split; [ | split; [ | split]].
  - destruct Hnets as [(_ & ->) | (_ & _ & Hincl)]; [apply incl_refl | exact Hincl].
  - intros Hne. destruct Hnets as [(E & _) | (_ & -> & _)]; [contradiction | reflexivity].
  - intros E. destruct Hnets as [(_ & ->) | (Hne & _)]; [reflexivity | contradiction].
  - apply Forall_app. split; [ | exact Hall].
    destruct (Par.generate_rail_layer par); repeat constructor.
Qed.

Lemma generator_straps_selected_nets_witness :
  exists output s' ground_net,
    generate_power_straps_tcl (Fixture.tool [] true)
      (Examples.par "by_tracks" ["VDDA"]%string Examples.supplies) Fixture.s0
    = (Ran (Ok output), s')
    /\ Forall (emitted_for ["M2"; "M3"]%string ground_net ["VDDA"]%string None) output.
Proof.
  assert (Hrun : exists output s',
    generate_power_straps_tcl (Fixture.tool [] true)
      (Examples.par "by_tracks" ["VDDA"]%string Examples.supplies) Fixture.s0
    = (Ran (Ok output), s')) by (eexists; eexists; vm_compute; reflexivity).
  destruct Hrun as (output & s' & Hrun).
  destruct (generator_straps_selected_nets _ _ _ _ _ Hrun)
    as (g & nets & _ & _ & Hspec & _ & Hall).
  assert (Hne : Par.power_nets (Examples.par "by_tracks" ["VDDA"]%string Examples.supplies)
                <> []) by discriminate.
  rewrite (Hspec Hne) in Hall.
  exists output, s', g. split; [exact Hrun | exact Hall].
Defined.

(** X19: with the bottom via layer left at [rail], the calls of a generator
    run that returns pass the index check of the emitters on a tool object
    that has not emitted above the rail layer. *)
Theorem generated_calls_pass_index_check self par s output s' rail last_index :
  generate_power_straps_tcl self par s = (Ran (Ok output), s') ->
  Par.bottom_via_layer par = "rail" ->
  Stackup.get_metal (Tool.get_stackup self) (Tool.std_cell_rail_layer self) = Ok rail ->
  last_index <= Metal.index rail ->
  exists top, emitter_checks self output last_index = Ok top /\ last_index <= top.
Proof.
  intros Hrun Hoption Hrail Hfresh. apply generator_returns_inv in Hrun.
  destruct Hrun as (_ & g & nets & weights & _ & _ & _ & Hrun).
  rewrite Hoption in Hrun. change (String.eqb "rail" "rail") with true in Hrun.
  cbv iota in Hrun. apply builder_returns_inv in Hrun.
  destruct Hrun as (last & last' & s1 & s2 & Hlast & _ & Hloop & _).
  rewrite Hrail in Hlast. injection Hlast as <-.
  apply layers_loop_checks in Hloop. destruct Hloop as (added & -> & Hchecks).
  rewrite emitter_checks_app.
  destruct (Par.generate_rail_layer par).
  - cbn [emitter_checks emitter_check].
    rewrite (check_index_ok _ _ _ _ Hrail Hfresh). cbn [rbind].
    destruct (Hchecks (Metal.index rail) (Z.le_refl _)) as (top & Hrun & Hlo & _).
    exists top. split; [exact Hrun | lia].
  - cbn [emitter_checks rbind].
    destruct (Hchecks last_index Hfresh) as (top & Hrun & Hlo & _).
    exists top. split; [exact Hrun | exact Hlo].
Qed.

Lemma generated_calls_pass_index_check_witness :
  exists output s' top,
    generate_power_straps_tcl (Fixture.tool [] true)
      (Examples.par "by_tracks" [] Examples.supplies) Fixture.s0
    = (Ran (Ok output), s')
    /\ emitter_checks (Fixture.tool [] true) output (-1) = Ok top.
Proof.
  assert (Hrun : exists output s',
    generate_power_straps_tcl (Fixture.tool [] true)
      (Examples.par "by_tracks" [] Examples.supplies) Fixture.s0
    = (Ran (Ok output), s')) by (eexists; eexists; vm_compute; reflexivity).
  destruct Hrun as (output & s' & Hrun).
  assert (Hoption : Par.bottom_via_layer (Examples.par "by_tracks" [] Examples.supplies)
                    = "rail") by reflexivity.
  assert (Hrail : Stackup.get_metal (Tool.get_stackup (Fixture.tool [] true))
                    (Tool.std_cell_rail_layer (Fixture.tool [] true)) = Ok Fixture.M1)
    by reflexivity.
  assert (Hfresh : -1 <= Metal.index Fixture.M1) by (vm_compute; discriminate).
  destruct (generated_calls_pass_index_check _ _ _ _ _ _ _ Hrun Hoption Hrail Hfresh)
    as (top & Hchecks & _).
  exists output, s', top. split; [exact Hrun | exact Hchecks].
Defined.

(** ** The enumerations: strings and back *)

Lemma hierarchical_mode_from_str_cases x :
  (exists m, HierarchicalMode.from_str x = Ok m /\ HierarchicalMode.__str__ m = Ok x)
  \/ (HierarchicalMode.from_str x
      = Err (ValueError ("Invalid string for HierarchicalMode: " ++ x)%string)
      /\ forall m, HierarchicalMode.__str__ m <> Ok x).
Proof.
  unfold HierarchicalMode.from_str, HierarchicalMode.__mapping. cbn [dict_get].
  destruct (String.eqb "flat" x) eqn:E1;
    [apply String.eqb_eq in E1; subst x; left; eexists; split; reflexivity | ].
  destruct (String.eqb "leaf" x) eqn:E2;
    [apply String.eqb_eq in E2; subst x; left; eexists; split; reflexivity | ].
  destruct (String.eqb "hierarchical" x) eqn:E3;
    [apply String.eqb_eq in E3; subst x; left; eexists; split; reflexivity | ].
  destruct (String.eqb "top" x) eqn:E4;
    [apply String.eqb_eq in E4; subst x; left; eexists; split; reflexivity | ].
  right. split; [reflexivity | ].
  intros m H. destruct m; vm_compute in H; injection H as <-;
    rewrite String.eqb_refl in *; discriminate.
Qed.

(** X20: [HierarchicalMode.from_str] and [str] are inverse of each other:
    every mode has a name that [from_str] reads back, [from_str(x)] is [m]
    exactly when [str(m)] is [x], and a string that is the name of no mode
    raises the [ValueError] that quotes it. *)
Theorem hierarchical_mode_round_trip :
  (forall m, exists x,
     HierarchicalMode.__str__ m = Ok x /\ HierarchicalMode.from_str x = Ok m)
  /\ (forall x m, HierarchicalMode.from_str x = Ok m <-> HierarchicalMode.__str__ m = Ok x)
  /\ (forall x, (forall m, HierarchicalMode.__str__ m <> Ok x) ->
        HierarchicalMode.from_str x
        = Err (ValueError ("Invalid string for HierarchicalMode: " ++ x)%string)).
Proof.
  assert (Hback : forall m x, HierarchicalMode.__str__ m = Ok x ->
                    HierarchicalMode.from_str x = Ok m).
  { intros m x H. destruct m; vm_compute in H; injection H as <-; reflexivity. }
  split; [ | split].
  - intros m. destruct m; eexists; split; reflexivity.
  - intros x m. split; [ | apply Hback].
    intros H. destruct (hierarchical_mode_from_str_cases x) as [(m' & Hm' & Hstr) | (He & _)].
    + rewrite Hm' in H. injection H as <-. exact Hstr.
    + rewrite He in H. discriminate H.
  - intros x Hnone.
    destruct (hierarchical_mode_from_str_cases x) as [(m' & _ & Hstr) | (He & _)].
    + exfalso. apply (Hnone m'). exact Hstr.
    + exact He.
Qed.

Lemma hierarchical_mode_round_trip_witness :
  HierarchicalMode.from_str "Top"
  = Err (ValueError "Invalid string for HierarchicalMode: Top").
Proof.
  assert (Hnone : forall m, HierarchicalMode.__str__ m <> Ok "Top"%string)
    by (intros m; destruct m; discriminate).
  exact (proj2 (proj2 hierarchical_mode_round_trip) "Top"%string Hnone).
Defined.

Lemma flow_level_from_str_cases x :
  (exists m, FlowLevel.from_str x = Ok m /\ FlowLevel.__str__ m = Ok x)
  \/ (FlowLevel.from_str x = Err (ValueError ("Invalid string for FlowLevel: " ++ x)%string)
      /\ forall m, FlowLevel.__str__ m <> Ok x).
Proof.
  unfold FlowLevel.from_str, FlowLevel.__mapping. cbn [dict_get].
  destruct (String.eqb "rtl" x) eqn:E1;
    [apply String.eqb_eq in E1; subst x; left; eexists; split; reflexivity | ].
  destruct (String.eqb "syn" x) eqn:E2;
    [apply String.eqb_eq in E2; subst x; left; eexists; split; reflexivity | ].
  destruct (String.eqb "par" x) eqn:E3;
    [apply String.eqb_eq in E3; subst x; left; eexists; split; reflexivity | ].
  right. split; [reflexivity | ].
  intros m H. destruct m; vm_compute in H; injection H as <-;
    rewrite String.eqb_refl in *; discriminate.
Qed.

(** X21: [FlowLevel.from_str] and [str] are inverse of each other, and a
    string that is the name of no level raises the [ValueError] that quotes
    it. *)
Theorem flow_level_round_trip :
  (forall m, exists x, FlowLevel.__str__ m = Ok x /\ FlowLevel.from_str x = Ok m)
  /\ (forall x m, FlowLevel.from_str x = Ok m <-> FlowLevel.__str__ m = Ok x)
  /\ (forall x, (forall m, FlowLevel.__str__ m <> Ok x) ->
        FlowLevel.from_str x
        = Err (ValueError ("Invalid string for FlowLevel: " ++ x)%string)).
Proof.
  assert (Hback : forall m x, FlowLevel.__str__ m = Ok x -> FlowLevel.from_str x = Ok m).
  { intros m x H. destruct m; vm_compute in H; injection H as <-; reflexivity. }
  split; [ | split].
  - intros m. destruct m; eexists; split; reflexivity.
  - intros x m. split; [ | apply Hback].
    intros H. destruct (flow_level_from_str_cases x) as [(m' & Hm' & Hstr) | (He & _)].
    + rewrite Hm' in H. injection H as <-. exact Hstr.
    + rewrite He in H. discriminate H.
  - intros x Hnone.
    destruct (flow_level_from_str_cases x) as [(m' & _ & Hstr) | (He & _)].
    + exfalso. apply (Hnone m'). exact Hstr.
    + exact He.
Qed.

Lemma flow_level_round_trip_witness :
  FlowLevel.from_str "gds" = Err (ValueError "Invalid string for FlowLevel: gds").
Proof.
  assert (Hnone : forall m, FlowLevel.__str__ m <> Ok "gds"%string)
    by (intros m; destruct m; discriminate).
  exact (proj2 (proj2 flow_level_round_trip) "gds"%string Hnone).
Defined.

(** ** Sign-off results *)

Lemma dict_set_fresh {V} (d : list (string * V)) k v :
  ~ In k (map fst d) -> dict_set String.eqb d k v = d ++ [(k, v)].
Proof.
  induction d as [|[k' v'] d IH]; intros Hk; cbn [dict_set app]; [reflexivity | ].
  destruct (String.eqb k' k) eqn:E.
  - apply String.eqb_eq in E. exfalso. apply Hk. left. exact E.
  - rewrite IH; [reflexivity | ]. intros H. apply Hk. right. exact H.
Qed.

Lemma dict_get_In {V} (d : list (string * V)) k v :
  NoDup (map fst d) -> In (k, v) d -> dict_get String.eqb d k = Ok v.
Proof.
  induction d as [|[k' v'] d IH]; intros Hnd Hin; [contradiction | ].
  cbn [map fst] in Hnd. inversion Hnd as [|? ? Hk' Hnd']; subst.
  cbn [dict_get]. destruct Hin as [E | Hin].
  - injection E as -> ->. rewrite String.eqb_refl. reflexivity.
  - destruct (String.eqb k' k) eqn:E.
    + apply String.eqb_eq in E. subst k'. exfalso. apply Hk'.
      apply (in_map fst) in Hin. exact Hin.
    + apply IH; assumption.
Qed.

Lemma dict_comprehension_fresh {V} (f : string -> result V) (g : string -> V) ks :
  forall acc,
    NoDup (map fst acc ++ ks) ->
    (forall k, In k ks -> f k = Ok (g k)) ->
    dict_comprehension String.eqb ks f acc = Ok (acc ++ map (fun k => (k, g k)) ks).
Proof.
  induction ks as [|k ks IH]; intros acc Hnd Hf; cbn [dict_comprehension map].
  - rewrite app_nil_r. reflexivity.
  - rewrite (Hf k (or_introl eq_refl)). cbn [rbind].
    assert (Hk : ~ In k (map fst acc)).
    { intros H. apply NoDup_remove_2 in Hnd. apply Hnd. apply in_or_app. left. exact H. }
    rewrite dict_set_fresh by exact Hk. rewrite IH.
    + rewrite <- app_assoc. reflexivity.
    + rewrite map_app. cbn [map fst]. rewrite <- app_assoc. exact Hnd.
    + intros k' Hk'. apply Hf. right. exact Hk'.
Qed.

(** The waivers act rule by rule, in place. *)
Lemma drc_results_run res waived :
  NoDup (map fst res) ->
  HammerDRCTool.drc_results res waived
  = Ok (map (fun rule => (fst rule, if str_in (fst rule) waived then 0 else snd rule)) res).
Proof.
  intros Hnd. unfold HammerDRCTool.drc_results.
  rewrite (dict_comprehension_fresh _
             (fun k => if str_in k waived then 0
                       else match dict_get String.eqb res k with
                            | Ok v => v
                            | Err _ => 0
                            end)).
  - cbn [app]. rewrite map_map. f_equal. apply map_ext_in. intros [k v] Hin. cbn [fst snd].
    rewrite (dict_get_In _ _ _ Hnd Hin). reflexivity.
  - exact Hnd.
  - intros k Hk. destruct (str_in k waived); [reflexivity | ].
    apply in_map_iff in Hk. destruct Hk as ([k' v] & <- & Hin). cbn [fst].
    rewrite (dict_get_In _ _ _ Hnd Hin). reflexivity.
Qed.

Lemma waived_sum_bounds res waived :
  Forall (fun rule => 0 <= snd rule) res ->
  0 <= sum (map (fun rule => if str_in (fst rule) waived then 0 else snd rule) res)
    <= sum (map snd res).
Proof.
  intros H. induction H as [|rule res Hrule H IH]; cbn [map].
  - cbn. lia.
  - rewrite !sum_cons. destruct (str_in (fst rule) waived); lia.
Qed.

Lemma waived_sum_zero res waived :
  Forall (fun rule => 0 <= snd rule) res ->
  sum (map (fun rule => if str_in (fst rule) waived then 0 else snd rule) res) = 0
  <-> violations_waived res waived.
Proof.
  unfold violations_waived. intros H. induction H as [|[k v] res Hrule H IH]; cbn [map].
  - split; [intros _ k v [] | reflexivity].
  - rewrite sum_cons. cbn [fst snd] in *.
    pose proof (waived_sum_bounds res waived H) as Hb.
    split.
    + intros Hsum k' v' [E | Hin] Hv'.
      * injection E as <- <-. destruct (str_in k waived) eqn:Ek.
        -- apply str_in_In. exact Ek.
        -- lia.
      * refine (proj1 IH _ k' v' Hin Hv').
        destruct (str_in k waived); lia.
    + intros Hall.
      assert (Htail : sum (map (fun rule => if str_in (fst rule) waived then 0
                                             else snd rule) res) = 0).
      { apply (proj2 IH). intros k' v' Hin. apply Hall. right. exact Hin. }
      rewrite Htail. destruct (str_in k waived) eqn:Ek; [reflexivity | ].
      destruct (Z.eq_dec v 0) as [-> | Hv]; [reflexivity | ].
      specialize (Hall k v (or_introl eq_refl) Hv). apply str_in_In in Hall. congruence.
Qed.

Lemma waived_sum_mono res waived waived' :
  Forall (fun rule => 0 <= snd rule) res ->
  incl waived waived' ->
  sum (map (fun rule => if str_in (fst rule) waived' then 0 else snd rule) res)
  <= sum (map (fun rule => if str_in (fst rule) waived then 0 else snd rule) res).
Proof.
  intros H Hincl. induction H as [|rule res Hrule H IH]; cbn [map].
  - lia.
  - rewrite !sum_cons. destruct (str_in (fst rule) waived) eqn:E.
    + apply str_in_In in E. apply Hincl in E. apply str_in_In in E. rewrite E. lia.
    + destruct (str_in (fst rule) waived'); lia.
Qed.

Lemma after_waivers_map res waived :
  Forall2 (after_waivers waived) res
    (map (fun rule => (fst rule, if str_in (fst rule) waived then 0 else snd rule)) res).
Proof.
  induction res as [|rule res IH]; cbn [map]; constructor.
  - split; reflexivity.
  - exact IH.
Qed.

(** X22: [drc_results] never raises and answers rule by rule, in the order
    of the pre-waiver results: a waived rule counts 0, any other rule keeps
    its count, and a waiver for a rule that was not reported adds no
    entry. *)
Theorem drc_results_waive_in_place res waived :
  NoDup (map fst res) ->
  exists results,
    HammerDRCTool.drc_results res waived = Ok results
    /\ Forall2 (after_waivers waived) res results.
Proof.
  intros Hnd. rewrite (drc_results_run _ _ Hnd). eexists. split; [reflexivity | ].
  apply after_waivers_map.
Qed.

Lemma drc_results_waive_in_place_witness :
  exists results,
    HammerDRCTool.drc_results [("M1.S.1", 3); ("M2.W.1", 2)] ["M2.W.1"; "M9.S.1"]%string
    = Ok results
    /\ Forall2 (after_waivers ["M2.W.1"; "M9.S.1"]%string)
               [("M1.S.1", 3); ("M2.W.1", 2)] results.
Proof.
  assert (Hnd : NoDup (map fst [("M1.S.1"%string, 3); ("M2.W.1"%string, 2)])).
  { repeat constructor; cbn; intros H; repeat destruct H as [H | H];
      try discriminate H; try contradiction. }
  exact (drc_results_waive_in_place _ ["M2.W.1"; "M9.S.1"]%string Hnd).
Defined.

(** X23: with counts that are not negative, the DRC sign-off count lies
    between 0 and the sum of the pre-waiver counts, and it is 0 exactly when
    every violated rule is waived. *)
Theorem drc_signoff_clean_iff res waived :
  NoDup (map fst res) ->
  Forall (fun rule => 0 <= snd rule) res ->
  exists n,
    HammerDRCTool.signoff_results res waived = Ok n
    /\ 0 <= n <= sum (map snd res)
    /\ (n = 0 <-> violations_waived res waived).
Proof.
  intros Hnd Hpos. unfold HammerDRCTool.signoff_results.
  rewrite (drc_results_run _ _ Hnd). cbn [rbind]. rewrite map_map. cbn [snd].
  eexists. split; [reflexivity | ]. split.
  - apply waived_sum_bounds. exact Hpos.
  - apply waived_sum_zero. exact Hpos.
Qed.

Lemma drc_signoff_clean_iff_witness :
  exists n,
    HammerDRCTool.signoff_results [("M1.S.1", 0); ("M2.W.1", 2)] ["M2.W.1"]%string = Ok n
    /\ n = 0.
Proof.
  assert (Hnd : NoDup (map fst [("M1.S.1"%string, 0); ("M2.W.1"%string, 2)])).
  { repeat constructor; cbn; intros H; repeat destruct H as [H | H];
      try discriminate H; try contradiction. }
  assert (Hpos : Forall (fun rule : string * Z => 0 <= snd rule)
                        [("M1.S.1"%string, 0); ("M2.W.1"%string, 2)])
    by (repeat constructor; cbn; lia).
  destruct (drc_signoff_clean_iff _ ["M2.W.1"]%string Hnd Hpos) as (n & Hrun & _ & Hzero).
  exists n. split; [exact Hrun | ]. apply Hzero.
  intros k v [E | [E | []]] Hv; injection E as <- <-.
  - contradiction.
  - left. reflexivity.
Defined.

(** X24: waiving more rules never raises the DRC sign-off count. *)
Theorem drc_waiving_more_never_adds res waived waived' n n' :
  NoDup (map fst res) ->
  Forall (fun rule => 0 <= snd rule) res ->
  incl waived waived' ->
  HammerDRCTool.signoff_results res waived = Ok n ->
  HammerDRCTool.signoff_results res waived' = Ok n' ->
  n' <= n.
Proof.
  intros Hnd Hpos Hincl. unfold HammerDRCTool.signoff_results.
  rewrite !(drc_results_run _ _ Hnd). cbn [rbind]. rewrite !map_map. cbn [snd].
  intros Hn Hn'. injection Hn as <-. injection Hn' as <-.
  apply waived_sum_mono; assumption.
Qed.

Lemma drc_waiving_more_never_adds_witness :
  HammerDRCTool.signoff_results [("M1.S.1", 3); ("M2.W.1", 2)] [] = Ok 5
  /\ HammerDRCTool.signoff_results [("M1.S.1", 3); ("M2.W.1", 2)] ["M2.W.1"]%string = Ok 3
  /\ 3 <= 5.
Proof.
  split; [reflexivity | ]. split; [reflexivity | ].
  assert (Hnd : NoDup (map fst [("M1.S.1"%string, 3); ("M2.W.1"%string, 2)])).
  { repeat constructor; cbn; intros H; repeat destruct H as [H | H];
      try discriminate H; try contradiction. }
  assert (Hpos : Forall (fun rule : string * Z => 0 <= snd rule)
                        [("M1.S.1"%string, 3); ("M2.W.1"%string, 2)])
    by (repeat constructor; cbn; lia).
  assert (Hincl : incl [] ["M2.W.1"%string]) by (intros k []).
  exact (drc_waiving_more_never_adds [("M1.S.1"%string, 3); ("M2.W.1"%string, 2)]
           [] ["M2.W.1"%string] 5 3 Hnd Hpos Hincl eq_refl eq_refl).
Defined.

(** X25: with ERC counts that are not negative, the LVS sign-off count is
    the ERC count after waivers plus one per LVS issue; it is 0 exactly when
    there is no LVS issue and every violated ERC rule is waived. *)
Theorem lvs_signoff_clean_iff res waived lvs_results :
  NoDup (map fst res) ->
  Forall (fun rule => 0 <= snd rule) res ->
  exists results n,
    HammerLVSTool.erc_results res waived = Ok results
    /\ Forall2 (after_waivers waived) res results
    /\ HammerLVSTool.signoff_results res waived lvs_results = Ok n
    /\ n = sum (map snd results) + Z.of_nat (List.length lvs_results)
    /\ (n = 0 <-> lvs_results = [] /\ violations_waived res waived).
Proof.
  intros Hnd Hpos. unfold HammerLVSTool.signoff_results.
  change (HammerLVSTool.erc_results res waived) with (HammerDRCTool.drc_results res waived).
  rewrite (drc_results_run _ _ Hnd). cbn [rbind]. eexists. eexists.
  split; [reflexivity | ]. split; [apply after_waivers_map | ]. split; [reflexivity | ].
  split; [reflexivity | ].
  rewrite map_map. cbn [snd].
  pose proof (waived_sum_bounds res waived Hpos) as Hb.
  pose proof (waived_sum_zero res waived Hpos) as Hz.
  split.
  - intros Hsum. split.
    + destruct lvs_results; [reflexivity | cbn [List.length] in Hsum; lia].
    + apply Hz. lia.
  - intros (-> & Hw). apply Hz in Hw. rewrite Hw. reflexivity.
Qed.

Lemma lvs_signoff_clean_iff_witness :
  exists n,
    HammerLVSTool.signoff_results [("floating_nwell", 4)] ["floating_nwell"]%string [] = Ok n
    /\ n = 0.
Proof.
  assert (Hnd : NoDup (map fst [("floating_nwell"%string, 4)])).
  { repeat constructor; cbn; intros H; repeat destruct H as [H | H];
      try discriminate H; try contradiction. }
  assert (Hpos : Forall (fun rule : string * Z => 0 <= snd rule)
                        [("floating_nwell"%string, 4)])
    by (repeat constructor; cbn; lia).
  destruct (lvs_signoff_clean_iff _ ["floating_nwell"]%string [] Hnd Hpos)
    as (results & n & _ & _ & Hrun & _ & Hzero).
  exists n. split; [exact Hrun | ]. apply Hzero. split; [reflexivity | ].
  intros k v [E | []] Hv. injection E as <- <-. left. reflexivity.
Defined.

(** ** SRAM generation *)

Lemma map_r_all_ok {A B} (f : A -> result B) (g : A -> B) l :
  (forall x, In x l -> f x = Ok (g x)) -> map_r f l = Ok (map g l).
Proof.
  induction l as [|x l IH]; intros H; cbn [map_r map]; [reflexivity | ].
  rewrite (H x (or_introl eq_refl)). cbn [rbind].
  rewrite IH; [reflexivity | ]. intros y Hy. apply H. right. exact Hy.
Qed.

Lemma fold_left_app_concat {A} (l : list (list A)) :
  forall x, fold_left (@app A) l x = x ++ List.concat l.
Proof.
  induction l as [|y l IH]; intros x; cbn [fold_left List.concat].
  - rewrite app_nil_r. reflexivity.
  - rewrite IH. rewrite app_assoc. reflexivity.
Qed.

Lemma reduce_add_concat {A} (l : list (list A)) :
  (if negb (List.length l =? 0)%nat then HammerSRAMGeneratorTool.reduce (@app A) l
   else Ok [])
  = Ok (List.concat l).
Proof.
  destruct l as [|x l]; cbn [List.length Nat.eqb negb HammerSRAMGeneratorTool.reduce List.concat].
  - reflexivity.
  - rewrite fold_left_app_concat. reflexivity.
Qed.

Lemma concat_rows_length {A B C} (row : A -> B -> C) (xs : list A) (ys : list B) :
  List.length (List.concat (map (fun y => map (fun x => row x y) xs) ys))
  = (List.length ys * List.length xs)%nat.
Proof.
  induction ys as [|y ys IH]; cbn [map List.concat List.length]; [reflexivity | ].
  rewrite length_app, length_map, IH. reflexivity.
Qed.

Lemma concat_rows_nth {A B C} (row : A -> B -> C) (xs : list A) (ys : list B) :
  forall i j x y,
    nth_error ys i = Some y -> nth_error xs j = Some x ->
    nth_error (List.concat (map (fun y => map (fun x => row x y) xs) ys))
              (i * List.length xs + j)
    = Some (row x y).
Proof.
  induction ys as [|y0 ys IH]; intros i j x y Hy Hx; [destruct i; discriminate Hy | ].
  cbn [map List.concat]. destruct i as [|i]; cbn [nth_error] in Hy.
  - injection Hy as ->. cbn [Nat.mul Nat.add].
    rewrite nth_error_app1.
    + apply (map_nth_error (fun x => row x y) _ _ Hx).
    + rewrite length_map. apply nth_error_Some. congruence.
  - rewrite nth_error_app2; rewrite length_map; [ | cbn; lia].
    replace (S i * List.length xs + j - List.length xs)%nat
      with (i * List.length xs + j)%nat by (cbn; lia).
    apply IH; assumption.
Qed.

(** X26: when every call of [generate_sram] returns, the step returns
    [True] and leaves one library per corner and parameter, corner by
    corner: the library for the parameter of index [j] at the corner of
    index [i] is at index [i * len(input_parameters) + j]. *)
Theorem srams_one_library_per_corner_and_parameter {P C L : Type}
    (generate_sram : P -> C -> result L) (library : P -> C -> L)
    (parameters : list P) (corners : list C) :
  (forall p c, In p parameters -> In c corners -> generate_sram p c = Ok (library p c)) ->
  exists output_libraries,
    HammerSRAMGeneratorTool.generate_all_srams_and_corners P C L generate_sram
      (Some parameters) corners
    = Ok (output_libraries, true)
    /\ List.length output_libraries = (List.length corners * List.length parameters)%nat
    /\ forall i j c p,
         nth_error corners i = Some c -> nth_error parameters j = Some p ->
         nth_error output_libraries (i * List.length parameters + j)
         = Some (library p c).
Proof.
  intros Hok. unfold HammerSRAMGeneratorTool.generate_all_srams_and_corners.
  rewrite (map_r_all_ok _ (fun c => map (fun p => library p c) parameters)).
  - cbn [rbind]. rewrite reduce_add_concat. cbn [rbind].
    eexists. split; [reflexivity | ]. split.
    + apply concat_rows_length.
    + intros i j c p Hc Hp. apply (concat_rows_nth library); assumption.
  - intros c Hc. unfold HammerSRAMGeneratorTool.generate_all_srams.
    cbn [HammerSRAMGeneratorTool.input_parameters rbind].
    apply map_r_all_ok. intros p Hp. apply Hok; assumption.
Qed.

Lemma srams_one_library_per_corner_and_parameter_witness :
  exists output_libraries,
    HammerSRAMGeneratorTool.generate_all_srams_and_corners string string string
      (fun p c => Ok (p ++ "_" ++ c)%string)
      (Some ["sram32x64"; "sram64x128"]%string) ["tt"; "ss"; "ff"]%string
    = Ok (output_libraries, true)
    /\ nth_error output_libraries 3 = Some "sram64x128_ss"%string.
Proof.
  assert (Hok : forall p c : string,
            In p ["sram32x64"; "sram64x128"]%string -> In c ["tt"; "ss"; "ff"]%string ->
            (fun p c => Ok (p ++ "_" ++ c)%string) p c
            = Ok ((fun p c => (p ++ "_" ++ c)%string) p c))
    by (intros; reflexivity).
  destruct (srams_one_library_per_corner_and_parameter
              (fun p c => Ok (p ++ "_" ++ c)%string)
              (fun p c => (p ++ "_" ++ c)%string)
              ["sram32x64"; "sram64x128"]%string ["tt"; "ss"; "ff"]%string Hok)
    as (output_libraries & Hrun & _ & Hnth).
  exists output_libraries. split; [exact Hrun | ].
  exact (Hnth 1%nat 1%nat "ss"%string "sram64x128"%string eq_refl eq_refl).
Defined.

(** X27: the input parameters are read once per corner.  While they are
    not set, a tool with at least one corner raises the [ValueError] of the
    property, and a tool without corners returns [True] with no library;
    with parameters set and no corner the step also returns [True] with no
    library. *)
Theorem srams_without_parameters_or_corners {P C L : Type}
    (generate_sram : P -> C -> result L) :
  (forall corners, corners <> [] ->
     HammerSRAMGeneratorTool.generate_all_srams_and_corners P C L generate_sram
       None corners
     = Err (ValueError "Nothing set for the input sram parameters to be generated yet"))
  /\ (forall _input_parameters,
        HammerSRAMGeneratorTool.generate_all_srams_and_corners P C L generate_sram
          _input_parameters []
        = Ok ([], true)).
Proof.
  split.
  - intros [|c corners] Hne; [contradiction | ]. reflexivity.
  - intros p. reflexivity.
Qed.

Lemma srams_without_parameters_or_corners_witness :
  HammerSRAMGeneratorTool.generate_all_srams_and_corners string string string
    (fun p c => Ok (p ++ "_" ++ c)%string) None ["tt"]%string
  = Err (ValueError "Nothing set for the input sram parameters to be generated yet").
Proof.
  assert (Hne : ["tt"%string] <> []) by discriminate.
  exact (proj1 (srams_without_parameters_or_corners
                  (fun p c : string => Ok (p ++ "_" ++ c)%string)) ["tt"%string] Hne).
Defined.

(** X28: the step stops at the first call of [generate_sram] that raises,
    in the order corner by corner and parameter by parameter, with the
    exception of that call. *)
Theorem srams_first_failure_is_raised {P C L : Type}
    (generate_sram : P -> C -> result L) (library : P -> C -> L)
    (parameters : list P) (corners : list C) i j c p e :
  nth_error corners i = Some c ->
  nth_error parameters j = Some p ->
  generate_sram p c = Err e ->
  (forall i' j' c' p',
     nth_error corners i' = Some c' -> nth_error parameters j' = Some p' ->
     (i' < i \/ (i' = i /\ j' < j))%nat ->
     generate_sram p' c' = Ok (library p' c')) ->
  HammerSRAMGeneratorTool.generate_all_srams_and_corners P C L generate_sram
    (Some parameters) corners
  = Err e.
Proof.
  intros Hc Hp He Hbefore.
  assert (Hrow_err : forall ps j,
            nth_error ps j = Some p ->
            (forall j' p', nth_error ps j' = Some p' -> (j' < j)%nat ->
                           generate_sram p' c = Ok (library p' c)) ->
            map_r (fun p => generate_sram p c) ps = Err e).
  { clear -He. induction ps as [|p0 ps IH]; intros j Hp Hb; [destruct j; discriminate Hp | ].
    cbn [map_r]. destruct j as [|j]; cbn [nth_error] in Hp.
    - injection Hp as ->. rewrite He. reflexivity.
    - rewrite (Hb 0%nat p0 eq_refl ltac:(lia)). cbn [rbind].
      rewrite (IH j Hp); [reflexivity | ].
      intros j' p' Hp' Hlt. apply (Hb (S j') p' Hp'). lia. }
  unfold HammerSRAMGeneratorTool.generate_all_srams_and_corners.
  assert (Hcorners : map_r (HammerSRAMGeneratorTool.generate_all_srams P C L generate_sram
                              (Some parameters)) corners = Err e).
  { revert i Hc Hbefore. induction corners as [|c0 corners IH]; intros i Hc Hbefore;
      [destruct i; discriminate Hc | ].
    cbn [map_r]. destruct i as [|i]; cbn [nth_error] in Hc.
    - injection Hc as ->.
      unfold HammerSRAMGeneratorTool.generate_all_srams at 1.
      cbn [HammerSRAMGeneratorTool.input_parameters rbind].
      rewrite (Hrow_err parameters j Hp); [reflexivity | ].
      intros j' p' Hp' Hlt. apply (Hbefore 0%nat j' c p' eq_refl Hp'). right. lia.
    - unfold HammerSRAMGeneratorTool.generate_all_srams at 1.
      cbn [HammerSRAMGeneratorTool.input_parameters rbind].
      rewrite (map_r_all_ok _ (fun p => library p c0)).
      + cbn [rbind]. rewrite (IH i Hc); [reflexivity | ].
        intros i' j' c' p' Hc' Hp' Hlt. apply (Hbefore (S i') j' c' p' Hc' Hp'). lia.
      + intros p' Hp'. apply In_nth_error in Hp'. destruct Hp' as (j' & Hj').
        apply (Hbefore 0%nat j' c0 p' eq_refl Hj'). left. lia. }
  rewrite Hcorners. reflexivity.
Qed.

Lemma srams_first_failure_is_raised_witness :
  HammerSRAMGeneratorTool.generate_all_srams_and_corners string string string
    (fun p c => if String.eqb c "ss" then Err OverflowError else Ok (p ++ "_" ++ c)%string)
    (Some ["sram32x64"; "sram64x128"]%string) ["tt"; "ss"; "ff"]%string
  = Err OverflowError.
Proof.
  refine (srams_first_failure_is_raised
            (fun p c => if String.eqb c "ss" then Err OverflowError
                        else Ok (p ++ "_" ++ c)%string)
            (fun p c => (p ++ "_" ++ c)%string)
            ["sram32x64"; "sram64x128"]%string ["tt"; "ss"; "ff"]%string
            1%nat 0%nat "ss"%string "sram32x64"%string OverflowError
            eq_refl eq_refl eq_refl _).
  intros i' j' c' p' Hc' Hp' Hlt.
  destruct i' as [|i']; [ | exfalso; lia].
  cbn [nth_error] in Hc'. injection Hc' as <-. reflexivity.
Defined.
